(** * rosbag_to_csv: a shallow embedding of the bag-to-CSV converter

    The development follows [rosbag_to_csv.py] function by function:
    - the field flattener [_gen_msg_values];
    - the topic dump engine [dump_bag], as a loop over the messages the
      sequential reader delivers, threading the interpreter state
      (open-file table, [file_map], [start_time], [msg_count]);
    - the bag locator [is_rosbag_dir] / [find_rosbags] over a directory tree;
    - the directory orchestrator [process_structured_bags] / [main].

    Python exceptions are values of [exn]; a computation that may raise
    returns [result], and a computation that also updates a state is a
    function from the state to a result and the state reached.  Python
    [float] is IEEE binary64, taken from [SpecFloat] with precision 53
    and maximal exponent 1024; [int] is [Z]; [str] is [string], compared
    byte by byte.  The bag reader, the message decoder, [str] on floats
    and the success of file operations are parameters ([Runtime]).  A
    file object records the lines printed through it.  The filesystem
    seen by the locator is a tree of regular files and directories; a
    [Path] is the list of its components.

    The properties come in two parts: those of the specification, and
    further ones read off the code: the shape of the flattened paths,
    the files and rows of a completed pass, the errors of a pass, the
    bags [find_rosbags] returns, and the outcomes of [main]. *)

From Stdlib Require Import ZArith String Ascii Strings.Byte List SpecFloat.
From Stdlib Require Import Sorting.Sorted Sorting.Permutation.
From stdpp Require Import base strings gmap list pretty.

Open Scope string_scope.
Open Scope list_scope.

(** ** Exceptions and results *)

Inductive exn : Type :=
| KeyError | LookupError | DeserializeError | OSError
| AttributeError | TypeError | OverflowError | ValueError
| FileExistsError | FileNotFoundError | NotADirectoryError
| SystemExit (code : nat).

Inductive result (A : Type) : Type :=
| Ok (a : A)
| Raise (e : exn).
Arguments Ok {A} a.
Arguments Raise {A} e.

(** Sequencing: an exception raised by the first computation propagates. *)
#[global] Instance result_bind : MBind result := fun A B k r =>
  match r with
  | Ok a => k a
  | Raise e => Raise e
  end.

(** ** Decoded messages *)

(** A leaf of a decoded message: what reaches the final [else] branch of
    the flattener. *)
Inductive scalar : Type :=
| SInt (z : Z)
| SFloat (f : spec_float)
| SBool (b : bool)
| SStr (s : string).

(** A decoded value: a leaf, a Python [list], or a message object, whose
    [get_fields_and_field_types()] is an ordered dictionary from field
    name to type string; each entry carries the attribute value. *)
#[warnings="-register-all"] Inductive value : Type :=
| VScalar (s : scalar)
| VList (l : list value)
| VMsg (fields : list (string * string * value)).

(** ** Field flattener *)

(** [f"{prefix}[{i}]"] *)
Definition index_path (prefix : string) (i : nat) : string :=
  prefix +:+ "[" +:+ pretty i +:+ "]".

(** [f"{prefix}.{field}" if prefix else field] *)
Definition full_field_name (prefix field : string) : string :=
  match prefix with
  | EmptyString => field
  | _ => prefix +:+ "." +:+ field
  end.

Definition startswith (s pre : string) : bool := String.prefix pre s.

Section Enumerate.
Context {A : Type}.
Variable rec : A -> string -> result (list (string * scalar)).
Variable prefix : string.

(** [for i, val in enumerate(l): yield from rec(val, f"{prefix}[{i}]")],
    started at index [i]. *)
Fixpoint gen_enumerate (l : list A) (i : nat) : result (list (string * scalar)) :=
  match l with
  | [] => Ok []
  | val :: l' =>
      a ← rec val (index_path prefix i);
      b ← gen_enumerate l' (S i);
      Ok (a ++ b)
  end.
End Enumerate.

(** Iterating a [str] yields its one-character strings; each is a leaf. *)
Definition gen_chars (prefix : string) (s : string) : result (list (string * scalar)) :=
  gen_enumerate (fun c p => Ok [(p, SStr (String c EmptyString))])
                prefix (list_ascii_of_string s) 0.

Section Fields.
Variable rec : value -> string -> result (list (string * scalar)).
Variable prefix : string.

(** The body of the loop over [get_fields_and_field_types().items()]. *)
Definition gen_field (field field_type : string) (val : value)
  : result (list (string * scalar)) :=
  let full := full_field_name prefix field in
  if startswith field_type "sequence<" then
    match val with
    | VList l => gen_enumerate rec full l 0
    | VScalar (SStr s) => gen_chars full s
    | _ => Raise TypeError
    end
  else rec val full.

Fixpoint gen_fields (fs : list (string * string * value))
  : result (list (string * scalar)) :=
  match fs with
  | [] => Ok []
  | (field, field_type, val) :: fs' =>
      a ← gen_field field field_type val;
      b ← gen_fields fs';
      Ok (a ++ b)
  end.
End Fields.

Fixpoint _gen_msg_values (msg : value) (prefix : string)
  : result (list (string * scalar)) :=
  match msg with
  | VList l => gen_enumerate _gen_msg_values prefix l 0
  | VMsg fs => gen_fields _gen_msg_values prefix fs
  | VScalar s => Ok [(prefix, s)]
  end.

(** ** Python numbers *)

Definition prec : Z := 53.
Definition emax : Z := 1024.

Definition fadd : spec_float -> spec_float -> spec_float := SFadd prec emax.
Definition fsub : spec_float -> spec_float -> spec_float := SFsub prec emax.
Definition fmul : spec_float -> spec_float -> spec_float := SFmul prec emax.

(** The literal [1e-9]: the binary64 value nearest to it,
    [0x1.12e0be826d695p-30]. *)
Definition float_1e_9 : spec_float := S754_finite false 4835703278458517 (-82).

(** Conversion of an [int] operand in mixed arithmetic: correctly rounded,
    [OverflowError] when the integer is out of the binary64 range. *)
Definition float_of_int (z : Z) : result spec_float :=
  match binary_normalize prec emax z 0 false with
  | S754_infinity _ => Raise OverflowError
  | f => Ok f
  end.

(** A Python number: [int] or [float]. *)
Inductive num : Type :=
| NInt (z : Z)
| NFloat (f : spec_float).

(** The numeric reading of an operand; [bool] is a subclass of [int].
    [None] for operands on which float arithmetic raises [TypeError]. *)
Definition as_number (v : value) : option num :=
  match v with
  | VScalar (SInt z) => Some (NInt z)
  | VScalar (SBool b) => Some (NInt (if b then 1 else 0))
  | VScalar (SFloat f) => Some (NFloat f)
  | _ => None
  end.

Definition to_float (v : value) : result spec_float :=
  match as_number v with
  | Some (NInt z) => float_of_int z
  | Some (NFloat f) => Ok f
  | None => Raise TypeError
  end.

(** [f * v] for a float [f] *)
Definition py_float_mul (f : spec_float) (v : value) : result spec_float :=
  g ← to_float v; Ok (fmul f g).

(** [v + g] for a float [g] *)
Definition py_add_float (v : value) (g : spec_float) : result spec_float :=
  f ← to_float v; Ok (fadd f g).

(** [a - b] on numbers *)
Definition py_sub (a b : num) : result num :=
  match a, b with
  | NInt x, NInt y => Ok (NInt (x - y))
  | NInt x, NFloat g => f ← float_of_int x; Ok (NFloat (fsub f g))
  | NFloat f, NInt y => g ← float_of_int y; Ok (NFloat (fsub f g))
  | NFloat f, NFloat g => Ok (NFloat (fsub f g))
  end.

(** ** Attribute access *)

Fixpoint find_field (fs : list (string * string * value)) (name : string)
  : option value :=
  match fs with
  | [] => None
  | (field, _, val) :: fs' =>
      if String.eqb field name then Some val else find_field fs' name
  end.

(** [getattr(v, name)] for a name that is no attribute of the built-in
    types ([header], [stamp], [sec], [nanosec]): only a message object
    with such a field has it. *)
Definition getattr (v : value) (name : string) : result value :=
  match v with
  | VMsg fs =>
      match find_field fs name with
      | Some val => Ok val
      | None => Raise AttributeError
      end
  | _ => Raise AttributeError
  end.

Definition hasattr (v : value) (name : string) : bool :=
  match getattr v name with
  | Ok _ => true
  | Raise _ => false
  end.

(** [msg.header.stamp.sec + 1e-9 * msg.header.stamp.nanosec], operands
    evaluated left to right. *)
Definition header_time (msg : value) : result spec_float :=
  h ← getattr msg "header";
  s ← getattr h "stamp";
  sec ← getattr s "sec";
  h' ← getattr msg "header";
  s' ← getattr h' "stamp";
  nanosec ← getattr s' "nanosec";
  frac ← py_float_mul float_1e_9 nanosec;
  py_add_float sec frac.

(** Lines 112-115 of [dump_bag]. *)
Definition resolve_time (msg : value) (timestamp : Z) : result num :=
  if hasattr msg "header" then
    t ← header_time msg; Ok (NFloat t)
  else Ok (NInt timestamp).

(** ** The external runtime *)

(** An output file object: its name, the lines printed to it, and
    whether it has been closed. *)
Record file : Type := File_ {
  fname : string;
  flines : list string;
  fclosed : bool
}.

(** What [dump_bag] consumes from the reader: the topic metadata and the
    [(topic, data, timestamp)] triples in iteration order. *)
Record bag : Type := Bag {
  topics_and_types : list (string * string);
  messages : list (string * list byte * Z)
}.

(** The collaborators [dump_bag] calls but does not implement. *)
Class Runtime : Type := {
  msg_class : Type;
  (** [SequentialReader.open] and the iteration it supports *)
  open_reader : string -> result bag;
  (** [rosidl_runtime_py.utilities.get_message] *)
  get_message : string -> result msg_class;
  (** [rclpy.serialization.deserialize_message] *)
  deserialize_message : list byte -> msg_class -> result value;
  (** [str] on a [float] *)
  float_str : spec_float -> string;
  (** does [os.makedirs(path, exist_ok=True)] succeed *)
  makedirs_ok : string -> bool;
  (** does [open(name, "w")] succeed *)
  open_ok : string -> bool;
  (** does printing a line to a file in a given state succeed *)
  write_ok : file -> string -> bool;
  (** does closing a file in a given state succeed *)
  close_ok : file -> bool
}.

(** ** Dictionaries in insertion order *)

Section Dict.
Context {V : Type}.

Fixpoint dict_get (d : list (string * V)) (k : string) : option V :=
  match d with
  | [] => None
  | (k', v) :: d' => if String.eqb k' k then Some v else dict_get d' k
  end.

(** [d[k] = v]: an existing key keeps its position, a new one goes last. *)
Fixpoint dict_set (d : list (string * V)) (k : string) (v : V)
  : list (string * V) :=
  match d with
  | [] => [(k, v)]
  | (k', v') :: d' =>
      if String.eqb k' k then (k, v) :: d' else (k', v') :: dict_set d' k v
  end.

Definition dict_values (d : list (string * V)) : list V := map snd d.
End Dict.

(** ** Topic dump engine *)

(** The interpreter state of one [dump_bag] call: the file objects opened
    so far (a file object is referred to by its index), the local
    variables [file_map], [start_time], [msg_count], and the relative
    times reported on the console. *)
Record state : Type := State {
  files : list file;
  file_map : list (string * nat);
  start_time : option num;
  msg_count : nat;
  console : list num
}.

Definition init_state : state := State [] [] None 0 [].

Definition set_files (fl : list file) (st : state) : state :=
  State fl (file_map st) (start_time st) (msg_count st) (console st).
Definition set_file_map (fm : list (string * nat)) (st : state) : state :=
  State (files st) fm (start_time st) (msg_count st) (console st).
Definition set_start_time (t : option num) (st : state) : state :=
  State (files st) (file_map st) t (msg_count st) (console st).
Definition set_msg_count (n : nat) (st : state) : state :=
  State (files st) (file_map st) (start_time st) n (console st).
Definition set_console (c : list num) (st : state) : state :=
  State (files st) (file_map st) (start_time st) (msg_count st) c.

(** Computations that read and update a state and may raise; the state
    reached when an exception is raised is kept. *)
Definition stateM (S A : Type) : Type := S -> result A * S.

#[global] Instance stateM_ret {S : Type} : MRet (stateM S) := fun A a st => (Ok a, st).
#[global] Instance stateM_bind {S : Type} : MBind (stateM S) := fun A B k m st =>
  match m st with
  | (Ok a, st') => k a st'
  | (Raise e, st') => (Raise e, st')
  end.

Definition lift {S A : Type} (r : result A) : stateM S A := fun st => (r, st).
Definition get_state {S : Type} : stateM S S := fun st => (Ok st, st).
Definition modify {S : Type} (f : S -> S) : stateM S unit := fun st => (Ok tt, f st).

Abbreviation io := (stateM state).

Definition SKIP_TOPICS : gset string := {["/rosout"; "/parameter_events"]}.

(** [topic.lstrip('/')] *)
Fixpoint lstrip_slash (s : string) : string :=
  match s with
  | String c s' => if Ascii.eqb c "/" then lstrip_slash s' else s
  | EmptyString => EmptyString
  end.

(** [s.replace('/', '_')] *)
Fixpoint replace_slash (s : string) : string :=
  match s with
  | String c s' => String (if Ascii.eqb c "/" then "_"%char else c) (replace_slash s')
  | EmptyString => EmptyString
  end.

(** [f"{output_path}/{topic.lstrip('/').replace('/', '_')}.csv"] *)
Definition csv_filename (output_path topic : string) : string :=
  output_path +:+ "/" +:+ replace_slash (lstrip_slash topic) +:+ ".csv".

(** [",".join(cells)] *)
Definition join_comma (cells : list string) : string := String.concat "," cells.

Definition not_header (p : string) : bool := negb (startswith p "header.").

Section Dump.
Context `{rt : Runtime}.

Definition num_str (n : num) : string :=
  match n with
  | NInt z => pretty z
  | NFloat f => float_str f
  end.

(** [str(val)] on a leaf *)
Definition scalar_str (s : scalar) : string :=
  match s with
  | SInt z => pretty z
  | SFloat f => float_str f
  | SBool true => "True"
  | SBool false => "False"
  | SStr s => s
  end.

(** [[field for field, _ in flat if not field.startswith("header.")]] *)
Definition header_fields (flat : list (string * scalar)) : list string :=
  map fst (List.filter (fun fv => not_header (fst fv)) flat).

(** [[str(val) for _, val in flat if not _.startswith("header.")]] *)
Definition row_values (flat : list (string * scalar)) : list string :=
  map (fun fv => scalar_str (snd fv)) (List.filter (fun fv => not_header (fst fv)) flat).

(** ["time," + ",".join(fields)] *)
Definition header_line (flat : list (string * scalar)) : string :=
  "time," +:+ join_comma (header_fields flat).

(** [",".join([str(relative_time)] + values)] *)
Definition row_cells (relative_time : num) (flat : list (string * scalar))
  : list string :=
  num_str relative_time :: row_values flat.

Definition row_line (relative_time : num) (flat : list (string * scalar)) : string :=
  join_comma (row_cells relative_time flat).

(** [open(name, "w")]: a new file object, referred to by its index. *)
Definition open_w (name : string) : io nat := fun st =>
  if open_ok name
  then (Ok (length (files st)), set_files (files st ++ [File_ name [] false]) st)
  else (Raise OSError, st).

(** [print(line, file=h)] *)
Definition print_file (h : nat) (line : string) : io unit := fun st =>
  match files st !! h with
  | Some f =>
      if fclosed f then (Raise ValueError, st)
      else if write_ok f line
      then (Ok tt, set_files (<[h := File_ (fname f) (flines f ++ [line]) false]> (files st)) st)
      else (Raise OSError, st)
  | None => (Raise ValueError, st)
  end.

(** [h.close()]: the object is closed even when flushing it fails;
    closing a closed file does nothing. *)
Definition close_file (h : nat) : io unit := fun st =>
  match files st !! h with
  | Some f =>
      let st' := set_files (<[h := File_ (fname f) (flines f) true]> (files st)) st in
      if fclosed f || close_ok f then (Ok tt, st') else (Raise OSError, st')
  | None => (Ok tt, st)
  end.

(** Lines 100-107: the first message of a topic opens its file and
    prints the header. *)
Definition ensure_file (output_path topic : string) (msg : value) : io unit :=
  st ← get_state;
  match dict_get (file_map st) topic with
  | Some _ => mret tt
  | None =>
      h ← open_w (csv_filename output_path topic);
      flat ← lift (_gen_msg_values msg "");
      print_file h (header_line flat);;
      modify (fun st => set_file_map (dict_set (file_map st) topic h) st)
  end.

(** Lines 109-127: the row of one decoded message. *)
Definition write_row (topic : string) (msg : value) (timestamp : Z) : io unit :=
  st ← get_state;
  h ← lift (match dict_get (file_map st) topic with
            | Some h => Ok h
            | None => Raise KeyError
            end);
  time_sec ← lift (resolve_time msg timestamp);
  modify (fun st => match start_time st with
                    | None => set_start_time (Some time_sec) st
                    | Some _ => st
                    end);;
  st ← get_state;
  relative_time ← lift (match start_time st with
                        | Some s => py_sub time_sec s
                        | None => Raise TypeError
                        end);
  flat ← lift (_gen_msg_values msg "");
  print_file h (row_line relative_time flat);;
  modify (fun st => if decide (msg_count st `mod` 1000 = 0)
                    then set_console (console st ++ [relative_time]) st
                    else st);;
  modify (fun st => set_msg_count (S (msg_count st)) st).

(** Lines 96-97: the message class of the topic, then the decoding. *)
Definition decode_message (type_map : gmap string string) (topic : string)
  (data : list byte) : result value :=
  type_name ← match type_map !! topic with
              | Some t => Ok t
              | None => Raise KeyError
              end;
  msg_type ← get_message type_name;
  deserialize_message data msg_type.

(** The body of the [while reader.has_next()] loop. *)
Definition loop_body (type_map : gmap string string) (output_path : string)
  (m : string * list byte * Z) : io unit :=
  let '(topic, data, timestamp) := m in
  if decide (topic ∈ SKIP_TOPICS) then mret tt
  else
    msg ← lift (decode_message type_map topic data);
    ensure_file output_path topic msg;;
    write_row topic msg timestamp.

Fixpoint dump_loop (type_map : gmap string string) (output_path : string)
  (msgs : list (string * list byte * Z)) : io unit :=
  match msgs with
  | [] => mret tt
  | m :: msgs' =>
      loop_body type_map output_path m;;
      dump_loop type_map output_path msgs'
  end.

(** [for file in file_map.values(): file.close()] *)
Fixpoint close_each (hs : list nat) : io unit :=
  match hs with
  | [] => mret tt
  | h :: hs' => close_file h;; close_each hs'
  end.

(** [{topic.name: topic.type for topic in topic_types}] *)
Definition make_type_map (topic_types : list (string * string)) : gmap string string :=
  foldl (fun m nt => <[fst nt := snd nt]> m) ∅ topic_types.

Definition dump_bag (bag_path output_path : string) : io nat :=
  b ← lift (open_reader bag_path);
  let type_map := make_type_map (topics_and_types b) in
  modify (fun st => State (files st) [] None 0 (console st));;
  lift (if makedirs_ok output_path then Ok tt else Raise OSError);;
  dump_loop type_map output_path (messages b);;
  st ← get_state;
  close_each (dict_values (file_map st));;
  st ← get_state;
  mret (length (file_map st)).
End Dump.

(** ** Filesystem *)

(** A directory tree: regular files and directories; the entries of a
    directory are in the order the operating system lists them. *)
#[warnings="-register-all"] Inductive node : Type :=
| NFile
| NDir (entries : list (string * node)).

(** A [Path]: its components, resolved from the root of the tree. *)
Definition path : Type := list string.

Fixpoint lookup_entry (es : list (string * node)) (name : string) : option node :=
  match es with
  | [] => None
  | (name', n) :: es' =>
      if String.eqb name' name then Some n else lookup_entry es' name
  end.

Fixpoint resolve (fs : node) (p : path) : option node :=
  match p with
  | [] => Some fs
  | name :: p' =>
      match fs with
      | NDir es =>
          match lookup_entry es name with
          | Some n => resolve n p'
          | None => None
          end
      | NFile => None
      end
  end.

(** [Path.exists()] *)
Definition path_exists (fs : node) (p : path) : bool :=
  match resolve fs p with
  | Some _ => true
  | None => false
  end.

(** [Path.is_dir()] *)
Definition is_dir (fs : node) (p : path) : bool :=
  match resolve fs p with
  | Some (NDir _) => true
  | _ => false
  end.

(** [s.endswith(suffix)] *)
Definition endswith (s suffix : string) : bool :=
  (String.length suffix <=? String.length s)%nat &&
  String.eqb (substring (String.length s - String.length suffix)
                        (String.length suffix) s) suffix.

(** [path.glob("*.db3")]: the entries of the directory whose name matches. *)
Definition glob_db3 (fs : node) (p : path) : list path :=
  match resolve fs p with
  | Some (NDir es) =>
      map (fun e => p ++ [fst e]) (List.filter (fun e => endswith (fst e) ".db3") es)
  | _ => []
  end.

(** [any(xs)] on a sequence of paths: is there one *)
Definition any_path (xs : list path) : bool :=
  match xs with
  | [] => false
  | _ :: _ => true
  end.

Definition is_rosbag_dir (fs : node) (p : path) : bool :=
  if negb (is_dir fs p) then false
  else
    let has_metadata := path_exists fs (p ++ ["metadata.yaml"]) in
    let has_db3 := any_path (glob_db3 fs p) in
    has_metadata && has_db3.

(** ** Bag locator *)

Definition is_NDir (n : node) : bool :=
  match n with
  | NDir _ => true
  | NFile => false
  end.

Section Walk.
(** [clear dirpath]: does the loop body empty [dirnames] at [dirpath] *)
Variable clear : path -> bool.

(** [os.walk(top)], top-down: the directories visited, in order, when
    the consumer prunes with [clear].  [n] is the directory at [top];
    [dirnames] are its entries that are directories. *)
Fixpoint os_walk (n : node) (top : path) : list path :=
  match n with
  | NFile => []
  | NDir es =>
      top ::
      (if clear top then []
       else
         (fix walk_entries (es : list (string * node)) : list path :=
            match es with
            | [] => []
            | (name, child) :: es' =>
                (if is_NDir child then os_walk child (top ++ [name]) else [])
                ++ walk_entries es'
            end) es)
  end.
End Walk.

(** Lexicographic comparison of sequences. *)
Fixpoint lex_compare {A : Type} (cmp : A -> A -> comparison) (p q : list A)
  : comparison :=
  match p, q with
  | [], [] => Eq
  | [], _ :: _ => Lt
  | _ :: _, [] => Gt
  | a :: p', b :: q' =>
      match cmp a b with
      | Eq => lex_compare cmp p' q'
      | c => c
      end
  end.

(** [Path.__lt__]: the component tuples are compared, component by
    component, each as a string. *)
Definition path_compare : path -> path -> comparison := lex_compare String.compare.

Definition path_ltb (p q : path) : bool :=
  match path_compare p q with
  | Lt => true
  | _ => false
  end.

Definition path_le (p q : path) : Prop := path_compare p q <> Gt.

(** [sorted(l)]: a stable sort by [<]. *)
Fixpoint insert_sorted (x : path) (l : list path) : list path :=
  match l with
  | [] => [x]
  | y :: l' => if path_ltb y x then y :: insert_sorted x l' else x :: l
  end.

Definition sorted (l : list path) : list path := foldr insert_sorted [] l.

Definition find_rosbags (fs : node) (root_path : path) : list path :=
  let visited :=
    match resolve fs root_path with
    | Some n => os_walk (is_rosbag_dir fs) n root_path
    | None => []
    end in
  sorted (List.filter (is_rosbag_dir fs) visited).

(** ** Directory orchestrator *)

(** [str(path)] *)
Definition path_str (p : path) : string :=
  match p with
  | [] => "."
  | _ :: _ => String.concat "/" p
  end.

(** [Path(p).relative_to(Path(root))] *)
Fixpoint relative_to (p root : path) : result path :=
  match root, p with
  | [], _ => Ok p
  | r :: root', c :: p' =>
      if String.eqb r c then relative_to p' root' else Raise ValueError
  | _ :: _, [] => Raise ValueError
  end.

Definition get_relative_structure (bag_path root_path : path) : result path :=
  relative_to bag_path root_path.

Fixpoint update_entry (es : list (string * node)) (name : string) (n : node)
  : list (string * node) :=
  match es with
  | [] => []
  | (name', n') :: es' =>
      if String.eqb name' name then (name', n) :: es'
      else (name', n') :: update_entry es' name n
  end.

(** [Path.mkdir(exist_ok=True)] at [p]: the tree afterwards. *)
Fixpoint mkdir_exist_ok (fs : node) (p : path) : result node :=
  match p with
  | [] =>
      match fs with
      | NDir _ => Ok fs
      | NFile => Raise FileExistsError
      end
  | name :: p' =>
      match fs with
      | NFile => Raise NotADirectoryError
      | NDir es =>
          match lookup_entry es name with
          | Some child =>
              child' ← mkdir_exist_ok child p';
              Ok (NDir (update_entry es name child'))
          | None =>
              match p' with
              | [] => Ok (NDir (es ++ [(name, NDir [])]))
              | _ :: _ => Raise FileNotFoundError
              end
          end
      end
  end.

(** One call of [dump_bag]: its arguments, what it returned or raised,
    and the state it ended in. *)
Record dump_call : Type := DumpCall {
  call_bag : string;
  call_output : string;
  call_result : result nat;
  call_state : state
}.

(** The lines the orchestrator prints. *)
Inductive message : Type :=
| MsgProcessing (bag_path : path)
| MsgCreated (topic_count : nat) (output_path : path)
| MsgFound (n : nat)
| MsgFoundIn (n : nat) (input_path : path)
| MsgNoteCsvHere
| MsgAllProcessed
| ErrNoRos2bagDir (input_root : path)
| ErrNoBagsUnder (ros2bag_dir : path)
| ErrNotExist (input_path : path)
| ErrNotDir (input_path : path)
| ErrNoBagsIn (input_path : path)
| ErrExpected.

Record world : Type := World {
  tree : node;
  dumps : list dump_call;
  stdout : list message;
  stderr : list message
}.

Definition print_out (m : message) : stateM world unit :=
  modify (fun w => World (tree w) (dumps w) (stdout w ++ [m]) (stderr w)).
Definition print_err (m : message) : stateM world unit :=
  modify (fun w => World (tree w) (dumps w) (stdout w) (stderr w ++ [m])).

(** [sys.exit(code)] *)
Definition sys_exit {A : Type} (code : nat) : stateM world A :=
  lift (Raise (SystemExit code)).

Section Orchestrator.
Context `{rt : Runtime}.

(** The call [dump_bag(str(bag_path), str(output_path))], run from a
    fresh interpreter state and recorded. *)
Definition call_dump_bag (bag_path output_path : path) : stateM world nat :=
  fun w =>
    let '(r, st) := dump_bag (path_str bag_path) (path_str output_path) init_state in
    (r, World (tree w)
              (dumps w ++ [DumpCall (path_str bag_path) (path_str output_path) r st])
              (stdout w) (stderr w)).

Definition process_single_bag (bag_path output_path : path) : stateM world unit :=
  print_out (MsgProcessing bag_path);;
  topic_count ← call_dump_bag bag_path output_path;
  print_out (MsgCreated topic_count output_path).

(** [csv_dir.mkdir(exist_ok=True)] *)
Definition mkdir (p : path) : stateM world unit :=
  w ← get_state;
  t ← lift (mkdir_exist_ok (tree w) p);
  modify (fun w => World t (dumps w) (stdout w) (stderr w)).

(** The loop [for bag_path in rosbags] shared by the two tree modes. *)
Fixpoint process_each (root_path csv_dir : path) (rosbags : list path)
  : stateM world unit :=
  match rosbags with
  | [] => mret tt
  | bag_path :: rest =>
      rel_path ← lift (get_relative_structure bag_path root_path);
      let output_path := csv_dir ++ rel_path in
      process_single_bag bag_path output_path;;
      process_each root_path csv_dir rest
  end.

Definition process_structured_bags (input_root : path) : stateM world unit :=
  let ros2bag_dir := input_root ++ ["ros2bag"] in
  let csv_dir := input_root ++ ["csv"] in
  w ← get_state;
  (if negb (path_exists (tree w) ros2bag_dir)
   then print_err (ErrNoRos2bagDir input_root);; sys_exit 1
   else mret tt);;
  mkdir csv_dir;;
  w ← get_state;
  let rosbags := find_rosbags (tree w) ros2bag_dir in
  (match rosbags with
   | [] => print_err (ErrNoBagsUnder ros2bag_dir);; sys_exit 1
   | _ :: _ => mret tt
   end);;
  print_out (MsgFound (length rosbags));;
  process_each ros2bag_dir csv_dir rosbags;;
  print_out MsgAllProcessed.

Definition main (input_path : path) : stateM world unit :=
  w ← get_state;
  if negb (path_exists (tree w) input_path)
  then print_err (ErrNotExist input_path);; sys_exit 1
  else if negb (is_dir (tree w) input_path)
  then print_err (ErrNotDir input_path);; sys_exit 1
  else if is_rosbag_dir (tree w) input_path
  then process_single_bag input_path input_path
  else if path_exists (tree w) (input_path ++ ["ros2bag"])
  then process_structured_bags input_path
  else
    let rosbags := find_rosbags (tree w) input_path in
    match rosbags with
    | _ :: _ =>
        print_out (MsgFoundIn (length rosbags) input_path);;
        print_out MsgNoteCsvHere;;
        let csv_dir := input_path ++ ["csv"] in
        mkdir csv_dir;;
        process_each input_path csv_dir rosbags;;
        print_out MsgAllProcessed
    | [] =>
        print_err (ErrNoBagsIn input_path);;
        print_err ErrExpected;;
        sys_exit 1
    end.

Definition run_main (fs : node) (input_path : path) : result unit * world :=
  main input_path (World fs [] [] []).
End Orchestrator.

(** ** Notions used by the properties *)






Section Vocabulary.
Context `{rt : Runtime}.
Implicit Types (st : state) (topic : string) (msg : value).

(** The state once [open(csv_filename, "w")] has made a new file object,
    holding [lines]. *)
Definition opened (output_path topic : string) (lines : list string) st : state :=
  set_files (files st ++ [File_ (csv_filename output_path topic) lines false]) st.

(** The state after lines 117-118: [start_time] is [t] if it was [None]. *)
Definition started (t : num) st : state :=
  match start_time st with
  | None => set_start_time (Some t) st
  | Some _ => st
  end.

(** The state after lines 125-126: every 1000th message is reported. *)
Definition reported (rel : num) st : state :=
  if decide (msg_count st `mod` 1000 = 0)
  then set_console (console st ++ [rel]) st
  else st.

(** The state after lines 123-127: the row is printed to file [h], the
    progress reported and the message counted. *)
Definition row_written (h : nat) (f : file) (rel : num) (flat : list (string * scalar)) st
  : state :=
  let st1 := set_files (<[h := File_ (fname f) (flines f ++ [row_line rel flat]) false]> (files st)) st in
  let st2 := reported rel st1 in
  set_msg_count (S (msg_count st2)) st2.

(** Invariant of the message loop: the handles in [file_map] are file
    objects, no two topics share one, every file object is open, and no
    skipped topic is a key. *)
Record wf_state st : Prop := WfState {
  wf_handles : forall topic h,
    dict_get (file_map st) topic = Some h -> h < length (files st);
  wf_inj : forall t1 t2 h,
    dict_get (file_map st) t1 = Some h -> dict_get (file_map st) t2 = Some h -> t1 = t2;
  wf_open : forall h f, files st !! h = Some f -> fclosed f = false;
  wf_noskip : forall topic, topic ∈ SKIP_TOPICS -> dict_get (file_map st) topic = None
}.

(** Every file object is the value of a key of [file_map]. *)
Definition tracked st : Prop :=
  forall h, h < length (files st) -> exists topic, dict_get (file_map st) topic = Some h.

(** The file object after [close()]. *)
Definition closed_file (f : file) : file := File_ (fname f) (flines f) true.

(** The messages the loop does not skip. *)
Definition processed (msgs : list (string * list byte * Z)) : list (string * list byte * Z) :=
  List.filter (fun m => negb (bool_decide (fst (fst m) ∈ SKIP_TOPICS))) msgs.

(** Every file object was opened for a topic that is not skipped. *)
Definition named (output_path : string) st : Prop :=
  forall h f, files st !! h = Some f ->
    exists topic, (topic ∉ SKIP_TOPICS) /\ fname f = csv_filename output_path topic.

(** The first message that is not skipped, with its decoding and its
    resolved timestamp. *)
Definition first_processed type_map (msgs : list (string * list byte * Z))
  (topic : string) (timestamp : Z) (msg : value) (t : num) : Prop :=
  exists data rest,
    processed msgs = (topic, data, timestamp) :: rest /\
    decode_message type_map topic data = Ok msg /\
    resolve_time msg timestamp = Ok t.


(** From [st] to [st']: [file_map] keeps its entries, file objects
    keep their names and the lines printed so far. *)
Definition extends st st' : Prop :=
  (forall topic h, dict_get (file_map st) topic = Some h ->
                   dict_get (file_map st') topic = Some h) /\
  (forall h f, files st !! h = Some f ->
     exists f', files st' !! h = Some f' /\ fname f' = fname f /\
                flines f `prefix_of` flines f').

Section Provenance.
Variable type_map : gmap string string.
Variable msgs : list (string * list byte * Z).

(** [msg] is the decoding of a message of the bag on [topic],
    recorded at [timestamp]. *)
Definition from_bag topic msg (timestamp : Z) : Prop :=
  exists data, In (topic, data, timestamp) msgs /\
               decode_message type_map topic data = Ok msg.


End Provenance.

(** The record of a call is what [dump_bag] did, and every file of the
    call is a topic file in the output directory of the call. *)
Definition call_faithful (c : dump_call) : Prop :=
  dump_bag (call_bag c) (call_output c) init_state = (call_result c, call_state c) /\
  named (call_output c) (call_state c).
End Vocabulary.

(** The arguments of a recorded call. *)
Definition call_args (c : dump_call) : string * string := (call_bag c, call_output c).

(** The call the orchestrator makes for a bag found under [root_path]. *)
Definition mirrored (root_path csv_dir bag_path : path) : string * string :=
  (path_str bag_path, path_str (csv_dir ++ drop (length root_path) bag_path)).

(** ** Notions used by the further properties *)

(** [f <$> r]: the function applied to the value returned, an exception
    kept. *)
#[global] Instance result_fmap : FMap result := fun A B f r =>
  match r with
  | Ok a => Ok (f a)
  | Raise e => Raise e
  end.

(** What [enumerate(val)] accepts among the decoded values: a list or a
    [str]. *)
Definition iterable (v : value) : bool :=
  match v with
  | VList _ | VScalar (SStr _) => true
  | _ => false
  end.

(** Every field whose type starts with [sequence<], at any depth, holds
    an iterable value. *)
Fixpoint sequences_iterable (v : value) : bool :=
  match v with
  | VScalar _ => true
  | VList l => forallb sequences_iterable l
  | VMsg fs =>
      forallb (fun f =>
                 (if startswith (snd (fst f)) "sequence<" then iterable (snd f) else true)
                 && sequences_iterable (snd f)) fs
  end.

(** The outcome of flattening [v]: success exactly when the sequences
    are iterable, [TypeError] otherwise. *)
Definition flat_outcome (ok : bool) (r : result (list (string * scalar))) : Prop :=
  match r with
  | Ok _ => ok = true
  | Raise e => e = TypeError /\ ok = false
  end.

(** [q] is the path [p] itself or continues it with a field or an index. *)
Definition below (p q : string) : Prop :=
  q = p \/ exists s, q = p +:+ "." +:+ s \/ q = p +:+ "[" +:+ s.

(** A field name that is not empty and has no dot. *)
Definition plain_name (name : string) : bool :=
  negb (String.eqb name "") &&
  forallb (fun c => negb (Ascii.eqb c ".")) (list_ascii_of_string name).

(** A top-level field [header] that holds a message. *)
Definition nested_header (f : string * string * value) : bool :=
  String.eqb (fst (fst f)) "header" &&
  match snd f with
  | VMsg _ => true
  | _ => false
  end.

(** No character of [s] is a separator. *)
Definition sep_free (sep : ascii -> bool) (s : string) : bool :=
  forallb (fun c => negb (sep c)) (list_ascii_of_string s).

(** The characters that continue a path: the dot and the bracket. *)
Definition path_sep (c : ascii) : bool := Ascii.eqb c "." || Ascii.eqb c "[".

(** A field name that is not empty and has neither dot nor bracket. *)
Definition identifier (name : string) : bool :=
  negb (String.eqb name "") && sep_free path_sep name.

(** At every depth the field names of a message are identifiers and
    pairwise distinct, as the keys of [get_fields_and_field_types()] are. *)
Fixpoint well_named (v : value) : bool :=
  match v with
  | VScalar _ => true
  | VList l => forallb well_named l
  | VMsg fs =>
      bool_decide (NoDup (map (fun f => fst (fst f)) fs)) &&
      forallb (fun f => identifier (fst (fst f)) && well_named (snd f)) fs
  end.

(** [r] is empty or starts with a separator. *)
Definition sep_start (sep : ascii -> bool) (r : string) : Prop :=
  match r with
  | EmptyString => True
  | String c _ => sep c = true
  end.

(** The slash, which separates the components of a file name. *)
Definition is_slash (c : ascii) : bool := Ascii.eqb c "/".

(** The part of the file name [csv_filename] derives from the topic. *)
Definition csv_stem (topic : string) : string := replace_slash (lstrip_slash topic).

(** The topic of a message read from the bag. *)
Definition topic_of (m : string * list byte * Z) : string := fst (fst m).

(** The topics that have a message outside the skip set, each once. *)
Definition topics_of (msgs : list (string * list byte * Z)) : list string :=
  remove_dups (map topic_of (processed msgs)).

Section RowVocabulary.
Context `{rt : Runtime}.

(** The messages of the bag on [topic], in the order read. *)
Definition on_topic (topic : string) (msgs : list (string * list byte * Z))
  : list (string * list byte * Z) :=
  List.filter (fun m => String.eqb (topic_of m) topic) msgs.

(** [row] is the row of the message [m] on [topic], relative to the
    start time of [st]. *)
Definition row_for (type_map : gmap string string) (st : state) (topic : string)
    (m : string * list byte * Z) (row : string) : Prop :=
  exists msg t s rel flat,
    decode_message type_map topic (snd (fst m)) = Ok msg /\
    resolve_time msg (snd m) = Ok t /\
    start_time st = Some s /\
    py_sub t s = Ok rel /\
    _gen_msg_values msg "" = Ok flat /\
    row = row_line rel flat.
End RowVocabulary.

(** No directory of the tree has two entries of the same name. *)
Fixpoint unique_names (n : node) : bool :=
  match n with
  | NFile => true
  | NDir es =>
      bool_decide (NoDup (map fst es)) && forallb (fun e => unique_names (snd e)) es
  end.

(** Every entry of [n], at any depth, is an entry of [n'] of the same
    name and kind. *)
Fixpoint sub_tree (n n' : node) : bool :=
  match n, n' with
  | NFile, NFile => true
  | NDir es, NDir es' =>
      forallb (fun e =>
                 match lookup_entry es' (fst e) with
                 | Some c' => sub_tree (snd e) c'
                 | None => false
                 end) es
  | _, _ => false
  end.

(** The directories the inner loop of [os_walk] visits. *)
Definition walk_entries (clear : path -> bool) (top : path) (es : list (string * node))
  : list path :=
  flat_map (fun e => if is_NDir (snd e) then os_walk clear (snd e) (top ++ [fst e]) else []) es.

(** The call returned normally. *)
Definition call_ok (c : dump_call) : Prop := exists n, call_result c = Ok n.

(** ** Sample data *)

(** A rendering of floats for the examples: Python's text for zeros,
    infinities and nan; other values are shown as mantissa and exponent. *)
Definition demo_float_str (f : spec_float) : string :=
  match f with
  | S754_zero false => "0.0"
  | S754_zero true => "-0.0"
  | S754_infinity false => "inf"
  | S754_infinity true => "-inf"
  | S754_nan => "nan"
  | S754_finite s m e =>
      (if s then "-" else "") +:+ pretty (Zpos m) +:+ "*2**" +:+ pretty e
  end.

Definition stamp_msg (sec_type : string) (sec nanosec : scalar) : value :=
  VMsg [("sec", sec_type, VScalar sec); ("nanosec", "uint32", VScalar nanosec)].

Definition header_msg (sec_type : string) (sec nanosec : scalar) : value :=
  VMsg [("stamp", "builtin_interfaces/Time", stamp_msg sec_type sec nanosec);
        ("frame_id", "string", VScalar (SStr "map"))].

(** The messages the sample decoder produces, by the first byte of the
    serialized data. *)
Definition demo_messages : list value :=
  [ (* 0: std_msgs/String *)
    VMsg [("data", "string", VScalar (SStr "a,b"))];
    (* 1: a stamped reading *)
    VMsg [("header", "std_msgs/Header", header_msg "int32" (SInt 5) (SInt 500000000));
          ("x", "float64", VScalar (SInt 7))];
    (* 2: a reading whose stamp holds a float that is not a number *)
    VMsg [("header", "demo/Header", header_msg "float64" (SFloat S754_nan) (SInt 0));
          ("x", "float64", VScalar (SInt 7))];
    (* 3: a message with a header field that has no stamp *)
    VMsg [("header", "string", VScalar (SStr "h")); ("x", "int32", VScalar (SInt 1))];
    (* 4: std_msgs/Int32 *)
    VMsg [("data", "int32", VScalar (SInt 42))] ].

Definition plain_bag : bag :=
  Bag [("/a", "std_msgs/msg/Int32"); ("/b/c", "std_msgs/msg/Int32");
       ("/rosout", "rcl_interfaces/msg/Log")]
      [("/rosout", [x04], 50%Z); ("/a", [x04], 100%Z); ("/b/c", [x04], 250%Z);
       ("/rosout", [x04], 260%Z); ("/a", [x04], 300%Z)].

(** The second message cannot be decoded. *)
Definition broken_bag : bag :=
  Bag [("/a", "std_msgs/msg/Int32")]
      [("/a", [x04], 100%Z); ("/a", [xff], 200%Z)].

Definition commas_bag : bag :=
  Bag [("/s", "std_msgs/msg/String")] [("/s", [x00], 100%Z)].

Definition nan_bag : bag :=
  Bag [("/r", "demo/msg/Reading")] [("/r", [x02], 100%Z)].

(** A stamped message, then one without a header. *)
Definition mixed_bag : bag :=
  Bag [("/r", "demo/msg/Reading"); ("/a", "std_msgs/msg/Int32")]
      [("/r", [x01], 100%Z); ("/a", [x04], 300%Z)].

Definition trial_bag (timestamp : Z) : bag :=
  Bag [("/a", "std_msgs/msg/Int32")] [("/a", [x04], timestamp)].

Definition demo_bags : list (string * bag) :=
  [ ("plain", plain_bag); ("broken", broken_bag); ("commas", commas_bag);
    ("nan", nan_bag); ("mixed", mixed_bag);
    ("proj/ros2bag/cfg1/t1", trial_bag 1);
    ("proj/ros2bag/cfg1/t2", trial_bag 2);
    ("proj/ros2bag/cfg2/t1", trial_bag 3) ].

Definition demo_runtime : Runtime := {|
  msg_class := string;
  open_reader := fun p =>
    match dict_get demo_bags p with
    | Some b => Ok b
    | None => Raise OSError
    end;
  get_message := fun t => Ok t;
  deserialize_message := fun data _ =>
    match data with
    | b :: _ =>
        match demo_messages !! Byte.to_nat b with
        | Some v => Ok v
        | None => Raise DeserializeError
        end
    | [] => Raise DeserializeError
    end;
  float_str := demo_float_str;
  makedirs_ok := fun _ => true;
  open_ok := fun _ => true;
  write_ok := fun _ _ => true;
  close_ok := fun _ => true
|}.

Definition bag_dir (db3 : string) (more : list (string * node)) : node :=
  NDir ([("metadata.yaml", NFile); (db3, NFile)] ++ more).

(** [proj/ros2bag/{cfg2/t1, cfg1/{t2, t1}}]: three bags, one of which
    has a bag inside it. *)
Definition demo_tree : node :=
  NDir [("proj",
         NDir [("ros2bag",
                NDir [("cfg2", NDir [("t1", bag_dir "t1_0.db3" [])]);
                      ("notes.txt", NFile);
                      ("cfg1", NDir [("t2", bag_dir "t2_0.db3" []);
                                     ("t1", bag_dir "t1_0.db3"
                                        [("inner", bag_dir "inner_0.db3" [])])])])])].


(** A project with a regular file named [csv]. *)
Definition blocked_tree : node :=
  NDir [("proj", NDir [("csv", NFile);
                       ("ros2bag", NDir [("t1", bag_dir "t1_0.db3" [])])])].

(** The fields of a stamped reading. *)
Definition reading_fields : list (string * string * value) :=
  [("header", "std_msgs/Header", header_msg "int32" (SInt 5) (SInt 500000000));
   ("x", "float64", VScalar (SInt 7))].

(** The sample tree, its directories listed in another order. *)
Definition demo_tree_relisted : node :=
  NDir [("proj",
         NDir [("ros2bag",
                NDir [("cfg1", NDir [("t1", bag_dir "t1_0.db3"
                                        [("inner", bag_dir "inner_0.db3" [])]);
                                     ("t2", bag_dir "t2_0.db3" [])]);
                      ("cfg2", NDir [("t1", NDir [("t1_0.db3", NFile);
                                                  ("metadata.yaml", NFile)])]);
                      ("notes.txt", NFile)])])].

(** * Properties *)

(** ** Field flattener *)

(** C2: the nested message [{pose: {position: {x, y, z}}}] flattens to
    exactly the three leaves [pose.position.x], [pose.position.y],
    [pose.position.z], in the declared field order, each path being the
    enclosing field names joined by dots; in particular for the values
    1, 2, 3. *)
Theorem flatten_nested_pose (x y z : scalar) :
  _gen_msg_values
    (VMsg [("pose", "geometry_msgs/Pose",
            VMsg [("position", "geometry_msgs/Point",
                   VMsg [("x", "float64", VScalar x); ("y", "float64", VScalar y);
                         ("z", "float64", VScalar z)])])]) "" =
    Ok [("pose.position.x", x); ("pose.position.y", y); ("pose.position.z", z)]
  /\ _gen_msg_values
    (VMsg [("pose", "geometry_msgs/Pose",
            VMsg [("position", "geometry_msgs/Point",
                   VMsg [("x", "float64", VScalar (SInt 1));
                         ("y", "float64", VScalar (SInt 2));
                         ("z", "float64", VScalar (SInt 3))])])]) "" =
    Ok [("pose.position.x", SInt 1); ("pose.position.y", SInt 2);
        ("pose.position.z", SInt 3)].
Proof. split; reflexivity. Qed.

(** ** Bag locator *)

(** Induction on directory trees, with the hypothesis for every entry. *)
Fixpoint node_rect' (P : node -> Prop) (HF : P NFile)
  (HD : forall es, Forall (fun e => P (snd e)) es -> P (NDir es)) (n : node) : P n :=
  match n with
  | NFile => HF
  | NDir es =>
      HD es ((fix go (es : list (string * node)) : Forall (fun e => P (snd e)) es :=
                match es with
                | [] => @List.Forall_nil _ _
                | e :: es1 => @List.Forall_cons _ _ e es1 (node_rect' P HF HD (snd e)) (go es1)
                end) es)
  end.

Lemma resolve_app fs p q :
  resolve fs (p ++ q) = match resolve fs p with Some n => resolve n q | None => None end.
Proof.
  revert fs. induction p as [|name p IH]; intros fs; simpl; [done|].
  destruct fs as [|es]; [done|]. destruct (lookup_entry es name); [apply IH|done].
Qed.

Lemma lookup_entry_Some es name n :
  lookup_entry es name = Some n -> In (name, n) es.
Proof.
  induction es as [|[name' n'] es IH]; simpl; [done|].
  destruct (String.eqb_spec name' name) as [->|]; [intros [= ->]; auto | auto].
Qed.

Lemma lookup_entry_In es name n :
  In (name, n) es -> exists n', lookup_entry es name = Some n'.
Proof.
  induction es as [|[name' n'] es IH]; simpl; [done|].
  intros [[= -> ->]|Hin].
  - rewrite String.eqb_refl. eauto.
  - destruct (String.eqb name' name); eauto.
Qed.

Lemma any_path_true xs : any_path xs = true <-> xs <> [].
Proof. destruct xs; simpl; split; congruence. Qed.

Lemma is_rosbag_dir_spec fs p :
  is_rosbag_dir fs p = true <->
  exists es, resolve fs p = Some (NDir es) /\
    (exists n, In ("metadata.yaml", n) es) /\
    (exists name n, In (name, n) es /\ endswith name ".db3" = true).
Proof.
  unfold is_rosbag_dir, is_dir, path_exists, glob_db3.
  rewrite resolve_app. destruct (resolve fs p) as [[|es]|] eqn:Hr; simpl.
  - split; [done|]. intros (es & [=] & _).
  - destruct (lookup_entry es "metadata.yaml") as [m|] eqn:Hm; simpl.
    + rewrite any_path_true. split.
      * intros Hne. exists es. split; [done|]. split.
        { exists m. by apply lookup_entry_Some. }
        destruct (List.filter _ es) as [|[name n] l] eqn:Hf; [done|].
        assert (In (name, n) (List.filter (fun e => endswith (fst e) ".db3") es)) as Hin
          by (rewrite Hf; left; done).
        apply filter_In in Hin as [Hin He]. eauto.
      * intros (es' & [= <-] & _ & name & n & Hin & He).
        assert (In (name, n) (List.filter (fun e => endswith (fst e) ".db3") es)) as Hin'
          by (apply filter_In; auto).
        destruct (List.filter _ es); [done|]. done.
    + split; [done|]. intros (es' & [= <-] & [n Hin] & _).
      apply lookup_entry_In in Hin as [n' Hn']. congruence.
  - split; [done|]. intros (es & [=] & _).
Qed.

(** *** The walk *)

Lemma prefix_snoc_inv (top q : path) name (k : path) :
  top `prefix_of` q -> q <> top -> q `prefix_of` (top ++ [name]) ++ k ->
  (top ++ [name]) `prefix_of` q.
Proof.
  intros [a ->] Hne [b Hb]. destruct a as [|c a].
  - rewrite app_nil_r in Hne. done.
  - rewrite <- !app_assoc in Hb. apply app_inv_head in Hb. simpl in Hb.
    injection Hb as -> _. exists a. by rewrite <- app_assoc.
Qed.

Lemma os_walk_visited clear n top p :
  In p (os_walk clear n top) ->
  top `prefix_of` p /\
  forall q, top `prefix_of` q -> q `prefix_of` p -> q <> p -> clear q = false.
Proof.
  revert top p. induction n as [|es IH] using node_rect'; intros top p; simpl; [done|].
  intros [<-|Hin].
  - split; [done|]. intros q H1 H2 Hne. destruct Hne. by apply (anti_symm prefix).
  - destruct (clear top) eqn:Hc; [done|].
    induction es as [|[name child] es IHes]; [done|].
    apply Forall_cons in IH as [IHc IH]. simpl in IHc.
    apply in_app_or in Hin as [Hin|Hin]; [|by apply IHes].
    destruct (is_NDir child); [|done].
    apply IHc in Hin as [Hpre Hq]. split.
    + etrans; [|exact Hpre]. by apply prefix_app_r.
    + intros q H1 H2 Hne. destruct (decide (q = top)) as [->|Hqt]; [done|].
      apply Hq; [|done..]. destruct Hpre as [k ->].
      by eapply prefix_snoc_inv.
Qed.

(** *** The order on paths *)

Section Lex.
Context {A : Type} (cmp : A -> A -> comparison).
Hypothesis cmp_refl : forall a, cmp a a = Eq.
Hypothesis cmp_eq : forall a b, cmp a b = Eq -> a = b.
Hypothesis cmp_antisym : forall a b, cmp a b = CompOpp (cmp b a).
Hypothesis cmp_trans : forall a b c, cmp a b = Lt -> cmp b c = Lt -> cmp a c = Lt.

Lemma lex_compare_refl p : lex_compare cmp p p = Eq.
Proof. induction p as [|a p IH]; simpl; [done|]. by rewrite cmp_refl. Qed.

Lemma lex_compare_eq p q : lex_compare cmp p q = Eq -> p = q.
Proof.
  revert q. induction p as [|a p IH]; intros [|b q]; simpl; try done.
  destruct (cmp a b) eqn:Hab; try done.
  intros Hpq. apply cmp_eq in Hab as ->. f_equal. by apply IH.
Qed.

Lemma lex_compare_antisym p q :
  lex_compare cmp p q = CompOpp (lex_compare cmp q p).
Proof.
  revert q. induction p as [|a p IH]; intros [|b q]; simpl; try done.
  rewrite (cmp_antisym a b). destruct (cmp b a); simpl; auto.
Qed.

Lemma lex_compare_trans p q r :
  lex_compare cmp p q = Lt -> lex_compare cmp q r = Lt -> lex_compare cmp p r = Lt.
Proof.
  revert q r. induction p as [|a p IH]; intros [|b q] [|c r]; simpl; try done.
  destruct (cmp a b) eqn:Hab, (cmp b c) eqn:Hbc; try done.
  - apply cmp_eq in Hab as ->. rewrite Hbc. apply IH.
  - apply cmp_eq in Hab as ->. by rewrite Hbc.
  - apply cmp_eq in Hbc as ->. by rewrite Hab.
  - by rewrite (cmp_trans _ _ _ Hab Hbc).
Qed.
End Lex.

Lemma ascii_compare_refl a : Ascii.compare a a = Eq.
Proof. apply N.compare_refl. Qed.

Lemma ascii_compare_trans a b c :
  Ascii.compare a b = Lt -> Ascii.compare b c = Lt -> Ascii.compare a c = Lt.
Proof. unfold Ascii.compare. rewrite !N.compare_lt_iff. lia. Qed.

Lemma string_compare_refl s : String.compare s s = Eq.
Proof. induction s as [|a s IH]; simpl; [done|]. by rewrite ascii_compare_refl. Qed.

Lemma string_compare_trans s t u :
  String.compare s t = Lt -> String.compare t u = Lt -> String.compare s u = Lt.
Proof.
  revert t u. induction s as [|a s IH]; intros [|b t] [|c u]; simpl; try done.
  destruct (Ascii.compare a b) eqn:Hab, (Ascii.compare b c) eqn:Hbc; try done.
  - apply Ascii.compare_eq_iff in Hab as ->. rewrite Hbc. apply IH.
  - apply Ascii.compare_eq_iff in Hab as ->. by rewrite Hbc.
  - apply Ascii.compare_eq_iff in Hbc as ->. by rewrite Hab.
  - by rewrite (ascii_compare_trans _ _ _ Hab Hbc).
Qed.

Lemma path_compare_refl p : path_compare p p = Eq.
Proof. apply lex_compare_refl, string_compare_refl. Qed.

Lemma path_compare_eq p q : path_compare p q = Eq -> p = q.
Proof. apply lex_compare_eq, String.compare_eq_iff. Qed.

Lemma path_compare_antisym p q : path_compare p q = CompOpp (path_compare q p).
Proof. apply lex_compare_antisym, String.compare_antisym. Qed.

Lemma path_compare_trans p q r :
  path_compare p q = Lt -> path_compare q r = Lt -> path_compare p r = Lt.
Proof.
  apply lex_compare_trans.
  - apply String.compare_eq_iff.
  - apply string_compare_trans.
Qed.

Lemma path_le_refl p : path_le p p.
Proof. unfold path_le. by rewrite path_compare_refl. Qed.

Lemma path_le_total p q : path_le p q \/ path_le q p.
Proof.
  unfold path_le. rewrite (path_compare_antisym q p).
  destruct (path_compare p q); simpl; auto.
Qed.

Lemma path_le_antisym p q : path_le p q -> path_le q p -> p = q.
Proof.
  unfold path_le. rewrite (path_compare_antisym q p).
  destruct (path_compare p q) eqn:H; simpl; try done.
  intros _ _. by apply path_compare_eq.
Qed.

Lemma path_le_trans p q r : path_le p q -> path_le q r -> path_le p r.
Proof.
  unfold path_le. intros Hpq Hqr.
  destruct (path_compare p q) eqn:H1; [|clear Hpq|done].
  - apply path_compare_eq in H1 as ->. done.
  - destruct (path_compare q r) eqn:H2; [| |done].
    + apply path_compare_eq in H2 as ->. by rewrite H1.
    + by rewrite (path_compare_trans _ _ _ H1 H2).
Qed.

(** *** Sorting *)

Lemma insert_sorted_perm x l : Permutation (x :: l) (insert_sorted x l).
Proof.
  induction l as [|y l IH]; simpl; [done|].
  destruct (path_ltb y x); [|done].
  rewrite perm_swap. by constructor.
Qed.

Lemma sorted_perm l : Permutation l (sorted l).
Proof.
  induction l as [|x l IH]; simpl; [done|].
  rewrite <- insert_sorted_perm. by constructor.
Qed.

Lemma insert_sorted_sorted x l :
  StronglySorted path_le l -> StronglySorted path_le (insert_sorted x l).
Proof.
  induction 1 as [|y l Hs IH Hall]; simpl.
  - repeat constructor.
  - unfold path_ltb. destruct (path_compare y x) eqn:Hyx.
    + apply path_compare_eq in Hyx as ->. constructor; [by constructor|].
      constructor; [apply path_le_refl|done].
    + constructor; [done|].
      rewrite <- insert_sorted_perm. constructor; [|done].
      unfold path_le. by rewrite Hyx.
    + assert (path_le x y) as Hxy.
      { unfold path_le. rewrite path_compare_antisym, Hyx. done. }
      constructor; [by constructor|]. constructor; [done|].
      eapply Forall_impl; [exact Hall|]. intros z Hz. by eapply path_le_trans.
Qed.

Lemma sorted_sorted l : StronglySorted path_le (sorted l).
Proof.
  induction l as [|x l IH]; simpl; [constructor|]. by apply insert_sorted_sorted.
Qed.

Lemma sorted_unique l l' :
  Permutation l l' -> StronglySorted path_le l -> StronglySorted path_le l' -> l = l'.
Proof.
  revert l'. induction l as [|x l IH]; intros l' Hp Hs Hs'.
  - by apply Permutation_nil in Hp.
  - destruct l' as [|y l']; [by apply Permutation_sym, Permutation_nil in Hp|].
    apply StronglySorted_inv in Hs as [Hs Hx]. apply StronglySorted_inv in Hs' as [Hs' Hy].
    assert (x = y) as ->.
    { assert (In x (y :: l')) as [->|Hin] by (eapply Permutation_in; [exact Hp|by left]); [done|].
      assert (In y (x :: l)) as [->|Hin'] by (eapply Permutation_in; [symmetry; exact Hp|by left]); [done|].
      rewrite List.Forall_forall in Hx, Hy. apply path_le_antisym; auto. }
    f_equal. apply IH; [|done..]. by apply Permutation_cons_inv in Hp.
Qed.

Lemma find_rosbags_In fs root p :
  In p (find_rosbags fs root) <->
  is_rosbag_dir fs p = true /\
  exists n, resolve fs root = Some n /\ In p (os_walk (is_rosbag_dir fs) n root).
Proof.
  unfold find_rosbags. split.
  - intros Hin. eapply Permutation_in in Hin; [|symmetry; apply sorted_perm].
    apply filter_In in Hin as [Hin Hb]. split; [done|].
    destruct (resolve fs root) as [n|]; [eauto|done].
  - intros (Hb & n & Hr & Hin). eapply Permutation_in; [apply sorted_perm|].
    apply filter_In. rewrite Hr. auto.
Qed.



(** C5: no path returned by [find_rosbags] lies strictly below another
    returned path, and the walk visits nothing strictly below a
    directory that qualifies as a bag. *)
Theorem find_rosbags_not_nested (fs : node) (root_path : path) :
  (forall p q, In p (find_rosbags fs root_path) -> In q (find_rosbags fs root_path) ->
     p `prefix_of` q -> p = q) /\
  (forall n b v, resolve fs root_path = Some n ->
     In v (os_walk (is_rosbag_dir fs) n root_path) ->
     root_path `prefix_of` b -> is_rosbag_dir fs b = true ->
     b `prefix_of` v -> b = v).
Proof.
  assert (forall n b v, resolve fs root_path = Some n ->
     In v (os_walk (is_rosbag_dir fs) n root_path) ->
     root_path `prefix_of` b -> is_rosbag_dir fs b = true ->
     b `prefix_of` v -> b = v) as Hprune.
  { intros n b v Hr Hv Hrb Hb Hbv. apply os_walk_visited in Hv as [_ Hv].
    destruct (decide (b = v)) as [|Hne]; [done|].
    rewrite (Hv b Hrb Hbv Hne) in Hb. done. }
  split; [|exact Hprune].
  intros p q Hp Hq Hpq.
  apply find_rosbags_In in Hp as (Hbp & n & Hr & Hp).
  apply find_rosbags_In in Hq as (Hbq & n' & Hr' & Hq).
  rewrite Hr in Hr'. injection Hr' as <-.
  apply (Hprune n p q Hr Hq); [|done..].
  by apply os_walk_visited in Hp as [? _].
Qed.

Lemma find_rosbags_not_nested_witness :
  In ["proj"; "ros2bag"; "cfg1"; "t1"] (find_rosbags demo_tree ["proj"; "ros2bag"]) /\
  ~ In ["proj"; "ros2bag"; "cfg1"; "t1"; "inner"] (find_rosbags demo_tree ["proj"; "ros2bag"]).
Proof.
  assert (In ["proj"; "ros2bag"; "cfg1"; "t1"] (find_rosbags demo_tree ["proj"; "ros2bag"])) as Hin
    by (vm_compute; auto).
  split; [exact Hin|]. intros Hin'.
  assert (["proj"; "ros2bag"; "cfg1"; "t1"] = ["proj"; "ros2bag"; "cfg1"; "t1"; "inner"]) as Heq.
  { apply (proj1 (find_rosbags_not_nested demo_tree ["proj"; "ros2bag"]) _ _ Hin Hin').
    by exists ["inner"]. }
  discriminate Heq.
Defined.

(** C6: the result of [find_rosbags] is sorted by the lexicographic
    order on paths (component by component, each as a string); the
    order is total, so the result is the only sorted arrangement of the
    bags found, whatever order the directories were listed in. *)
Theorem find_rosbags_sorted (fs : node) (root_path : path) :
  StronglySorted path_le (find_rosbags fs root_path) /\
  (forall p q, path_le p q \/ path_le q p) /\
  (forall p q, path_le p q -> path_le q p -> p = q) /\
  (forall l, Permutation l (find_rosbags fs root_path) ->
     StronglySorted path_le l -> l = find_rosbags fs root_path).
Proof.
  split; [apply sorted_sorted|]. split; [apply path_le_total|].
  split; [apply path_le_antisym|].
  intros l Hp Hs. apply sorted_unique; [done..|apply sorted_sorted].
Qed.

Lemma find_rosbags_sorted_witness :
  find_rosbags demo_tree ["proj"; "ros2bag"] =
  [["proj"; "ros2bag"; "cfg1"; "t1"]; ["proj"; "ros2bag"; "cfg1"; "t2"];
   ["proj"; "ros2bag"; "cfg2"; "t1"]].
Proof.
  symmetry.
  apply (proj2 (proj2 (proj2 (find_rosbags_sorted demo_tree ["proj"; "ros2bag"])))).
  - vm_compute. reflexivity.
  - repeat constructor; vm_compute; discriminate.
Defined.

(** ** Topic dump engine *)






Section DictFacts.
Context {V : Type}.
Implicit Types (d : list (string * V)) (k : string) (v : V).

Lemma dict_get_set d k v k' :
  dict_get (dict_set d k v) k' = if decide (k = k') then Some v else dict_get d k'.
Proof.
  induction d as [|[k0 v0] d IH]; simpl.
  - destruct (String.eqb_spec k k'); case_decide; congruence.
  - destruct (String.eqb_spec k0 k) as [->|Hne]; simpl.
    + destruct (String.eqb_spec k k'); case_decide; congruence.
    + rewrite IH. destruct (String.eqb_spec k0 k'); case_decide; congruence.
Qed.

Lemma dict_set_length_new d k v :
  dict_get d k = None -> length (dict_set d k v) = S (length d).
Proof.
  induction d as [|[k0 v0] d IH]; simpl; [done|].
  destruct (String.eqb k0 k); [done|]. intros H. simpl. by rewrite IH.
Qed.

Lemma dict_values_set_new d k v :
  dict_get d k = None -> dict_values (dict_set d k v) = dict_values d ++ [v].
Proof.
  unfold dict_values. induction d as [|[k0 v0] d IH]; simpl; [done|].
  destruct (String.eqb k0 k); [done|]. intros H. simpl. by rewrite IH.
Qed.

Lemma dict_get_values d k v : dict_get d k = Some v -> In v (dict_values d).
Proof.
  unfold dict_values. induction d as [|[k0 v0] d IH]; simpl; [done|].
  destruct (String.eqb k0 k); [intros [= ->]; auto | auto].
Qed.
End DictFacts.

Section DumpSteps.
Context `{rt : Runtime}.
Implicit Types (st : state) (topic : string) (msg : value).

Lemma bind_inv {S A B : Type} (m : stateM S A) (k : A -> stateM S B) s r s' :
  (m ≫= k) s = (r, s') ->
  (exists e, m s = (Raise e, s') /\ r = Raise e) \/
  (exists a s1, m s = (Ok a, s1) /\ k a s1 = (r, s')).
Proof.
  unfold mbind, stateM_bind. destruct (m s) as [[a|e] s1]; intros H.
  - right. eauto.
  - left. injection H as <- <-. eauto.
Qed.

Lemma ensure_file_spec output_path topic msg st r st1 :
  ensure_file output_path topic msg st = (r, st1) ->
  (exists h, dict_get (file_map st) topic = Some h /\ r = Ok tt /\ st1 = st) \/
  (dict_get (file_map st) topic = None /\
   ((exists e, r = Raise e /\ st1 = st) \/
    (exists e, r = Raise e /\ st1 = opened output_path topic [] st) \/
    (exists flat, _gen_msg_values msg "" = Ok flat /\ r = Ok tt /\
       st1 = set_file_map (dict_set (file_map st) topic (length (files st)))
               (opened output_path topic [header_line flat] st)))).
Proof.
  unfold ensure_file. intros H. apply bind_inv in H as [(e & [=] & _)|(a & s1 & [= <- <-] & H)].
  destruct (dict_get (file_map st) topic) as [h|] eqn:Hg.
  { left. injection H as <- <-. eauto. }
  right. split; [done|].
  apply bind_inv in H as [(e & H & ->)|(h & s1 & Ho & H)].
  { left. unfold open_w in H. destruct (open_ok _); [done|]. injection H as <- <-. eauto. }
  unfold open_w in Ho. destruct (open_ok _); [|done]. injection Ho as <- <-.
  fold (opened output_path topic [] st) in H.
  apply bind_inv in H as [(e & [= H <-] & ->)|(flat & s1 & [= Hf <-] & H)].
  { right. left. eauto. }
  apply bind_inv in H as [(e & H & ->)|([] & s1 & Hp & H)].
  - right. left. exists e. split; [done|].
    unfold print_file in H. simpl in H. rewrite lookup_app_r in H by done.
    rewrite Nat.sub_diag in H. simpl in H. destruct (write_ok _ _); [done|].
    by injection H as <- <-.
  - right. right. exists flat. split; [done|].
    unfold print_file in Hp. simpl in Hp. rewrite lookup_app_r in Hp by done.
    rewrite Nat.sub_diag in Hp. simpl in Hp. destruct (write_ok _ _); [|done].
    injection Hp as <-. injection H as <- <-. split; [done|].
    unfold opened, set_file_map, set_files. simpl. f_equal.
    rewrite insert_app_r_alt by done. rewrite Nat.sub_diag. done.
Qed.

Lemma write_row_spec topic msg timestamp st r st' :
  write_row topic msg timestamp st = (r, st') ->
  (exists e, r = Raise e /\
     (st' = st \/ exists t, resolve_time msg timestamp = Ok t /\ st' = started t st)) \/
  (exists h f t s rel flat,
     r = Ok tt /\
     dict_get (file_map st) topic = Some h /\
     files st !! h = Some f /\ fclosed f = false /\
     resolve_time msg timestamp = Ok t /\
     start_time (started t st) = Some s /\
     py_sub t s = Ok rel /\
     _gen_msg_values msg "" = Ok flat /\
     st' = row_written h f rel flat (started t st)).
Proof.
  unfold write_row. intros H.
  apply bind_inv in H as [(e & [=] & _)|(a & s1 & [= <- <-] & H)].
  apply bind_inv in H as [(e & [= H <-] & ->)|(h & s1 & [= Hh <-] & H)].
  { left. eexists. split; [done|]. eauto. }
  destruct (dict_get (file_map st) topic) as [h'|] eqn:Hg; [|done]. injection Hh as ->.
  apply bind_inv in H as [(e & [= H <-] & ->)|(t & s1 & [= Ht <-] & H)].
  { left. eexists. split; [done|]. eauto. }
  apply bind_inv in H as [(e & [=] & _)|([] & s1 & [= <-] & H)].
  fold (started t st) in H.
  apply bind_inv in H as [(e & [=] & _)|(a & s1 & [= <- <-] & H)].
  apply bind_inv in H as [(e & [= H <-] & ->)|(rel & s1 & [= Hrel <-] & H)].
  { left. eexists. split; [done|]. eauto. }
  destruct (start_time (started t st)) as [s|] eqn:Hs; [|done].
  apply bind_inv in H as [(e & [= H <-] & ->)|(flat & s1 & [= Hflat <-] & H)].
  { left. eexists. split; [done|]. eauto. }
  assert (files (started t st) = files st) as Hfiles
    by (unfold started; destruct (start_time st); done).
  assert (file_map (started t st) = file_map st) as Hfm
    by (unfold started; destruct (start_time st); done).
  apply bind_inv in H as [(e & H & ->)|([] & s1 & Hp & H)].
  - left. exists e. split; [done|]. right. exists t. split; [done|].
    unfold print_file in H. destruct (files (started t st) !! h) as [f|].
    + destruct (fclosed f); [by injection H as <- <-|].
      destruct (write_ok _ _); [done|]. by injection H as <- <-.
    + by injection H as <- <-.
  - right. unfold print_file in Hp. rewrite Hfiles in Hp.
    destruct (files st !! h) as [f|] eqn:Hf; [|done].
    destruct (fclosed f) eqn:Hc; [done|]. destruct (write_ok _ _); [|done].
    injection Hp as <-. exists h, f, t, s, rel, flat.
    repeat (split; [done|]).
    apply bind_inv in H as [(e & [=] & _)|([] & s1 & [= <-] & H)].
    injection H as <- <-. unfold row_written, reported. by rewrite Hfiles.
Qed.

Lemma loop_body_spec type_map output_path topic data timestamp st r st' :
  loop_body type_map output_path (topic, data, timestamp) st = (r, st') ->
  ((topic ∈ SKIP_TOPICS) /\ r = Ok tt /\ st' = st) \/
  ((topic ∉ SKIP_TOPICS) /\
   ((exists e, decode_message type_map topic data = Raise e /\ r = Raise e /\ st' = st) \/
    (exists msg, decode_message type_map topic data = Ok msg /\
       ((exists e, ensure_file output_path topic msg st = (Raise e, st') /\ r = Raise e) \/
        (exists st1, ensure_file output_path topic msg st = (Ok tt, st1) /\
           write_row topic msg timestamp st1 = (r, st')))))).
Proof.
  unfold loop_body. destruct (decide (topic ∈ SKIP_TOPICS)) as [Hs|Hs].
  { intros [= <- <-]. by left. }
  intros H. right. split; [done|].
  apply bind_inv in H as [(e & [= H <-] & ->)|(msg & s1 & [= Hd <-] & H)].
  { left. eauto. }
  right. exists msg. split; [done|].
  apply bind_inv in H as [(e & H & ->)|([] & s1 & He & H)]; eauto.
Qed.

(** *** Invariants of the message loop *)

Lemma wf_init : wf_state init_state.
Proof. split; simpl; done. Qed.

Lemma wf_started t st : wf_state st -> wf_state (started t st).
Proof. unfold started. destruct (start_time st); [done|]. intros []. by split. Qed.

Lemma wf_opened output_path topic lines st :
  wf_state st -> wf_state (opened output_path topic lines st).
Proof.
  intros [H1 H2 H3 H4]. split; simpl; try done.
  - intros t h Hg. rewrite length_app. simpl. apply H1 in Hg. lia.
  - intros h f Hl. apply lookup_app_Some in Hl as [Hl|[_ Hl]]; [eauto|].
    destruct (h - length (files st)) as [|n]; simpl in Hl; [|by rewrite lookup_nil in Hl].
    by injection Hl as <-.
Qed.

Lemma wf_ensure_file output_path topic msg st r st1 :
  topic ∉ SKIP_TOPICS -> wf_state st ->
  ensure_file output_path topic msg st = (r, st1) -> wf_state st1.
Proof.
  intros Hs Hwf H. apply ensure_file_spec in H
    as [(h & _ & _ & ->)|(Hnone & [(e & _ & ->)|[(e & _ & ->)|(flat & _ & _ & ->)]])];
    try done; try by apply wf_opened.
  pose proof (wf_opened output_path topic [header_line flat] st Hwf) as [H1 H2 H3 H4].
  destruct Hwf as [H1' _ _ _].
  split; simpl in *; try done.
  - intros t h. rewrite dict_get_set. case_decide; [|by apply H1].
    intros [= <-]. rewrite length_app. simpl. lia.
  - intros t1 t2 h. rewrite !dict_get_set. repeat case_decide; subst; try done.
    + intros [= <-] Hg. apply H1' in Hg. lia.
    + intros Hg [= <-]. apply H1' in Hg. lia.
    + apply H2.
  - intros t Ht. rewrite dict_get_set. case_decide; [by subst|by apply H4].
Qed.

Lemma wf_row_written h f rel flat st :
  files st !! h = Some f -> wf_state st -> wf_state (row_written h f rel flat st).
Proof.
  intros Hf [H1 H2 H3 H4]. unfold row_written, reported.
  split; case_decide; simpl; try done.
  all: try (intros t h' Hg; rewrite length_insert; by eapply H1).
  all: intros h' f' Hl; destruct (decide (h = h')) as [<-|Hne];
    [ rewrite list_lookup_insert_eq in Hl by (by eapply lookup_lt_Some);
      by injection Hl as <-
    | rewrite list_lookup_insert_ne in Hl by done; eauto ].
Qed.

Lemma wf_write_row topic msg timestamp st r st' :
  wf_state st -> write_row topic msg timestamp st = (r, st') -> wf_state st'.
Proof.
  intros Hwf H. apply write_row_spec in H
    as [(e & _ & [->|(t & _ & ->)])|(h & f & t & s & rel & flat & _ & _ & Hf & _ & _ & _ & _ & _ & ->)];
    try done; try by apply wf_started.
  apply wf_row_written; [|by apply wf_started].
  unfold started. by destruct (start_time st).
Qed.

Lemma wf_loop_body type_map output_path m st r st' :
  wf_state st -> loop_body type_map output_path m st = (r, st') -> wf_state st'.
Proof.
  destruct m as [[topic data] timestamp]. intros Hwf H.
  apply loop_body_spec in H
    as [(_ & _ & ->)|(Hs & [(e & _ & _ & ->)|(msg & _ & [(e & H & _)|(st1 & H & H')])])];
    try done.
  - by eapply wf_ensure_file.
  - eapply wf_write_row; [|done]. by eapply wf_ensure_file.
Qed.

(** An invariant of the loop body holds after the loop, however it ends. *)
Lemma dump_loop_inv (P : state -> Prop) type_map output_path msgs :
  (forall m st r st', In m msgs -> P st ->
     loop_body type_map output_path m st = (r, st') -> P st') ->
  forall st r st', P st -> dump_loop type_map output_path msgs st = (r, st') -> P st'.
Proof.
  induction msgs as [|m msgs IH]; intros Hstep st r st' HP H; simpl in H.
  - by injection H as <- <-.
  - apply bind_inv in H as [(e & H & _)|([] & s1 & H1 & H)].
    + eapply Hstep; [by left|done..].
    + eapply IH; [|eapply Hstep; [by left|done..]|done].
      intros m' st0 r0 st0' Hin. apply Hstep. by right.
Qed.

(** An invariant of the successful iterations holds when the loop completes. *)
Lemma dump_loop_inv_ok (P : state -> Prop) type_map output_path msgs :
  (forall m st st', In m msgs -> P st ->
     loop_body type_map output_path m st = (Ok tt, st') -> P st') ->
  forall st st', P st -> dump_loop type_map output_path msgs st = (Ok tt, st') -> P st'.
Proof.
  induction msgs as [|m msgs IH]; intros Hstep st st' HP H; simpl in H.
  - by injection H as <-.
  - apply bind_inv in H as [(e & H & [=])|([] & s1 & H1 & H)].
    eapply IH; [|eapply Hstep; [by left|done..]|done].
    intros m' st0 st0' Hin. apply Hstep. by right.
Qed.

Lemma wf_dump_loop type_map output_path msgs st r st' :
  wf_state st -> dump_loop type_map output_path msgs st = (r, st') -> wf_state st'.
Proof.
  apply (dump_loop_inv wf_state). intros m st0 r0 st0' _. apply wf_loop_body.
Qed.

Lemma tracked_loop_body type_map output_path m st st' :
  tracked st -> loop_body type_map output_path m st = (Ok tt, st') -> tracked st'.
Proof.
  destruct m as [[topic data] timestamp]. intros Htr H.
  apply loop_body_spec in H
    as [(_ & _ & ->)|(Hs & [(e & _ & [=] & _)|(msg & _ & [(e & _ & [=])|(st1 & H & H')])])];
    [done|].
  assert (tracked st1) as Htr1.
  { apply ensure_file_spec in H
      as [(h & _ & _ & ->)|(Hnone & [(e & [=] & _)|[(e & [=] & _)|(flat & _ & _ & ->)]])];
      [done|].
    intros h. simpl. rewrite length_app. simpl. intros Hh.
    destruct (decide (h = length (files st))) as [->|Hne].
    - exists topic. rewrite dict_get_set. by case_decide.
    - destruct (Htr h) as [t Ht]; [lia|]. exists t. rewrite dict_get_set.
      case_decide; [congruence|done]. }
  apply write_row_spec in H'
    as [(e & [=] & _)|(h & f & t & s & rel & flat & _ & _ & _ & _ & _ & _ & _ & _ & ->)].
  assert (tracked (started t st1)) as Htr2
    by (unfold started; destruct (start_time st1); done).
  unfold row_written, reported. intros h'. case_decide; simpl; rewrite length_insert; apply Htr2.
Qed.

(** *** Closing the files *)

Lemma close_file_spec h st r st' :
  close_file h st = (r, st') ->
  st' = set_files (match files st !! h with
                   | Some f => <[h := closed_file f]> (files st)
                   | None => files st
                   end) st.
Proof.
  unfold close_file. destruct (files st !! h) as [f|].
  - destruct (fclosed f || close_ok f); by intros [= <- <-].
  - intros [= <- <-]. by destruct st.
Qed.

Lemma close_each_closes hs st st' :
  close_each hs st = (Ok tt, st') ->
  length (files st') = length (files st) /\
  forall h f', files st' !! h = Some f' ->
    (In h hs -> fclosed f' = true) /\
    (forall f, files st !! h = Some f -> fclosed f = true -> fclosed f' = true).
Proof.
  revert st. induction hs as [|h0 hs IH]; intros st H; simpl in H.
  - injection H as <-. split; [done|]. intros h f' Hf. split; [done|].
    intros f Hf'. congruence.
  - apply bind_inv in H as [(e & _ & [=])|([] & s1 & H1 & H)].
    apply close_file_spec in H1. apply IH in H as [Hlen Hcl].
    assert (length (files s1) = length (files st)) as Hlen1.
    { subst s1. simpl. destruct (files st !! h0); [by rewrite length_insert|done]. }
    split; [congruence|]. intros h f' Hf'. destruct (Hcl h f' Hf') as [Hin Hkeep].
    assert (forall f, files st !! h = Some f -> (h = h0 \/ fclosed f = true) ->
              exists f1, files s1 !! h = Some f1 /\ fclosed f1 = true) as Hs1.
    { intros f Hf Hor. subst s1. simpl. destruct (decide (h = h0)) as [->|Hne].
      - rewrite Hf. rewrite list_lookup_insert_eq by (by eapply lookup_lt_Some). eauto.
      - destruct Hor as [|Hc]; [done|]. exists f. split; [|done].
        destruct (files st !! h0); [by rewrite list_lookup_insert_ne|done]. }
    assert (exists f, files st !! h = Some f) as [f Hf].
    { apply lookup_lt_is_Some. rewrite <- Hlen1, <- Hlen. by eapply lookup_lt_Some. }
    split.
    + intros [<-|Hh]; [|auto]. destruct (Hs1 f Hf) as (f1 & Hf1 & Hc1); eauto.
    + intros f0 Hf0 Hc. destruct (Hs1 f0 Hf0) as (f1 & Hf1 & Hc1); eauto.
Qed.

(** *** The whole pass *)

Lemma dump_bag_spec bag_path output_path r st :
  dump_bag bag_path output_path init_state = (r, st) ->
  (exists e, open_reader bag_path = Raise e /\ r = Raise e /\ st = init_state) \/
  (exists b, open_reader bag_path = Ok b /\
     ((makedirs_ok output_path = false /\ r = Raise OSError /\ st = init_state) \/
      (makedirs_ok output_path = true /\
       exists r1 st1,
         dump_loop (make_type_map (topics_and_types b)) output_path (messages b)
                   init_state = (r1, st1) /\
         ((exists e, r1 = Raise e /\ r = Raise e /\ st = st1) \/
          (r1 = Ok tt /\
           exists r2, close_each (dict_values (file_map st1)) st1 = (r2, st) /\
             ((exists e, r2 = Raise e /\ r = Raise e) \/
              (r2 = Ok tt /\ r = Ok (length (file_map st))))))))).
Proof.
  unfold dump_bag. intros H.
  apply bind_inv in H as [(e & [= H <-] & ->)|(b & s1 & [= Hb <-] & H)]; [left; eauto|].
  right. exists b. split; [done|].
  apply bind_inv in H as [(e & [=] & _)|([] & s1 & [= <-] & H)].
  change (State (files init_state) [] None 0 (console init_state)) with init_state in H.
  apply bind_inv in H as [(e & [= H <-] & ->)|([] & s1 & [= Hm <-] & H)].
  { left. destruct (makedirs_ok output_path); [done|]. by injection H as <-. }
  right. destruct (makedirs_ok output_path); [|done]. split; [done|].
  apply bind_inv in H as [(e & H & ->)|([] & s1 & Hl & H)].
  { eexists _, _. split; [exact H|]. left. eauto. }
  eexists _, _. split; [exact Hl|]. right. split; [done|].
  apply bind_inv in H as [(e & [=] & _)|(a & s2 & [= <- <-] & H)].
  apply bind_inv in H as [(e & H & ->)|([] & s2 & Hc & H)].
  { eexists. split; [exact H|]. left. eauto. }
  apply bind_inv in H as [(e & [=] & _)|(a & s3 & [= <- <-] & H)].
  injection H as <- <-. eexists. split; [exact Hc|]. right. done.
Qed.

Lemma processed_cons topic data ts msgs :
  processed ((topic, data, ts) :: msgs) =
  if decide (topic ∈ SKIP_TOPICS) then processed msgs
  else (topic, data, ts) :: processed msgs.
Proof.
  unfold processed. simpl. case_bool_decide; case_decide; done.
Qed.

Lemma dump_loop_processed type_map output_path msgs st :
  dump_loop type_map output_path msgs st =
  dump_loop type_map output_path (processed msgs) st.
Proof.
  revert st. induction msgs as [|[[topic data] ts] msgs IH]; intros st; [done|].
  rewrite processed_cons.
  change (dump_loop type_map output_path ((topic, data, ts) :: msgs) st)
    with ((loop_body type_map output_path (topic, data, ts);;
           dump_loop type_map output_path msgs) st).
  destruct (decide (topic ∈ SKIP_TOPICS)) as [Hs|Hs].
  - unfold mbind, stateM_bind, loop_body. destruct (decide (topic ∈ SKIP_TOPICS)); [|done].
    apply IH.
  - change (dump_loop type_map output_path ((topic, data, ts) :: processed msgs) st)
      with ((loop_body type_map output_path (topic, data, ts);;
             dump_loop type_map output_path (processed msgs)) st).
    unfold mbind, stateM_bind.
    destruct (loop_body type_map output_path (topic, data, ts) st) as [[[]|e] s1];
      [apply IH|done].
Qed.

Lemma named_loop_body type_map output_path m st r st' :
  named output_path st -> loop_body type_map output_path m st = (r, st') ->
  named output_path st'.
Proof.
  destruct m as [[topic data] timestamp]. intros Hn H.
  assert (forall lines, named output_path (opened output_path topic lines st) \/ (topic ∈ SKIP_TOPICS)) as Hop.
  { intros lines. destruct (decide (topic ∈ SKIP_TOPICS)) as [|Hs]; [by right|left].
    intros h f. simpl. intros Hl. apply lookup_app_Some in Hl as [Hl|[_ Hl]]; [eauto|].
    destruct (h - length (files st)) as [|n]; simpl in Hl; [|by rewrite lookup_nil in Hl].
    injection Hl as <-. eauto. }
  apply loop_body_spec in H
    as [(_ & _ & ->)|(Hs & [(e & _ & _ & ->)|(msg & _ & [(e & H & _)|(st1 & H & H')])])];
    try done.
  - apply ensure_file_spec in H
      as [(h & _ & [=] & _)|(Hnone & [(e' & _ & ->)|[(e' & _ & ->)|(flat & _ & [=] & _)]])];
      try done.
    by destruct (Hop []).
  - assert (named output_path st1) as Hn1.
    { apply ensure_file_spec in H
        as [(h & _ & _ & ->)|(Hnone & [(e & _ & ->)|[(e & _ & ->)|(flat & _ & _ & ->)]])];
        try done.
      + by destruct (Hop []).
      + by destruct (Hop [header_line flat]). }
    assert (forall t, named output_path (started t st1)) as Hn2
      by (intros t; unfold started; destruct (start_time st1); done).
    apply write_row_spec in H'
      as [(e & _ & [->|(t & _ & ->)])|(h & f & t & s & rel & flat & _ & _ & Hf & _ & _ & _ & _ & _ & ->)];
      try done.
    assert (files (started t st1) = files st1) as Hfiles
      by (unfold started; destruct (start_time st1); done).
    intros h' f'. unfold row_written, reported. case_decide; simpl; intros Hl.
    all: destruct (decide (h = h')) as [<-|Hne];
      [ rewrite list_lookup_insert_eq in Hl by (rewrite Hfiles; by eapply lookup_lt_Some);
        injection Hl as <-; simpl; by eapply Hn1
      | rewrite list_lookup_insert_ne in Hl by done; by eapply Hn2 ].
Qed.

(** *** Where the lines of a file come from *)

Section Provenance.
Variable type_map : gmap string string.
Variable output_path : string.
Variable msgs : list (string * list byte * Z).





End Provenance.

Lemma from_bag_incl type_map (ms msgs : list (string * list byte * Z)) topic msg ts :
  (forall m, In m ms -> In m msgs) ->
  from_bag type_map ms topic msg ts -> from_bag type_map msgs topic msg ts.
Proof. intros Hincl (data & Hin & Hd). exists data. auto. Qed.


(** *** The start time *)

Lemma start_time_started t st :
  start_time (started t st) = Some (default t (start_time st)).
Proof. unfold started. destruct (start_time st) eqn:Hs; simpl; [by rewrite Hs|done]. Qed.

Lemma start_time_row_written h f rel flat st :
  start_time (row_written h f rel flat st) = start_time st.
Proof. unfold row_written, reported. by case_decide. Qed.

Lemma start_time_ensure_file output_path topic msg st r st1 :
  ensure_file output_path topic msg st = (r, st1) -> start_time st1 = start_time st.
Proof.
  intros H. apply ensure_file_spec in H
    as [(h & _ & _ & ->)|(Hnone & [(e & _ & ->)|[(e & _ & ->)|(flat & _ & _ & ->)]])];
    done.
Qed.

(** What one iteration does to [start_time]. *)
Lemma start_time_loop_body type_map output_path topic data timestamp st r st' :
  loop_body type_map output_path (topic, data, timestamp) st = (r, st') ->
  (start_time st' = start_time st /\ (r = Ok tt -> (topic ∈ SKIP_TOPICS) \/ is_Some (start_time st))) \/
  (start_time st = None /\ (topic ∉ SKIP_TOPICS) /\
   exists msg t, decode_message type_map topic data = Ok msg /\
                 resolve_time msg timestamp = Ok t /\ start_time st' = Some t).
Proof.
  intros H. apply loop_body_spec in H
    as [(Hs & _ & ->)|(Hs & [(e & _ & -> & ->)|(msg & Hd & [(e & H & ->)|(st1 & H & H')])])].
  - left. auto.
  - left. done.
  - left. split; [by eapply start_time_ensure_file|done].
  - apply start_time_ensure_file in H.
    assert (forall t, resolve_time msg timestamp = Ok t ->
              start_time st' = Some (default t (start_time st)) ->
              (start_time st' = start_time st /\ is_Some (start_time st)) \/
              (start_time st = None /\ (topic ∉ SKIP_TOPICS) /\
               exists msg t, decode_message type_map topic data = Ok msg /\
                 resolve_time msg timestamp = Ok t /\ start_time st' = Some t)) as Hcase.
    { intros t Ht Hst. destruct (start_time st) as [s|] eqn:Hs0; simpl in Hst.
      - left. eauto.
      - right. repeat (split; [done|]). eauto. }
    apply write_row_spec in H'
      as [(e & -> & [->|(t & Ht & ->)])
         |(h & f & t & s & rel & flat & _ & _ & _ & _ & Ht & _ & _ & _ & ->)].
    + left. by rewrite H.
    + destruct (Hcase t Ht) as [[? ?]|?]; [by rewrite start_time_started, H|left|right]; done.
    + destruct (Hcase t Ht) as [[? ?]|?];
        [by rewrite start_time_row_written, start_time_started, H|left|right]; auto.
Qed.

Lemma start_time_stable type_map output_path msgs s st r st' :
  start_time st = Some s ->
  dump_loop type_map output_path msgs st = (r, st') -> start_time st' = Some s.
Proof.
  apply (dump_loop_inv (fun st => start_time st = Some s)).
  intros [[topic data] ts] st0 r0 st0' _ Hs H.
  apply start_time_loop_body in H as [[-> _]|[Hn _]]; [done|congruence].
Qed.

Lemma start_time_dump_loop type_map output_path msgs st r st' :
  start_time st = None ->
  dump_loop type_map output_path msgs st = (r, st') ->
  (forall s, start_time st' = Some s ->
     exists topic timestamp msg, first_processed type_map msgs topic timestamp msg s) /\
  (r = Ok tt -> processed msgs <> [] -> is_Some (start_time st')).
Proof.
  revert st. induction msgs as [|[[topic data] ts] msgs IH]; intros st Hnone H.
  { simpl in H. injection H as <- <-. split; [|done]. intros s. by rewrite Hnone. }
  change (dump_loop type_map output_path ((topic, data, ts) :: msgs) st)
    with ((loop_body type_map output_path (topic, data, ts);;
           dump_loop type_map output_path msgs) st) in H.
  unfold first_processed. rewrite processed_cons.
  apply bind_inv in H as [(e & H & ->)|([] & s1 & H1 & H)].
  - apply start_time_loop_body in H as [[Hst _]|(_ & Hs & msg & t & Hd & Ht & Hst)].
    + split; [|done]. intros s. by rewrite Hst, Hnone.
    + split; [|done]. intros s. rewrite Hst. intros [= <-].
      destruct (decide (topic ∈ SKIP_TOPICS)); [done|]. eauto 10.
  - pose proof H1 as H1'.
    apply start_time_loop_body in H1' as [[Hst Hok]|(_ & Hs & msg & t & Hd & Ht & Hst)].
    + destruct (Hok eq_refl) as [Hs|Hs]; [|rewrite Hnone in Hs; by destruct Hs].
      destruct (decide (topic ∈ SKIP_TOPICS)); [|done].
      apply IH in H; [done|]. by rewrite Hst.
    + destruct (decide (topic ∈ SKIP_TOPICS)); [done|].
      rewrite (start_time_stable _ _ _ _ _ _ _ Hst H). split.
      * intros s [= <-]. eauto 10.
      * eauto.
Qed.

(** *** Files only grow *)

Lemma extends_refl st : extends st st.
Proof. split; [done|]. intros h f Hf. exists f. done. Qed.

Lemma extends_trans st1 st2 st3 : extends st1 st2 -> extends st2 st3 -> extends st1 st3.
Proof.
  intros [H1 H2] [H3 H4]. split; [auto|].
  intros h f Hf. destruct (H2 h f Hf) as (f2 & Hf2 & Hn2 & Hp2).
  destruct (H4 h f2 Hf2) as (f3 & Hf3 & Hn3 & Hp3).
  exists f3. split; [done|]. split; [congruence|]. by etrans.
Qed.

Lemma extends_opened output_path topic lines st : extends st (opened output_path topic lines st).
Proof.
  split; [done|]. intros h f Hf. exists f. simpl.
  rewrite lookup_app_l by (by eapply lookup_lt_Some). done.
Qed.

Lemma extends_started t st : extends st (started t st).
Proof.
  unfold started. destruct (start_time st); [apply extends_refl|].
  split; [done|]. intros h f Hf. by exists f.
Qed.

Lemma extends_row_written h f rel flat st :
  files st !! h = Some f -> extends st (row_written h f rel flat st).
Proof.
  intros Hf. assert (file_map (row_written h f rel flat st) = file_map st) as Hfm
    by (unfold row_written, reported; case_decide; done).
  assert (files (row_written h f rel flat st) =
          <[h := File_ (fname f) (flines f ++ [row_line rel flat]) false]> (files st)) as Hfl
    by (unfold row_written, reported; case_decide; done).
  split; [by rewrite Hfm|]. rewrite Hfl. intros h' f' Hf'.
  destruct (decide (h = h')) as [<-|Hne].
  - rewrite list_lookup_insert_eq by (by eapply lookup_lt_Some).
    eexists. split; [done|]. simpl. replace f' with f by congruence.
    split; [done|]. by apply prefix_app_r.
  - rewrite list_lookup_insert_ne by done. exists f'. done.
Qed.

Lemma extends_ensure_file output_path topic msg st r st1 :
  ensure_file output_path topic msg st = (r, st1) -> extends st st1.
Proof.
  intros H. apply ensure_file_spec in H
    as [(h & _ & _ & ->)|(Hnone & [(e & _ & ->)|[(e & _ & ->)|(flat & _ & _ & ->)]])];
    try apply extends_refl; try apply extends_opened.
  split.
  - intros t h Hg. simpl. rewrite dict_get_set. case_decide; [congruence|done].
  - apply extends_opened.
Qed.

Lemma extends_write_row topic msg timestamp st r st' :
  write_row topic msg timestamp st = (r, st') -> extends st st'.
Proof.
  intros H. apply write_row_spec in H
    as [(e & _ & [->|(t & _ & ->)])
       |(h & f & t & s & rel & flat & _ & _ & Hf & _ & _ & _ & _ & _ & ->)].
  - apply extends_refl.
  - apply extends_started.
  - eapply extends_trans; [apply (extends_started t)|].
    apply extends_row_written. unfold started. by destruct (start_time st).
Qed.

Lemma extends_loop_body type_map output_path m st r st' :
  loop_body type_map output_path m st = (r, st') -> extends st st'.
Proof.
  destruct m as [[topic data] timestamp]. intros H.
  apply loop_body_spec in H
    as [(_ & _ & ->)|(Hs & [(e & _ & _ & ->)|(msg & _ & [(e & H & _)|(st1 & H & H')])])];
    try apply extends_refl.
  - by eapply extends_ensure_file.
  - eapply extends_trans; [by eapply extends_ensure_file|by eapply extends_write_row].
Qed.

Lemma extends_dump_loop type_map output_path msgs st r st' :
  dump_loop type_map output_path msgs st = (r, st') -> extends st st'.
Proof.
  apply (dump_loop_inv (extends st)); [|apply extends_refl].
  intros m st0 r0 st0' _ He H. eapply extends_trans; [done|]. by eapply extends_loop_body.
Qed.

(** *** Rows and header *)





(** *** The first message processed *)

Lemma file_map_write_row topic msg timestamp st r st' :
  write_row topic msg timestamp st = (r, st') -> file_map st' = file_map st.
Proof.
  intros H. apply write_row_spec in H
    as [(e & _ & [->|(t & _ & ->)])
       |(h & f & t & s & rel & flat & _ & _ & _ & _ & _ & _ & _ & _ & ->)]; [done|..].
  - unfold started. by destruct (start_time st).
  - unfold row_written, reported, started. case_decide; by destruct (start_time st).
Qed.

(** An iteration that completes on a topic leaves the topic in [file_map]. *)
Lemma loop_body_registers type_map output_path topic data timestamp st st' :
  loop_body type_map output_path (topic, data, timestamp) st = (Ok tt, st') ->
  (topic ∈ SKIP_TOPICS) \/ is_Some (dict_get (file_map st') topic).
Proof.
  intros H. apply loop_body_spec in H
    as [(Hs & _)|(Hs & [(e & _ & [=] & _)|(msg & _ & [(e & _ & [=])|(st1 & H & H')])])];
    [by left|right].
  rewrite (file_map_write_row _ _ _ _ _ _ H').
  apply write_row_spec in H'
    as [(e & [=] & _)|(h & f & t & s & rel & flat & _ & Hg & _)]. eauto.
Qed.


End DumpSteps.

Section DumpClaims.
Context `{rt : Runtime}.

Lemma tracked_dump_loop type_map output_path msgs st' :
  dump_loop type_map output_path msgs init_state = (Ok tt, st') -> tracked st'.
Proof.
  apply (dump_loop_inv_ok tracked).
  - intros m st0 st0' _. apply tracked_loop_body.
  - intros h. simpl. lia.
Qed.

Lemma close_each_preserves hs st r st' :
  close_each hs st = (r, st') ->
  file_map st' = file_map st /\
  forall h f', files st' !! h = Some f' ->
    exists f, files st !! h = Some f /\ fname f' = fname f /\ flines f' = flines f.
Proof.
  revert st. induction hs as [|h0 hs IH]; intros st H; simpl in H.
  - injection H as <- <-. split; [done|]. intros h f' Hf. by exists f'.
  - assert (forall r1 s1, close_file h0 st = (r1, s1) ->
              file_map s1 = file_map st /\
              forall h f', files s1 !! h = Some f' ->
                exists f, files st !! h = Some f /\ fname f' = fname f /\ flines f' = flines f)
      as Hone.
    { intros r1 s1 H1. apply close_file_spec in H1. subst s1. split; [done|].
      intros h f'. simpl. destruct (files st !! h0) as [f0|] eqn:Hf0; [|by exists f'].
      destruct (decide (h0 = h)) as [->|Hne].
      - rewrite list_lookup_insert_eq by (by eapply lookup_lt_Some).
        intros [= <-]. by exists f0.
      - rewrite list_lookup_insert_ne by done. by exists f'. }
    apply bind_inv in H as [(e & H & _)|([] & s1 & H1 & H)]; [by eapply Hone|].
    apply Hone in H1 as [Hfm1 Hf1]. apply IH in H as [Hfm Hf].
    split; [congruence|]. intros h f' Hl.
    destruct (Hf h f' Hl) as (f1 & Hl1 & Hn1 & Hln1).
    destruct (Hf1 h f1 Hl1) as (f & Hl0 & Hn & Hln).
    exists f. split; [done|]. split; congruence.
Qed.

(** C1, as amended: when a pass runs to completion every file it
    opened is closed; when the message loop is aborted by an error the
    error propagates out of [dump_bag] and every file opened so far is
    left open. *)
Theorem dump_bag_closes_files_on_completion (bag_path output_path : string) :
  (forall n st, dump_bag bag_path output_path init_state = (Ok n, st) ->
     forall f, In f (files st) -> fclosed f = true) /\
  (forall b e st, open_reader bag_path = Ok b -> makedirs_ok output_path = true ->
     dump_loop (make_type_map (topics_and_types b)) output_path (messages b)
               init_state = (Raise e, st) ->
     dump_bag bag_path output_path init_state = (Raise e, st) /\
     forall f, In f (files st) -> fclosed f = false).
Proof.
  split.
  - intros n st H f Hin.
    apply dump_bag_spec in H as [(e & _ & [=] & _)|(b & _ & [(_ & [=] & _)|(_ & r1 & st1 & Hl & H)])].
    destruct H as [(e & _ & [=] & _)|(-> & r2 & Hc & [(e & _ & [=])|(-> & _)])].
    apply tracked_dump_loop in Hl. apply close_each_closes in Hc as [Hlen Hc].
    apply list_elem_of_In, list_elem_of_lookup in Hin as [h Hf].
    destruct (Hl h) as [topic Hg]; [rewrite <- Hlen; by eapply lookup_lt_Some|].
    apply (Hc h f Hf). by eapply dict_get_values.
  - intros b e st Hb Hm Hl. split.
    + destruct (dump_bag bag_path output_path init_state) as [r0 st0] eqn:H.
      apply dump_bag_spec in H as [(e' & He & _)|(b' & Hb' & [(He & _)|(_ & r1 & st1 & Hl' & H)])];
        try congruence.
      rewrite Hb in Hb'. injection Hb' as <-. rewrite Hl in Hl'. injection Hl' as <- <-.
      destruct H as [(e' & [= <-] & -> & ->)|([=] & _)]. done.
    + intros f Hin. apply wf_dump_loop in Hl; [|apply wf_init].
      apply list_elem_of_In, list_elem_of_lookup in Hin as [h Hf]. by eapply wf_open.
Qed.

(** What a pass leaves behind, however it ends. *)
Lemma dump_bag_files bag_path output_path r st :
  dump_bag bag_path output_path init_state = (r, st) ->
  (forall topic, topic ∈ SKIP_TOPICS -> dict_get (file_map st) topic = None) /\
  named output_path st /\
  (forall n, r = Ok n -> n = length (file_map st)).
Proof.
  intros H. apply dump_bag_spec in H
    as [(e & _ & -> & ->)|(b & _ & [(_ & -> & ->)|(_ & r1 & st1 & Hl & H)])].
  - split; [done|]. split; [|done]. intros h f. done.
  - split; [done|]. split; [|done]. intros h f. done.
  - assert (wf_state st1) as Hwf1 by (eapply wf_dump_loop; [apply wf_init|done]).
    assert (named output_path st1) as Hn1.
    { revert Hl. apply (dump_loop_inv (named output_path)).
      - intros m st0 r0 st0' _. apply named_loop_body.
      - intros h f. done. }
    destruct H as [(e & _ & -> & ->)|(-> & r2 & Hc & Hr)].
    { split; [apply Hwf1|]. done. }
    apply close_each_preserves in Hc as [Hfm Hf]. split; [|split].
    + rewrite Hfm. apply Hwf1.
    + intros h f' Hl'. destruct (Hf h f' Hl') as (f & Hl0 & -> & _). by eapply Hn1.
    + intros n ->. by destruct Hr as [(e & _ & [=])|(_ & [= ->])].
Qed.

(** C8: no topic of the skip set is ever a key of [file_map], every
    file object is opened for a topic outside the skip set, the count
    returned is the number of keys of [file_map], and the messages on
    skipped topics have no effect at all on the pass. *)
Theorem skip_topics_produce_nothing (bag_path output_path : string) r st :
  dump_bag bag_path output_path init_state = (r, st) ->
  (forall topic, topic ∈ SKIP_TOPICS -> dict_get (file_map st) topic = None) /\
  (forall h f, files st !! h = Some f ->
     exists topic, (topic ∉ SKIP_TOPICS) /\ fname f = csv_filename output_path topic) /\
  (forall n, r = Ok n -> n = length (file_map st)) /\
  (forall type_map msgs st0,
     dump_loop type_map output_path msgs st0 =
     dump_loop type_map output_path (processed msgs) st0).
Proof.
  intros H. apply dump_bag_files in H as (Hskip & Hn & Hcount).
  split; [done|]. split; [done|]. split; [done|].
  intros type_map msgs st0. apply dump_loop_processed.
Qed.



End DumpClaims.


(** ** Directory orchestrator *)

Lemma lookup_entry_update es name n name' :
  lookup_entry (update_entry es name n) name' =
  match lookup_entry es name with
  | Some _ => if String.eqb name name' then Some n else lookup_entry es name'
  | None => lookup_entry es name'
  end.
Proof.
  induction es as [|[k v] es IH]; simpl; [done|].
  destruct (String.eqb_spec k name) as [->|Hne]; simpl.
  - destruct (String.eqb_spec name name'); done.
  - rewrite IH. destruct (String.eqb_spec k name') as [->|Hne'].
    + destruct (lookup_entry es name); [|done].
      destruct (String.eqb_spec name name'); congruence.
    + done.
Qed.

Lemma update_entry_id es name n :
  lookup_entry es name = Some n -> update_entry es name n = es.
Proof.
  induction es as [|[k v] es IH]; simpl; [done|].
  destruct (String.eqb_spec k name) as [->|Hne]; [by intros [= ->]|].
  intros H. by rewrite IH.
Qed.

Lemma lookup_entry_app es es' name :
  lookup_entry (es ++ es') name =
  match lookup_entry es name with
  | Some n => Some n
  | None => lookup_entry es' name
  end.
Proof.
  induction es as [|[k v] es IH]; simpl; [done|]. by destruct (String.eqb k name).
Qed.

(** [mkdir(exist_ok=True)] of a child of an existing directory. *)
Lemma mkdir_child fs p name es :
  resolve fs p = Some (NDir es) ->
  match lookup_entry es name with
  | Some (NDir _) => mkdir_exist_ok fs (p ++ [name]) = Ok fs
  | Some NFile => mkdir_exist_ok fs (p ++ [name]) = Raise FileExistsError
  | None =>
      exists fs', mkdir_exist_ok fs (p ++ [name]) = Ok fs' /\
        resolve fs' (p ++ [name]) = Some (NDir []) /\
        forall name' q, name' <> name ->
          resolve fs' (p ++ name' :: q) = resolve fs (p ++ name' :: q)
  end.
Proof.
  revert fs. induction p as [|c p IH]; intros fs Hr; simpl in *.
  - injection Hr as ->. destruct (lookup_entry es name) as [[|es']|] eqn:Hl; simpl; try done.
    { by rewrite update_entry_id. }
    eexists. split; [done|]. simpl. rewrite lookup_entry_app, Hl. simpl.
    rewrite String.eqb_refl. split; [done|]. intros name' q Hne.
    rewrite lookup_entry_app. simpl. destruct (lookup_entry es name'); [done|].
    destruct (String.eqb_spec name name'); congruence.
  - destruct fs as [|es0]; [done|].
    destruct (lookup_entry es0 c) as [child|] eqn:Hc; [|done].
    specialize (IH child Hr). destruct (lookup_entry es name) as [[|es']|].
    + by rewrite IH.
    + rewrite IH. simpl. by rewrite update_entry_id.
    + destruct IH as (child' & -> & Hnew & Hsame). simpl. eexists. split; [done|].
      simpl. rewrite lookup_entry_update, Hc, String.eqb_refl. split; [done|].
      intros name' q Hne. apply Hsame. done.
Qed.

(** The walk depends on the pruning test only below its root. *)
Lemma os_walk_ext clear clear' n top :
  (forall q, top `prefix_of` q -> clear q = clear' q) ->
  os_walk clear n top = os_walk clear' n top.
Proof.
  revert top. induction n as [|es IH] using node_rect'; intros top Hext; simpl; [done|].
  f_equal. rewrite <- (Hext top) by done. destruct (clear top); [done|].
  induction es as [|[name child] es IHes]; [done|].
  apply Forall_cons in IH as [IHc IH]. simpl in IHc. f_equal; [|by apply IHes].
  destruct (is_NDir child); [|done]. apply IHc.
  intros q Hq. apply Hext. etrans; [|exact Hq]. by apply prefix_app_r.
Qed.

Lemma is_rosbag_dir_ext fs fs' p :
  (forall q, resolve fs' (p ++ q) = resolve fs (p ++ q)) ->
  is_rosbag_dir fs' p = is_rosbag_dir fs p.
Proof.
  intros H. unfold is_rosbag_dir, is_dir, path_exists, glob_db3.
  rewrite (H ["metadata.yaml"]). specialize (H []). rewrite !app_nil_r in H.
  by rewrite H.
Qed.

Lemma find_rosbags_ext fs fs' root :
  (forall q, resolve fs' (root ++ q) = resolve fs (root ++ q)) ->
  find_rosbags fs' root = find_rosbags fs root.
Proof.
  intros H. unfold find_rosbags.
  assert (forall p, root `prefix_of` p -> is_rosbag_dir fs' p = is_rosbag_dir fs p) as Hb.
  { intros p [k ->]. apply is_rosbag_dir_ext. intros q. rewrite <- !app_assoc. apply H. }
  pose proof (H []) as Hroot. rewrite !app_nil_r in Hroot. rewrite Hroot.
  destruct (resolve fs root) as [n|]; [|done].
  rewrite (os_walk_ext (is_rosbag_dir fs') (is_rosbag_dir fs) n root Hb).
  f_equal. apply filter_ext_in. intros p Hin. apply Hb.
  by apply os_walk_visited in Hin as [? _].
Qed.

Lemma find_rosbags_prefix fs root p :
  In p (find_rosbags fs root) -> root `prefix_of` p.
Proof.
  intros Hin. apply find_rosbags_In in Hin as (_ & n & _ & Hin).
  by apply os_walk_visited in Hin as [? _].
Qed.

Lemma relative_to_prefix root p :
  root `prefix_of` p -> relative_to p root = Ok (drop (length root) p).
Proof.
  intros [k ->]. induction root as [|c root IH]; simpl; [by destruct k|].
  by rewrite String.eqb_refl.
Qed.

Section OrchestratorClaims.
Context `{rt : Runtime}.

Lemma call_dump_bag_faithful bag_path output_path w r w' :
  call_dump_bag bag_path output_path w = (r, w') ->
  Forall call_faithful (dumps w) ->
  tree w' = tree w /\
  (exists c, dumps w' = dumps w ++ [c] /\
     call_args c = (path_str bag_path, path_str output_path) /\
     (forall n, r = Ok n -> call_result c = Ok n)) /\
  Forall call_faithful (dumps w').
Proof.
  unfold call_dump_bag. intros H Hall.
  destruct (dump_bag (path_str bag_path) (path_str output_path) init_state)
    as [r0 st0] eqn:Hd.
  injection H as -> <-. simpl. split; [done|]. split.
  - eexists. split; [done|]. split; [done|]. by intros n ->.
  - apply Forall_app. split; [done|]. constructor; [|constructor].
    split; [done|]. simpl. by apply dump_bag_files in Hd as (_ & ? & _).
Qed.

Lemma process_each_spec root_path csv_dir rosbags w r w' :
  Forall (fun bag => root_path `prefix_of` bag) rosbags ->
  Forall call_faithful (dumps w) ->
  process_each root_path csv_dir rosbags w = (r, w') ->
  tree w' = tree w /\
  Forall call_faithful (dumps w') /\
  exists k, k <= length rosbags /\
    map call_args (dumps w') =
    map call_args (dumps w) ++ take k (map (mirrored root_path csv_dir) rosbags) /\
    (r = Ok tt -> k = length rosbags).
Proof.
  intros Hall. revert w. induction Hall as [|bag rosbags Hpre Hall IH]; intros w Hf H; simpl in H.
  - injection H as <- <-. split; [done|]. split; [done|].
    exists 0. simpl. rewrite app_nil_r. done.
  - rewrite relative_to_prefix in H by done.
    apply bind_inv in H as [(e & [=] & _)|(rel & w0 & [= <- <-] & H)].
    apply bind_inv in H as [(e & H & ->)|([] & w1 & H1 & H)].
    + unfold process_single_bag in H.
      apply bind_inv in H as [(e' & [=] & _)|([] & w0 & [= <-] & H)].
      apply bind_inv in H as [(e' & H & _)|(n & w1 & H1 & [=])].
      apply call_dump_bag_faithful in H as (Ht & (c & Hd & Hc & _) & Hf'); [|done].
      split; [done|]. split; [done|]. exists 1. simpl. split; [lia|].
      rewrite Hd, map_app. simpl. rewrite take_0, Hc. done.
    + unfold process_single_bag in H1.
      apply bind_inv in H1 as [(e' & [=] & _)|([] & w0 & [= <-] & H1)].
      apply bind_inv in H1 as [(e' & _ & [=])|(n & w2 & H1 & [= <-])].
      apply call_dump_bag_faithful in H1 as (Ht1 & (c & Hd1 & Hc & _) & Hf1); [|done].
      apply IH in H as (Ht & Hf' & k & Hk & Hd & Hr); [|done].
      split; [simpl in *; congruence|]. split; [done|].
      exists (S k). split; [simpl; lia|]. split; [|by intros ->%Hr].
      rewrite Hd. simpl in *. rewrite Hd1, map_app. simpl. rewrite Hc.
      by rewrite <- app_assoc.
Qed.

Lemma process_structured_bags_spec input_root w0 r w :
  path_exists (tree w0) (input_root ++ ["ros2bag"]) = true ->
  Forall call_faithful (dumps w0) ->
  process_structured_bags input_root w0 = (r, w) ->
  Forall call_faithful (dumps w) /\
  ((exists e, mkdir_exist_ok (tree w0) (input_root ++ ["csv"]) = Raise e /\
      r = Raise e /\ w = w0) \/
   (exists fs', mkdir_exist_ok (tree w0) (input_root ++ ["csv"]) = Ok fs' /\
      tree w = fs' /\
      let rosbags := find_rosbags fs' (input_root ++ ["ros2bag"]) in
      exists k, k <= length rosbags /\
        map call_args (dumps w) =
        map call_args (dumps w0) ++
        take k (map (mirrored (input_root ++ ["ros2bag"]) (input_root ++ ["csv"])) rosbags) /\
        (r = Ok tt -> k = length rosbags /\ rosbags <> []))).
Proof.
  intros Hex Hf0 H. unfold process_structured_bags in H.
  apply bind_inv in H as [(e & [=] & _)|(w1 & w1' & [= <- <-] & H)].
  rewrite Hex in H. simpl in H.
  apply bind_inv in H as [(e & [=] & _)|([] & w1 & [= <-] & H)].
  apply bind_inv in H as [(e & H & ->)|([] & w1 & H1 & H)].
  { unfold mkdir in H.
    apply bind_inv in H as [(e' & [=] & _)|(w2 & w2' & [= <- <-] & H)].
    apply bind_inv in H as [(e' & [= H <-] & [= ->])|(t & w2 & _ & [=])].
    split; [done|]. left. eauto. }
  unfold mkdir in H1.
  apply bind_inv in H1 as [(e' & [=] & _)|(w2 & w2' & [= <- <-] & H1)].
  apply bind_inv in H1 as [(e' & _ & [=])|(fs' & w2 & [= Hmk <-] & [= <-])].
  apply bind_inv in H as [(e & [=] & _)|(w2 & w2' & [= <- <-] & H)].
  simpl in H.
  destruct (find_rosbags fs' (input_root ++ ["ros2bag"])) as [|bag bags] eqn:Hfind.
  { apply bind_inv in H as [(e & H & ->)|([] & w2 & H2 & _)].
    - apply bind_inv in H as [(e' & [=] & _)|([] & w2 & [= <-] & [= _ <-])].
      split; [done|]. right. exists fs'. split; [done|]. split; [done|]. rewrite Hfind.
      exists 0. simpl. rewrite app_nil_r. done.
    - apply bind_inv in H2 as [(e' & [=] & _)|([] & w3 & _ & [=])]. }
  apply bind_inv in H as [(e & [=] & _)|([] & w2 & [= <-] & H)].
  apply bind_inv in H as [(e & [=] & _)|([] & w2 & [= <-] & H)].
  assert (Forall (fun b => (input_root ++ ["ros2bag"]) `prefix_of` b) (bag :: bags)) as Hpre.
  { rewrite <- Hfind. apply List.Forall_forall. intros b. apply find_rosbags_prefix. }
  apply bind_inv in H as [(e & H & ->)|([] & w2 & H2 & [= <- <-])].
  - apply process_each_spec in H as (Ht & Hf & k & Hk & Hd & _); [|done..].
    split; [done|]. right. exists fs'. split; [done|]. split; [done|]. rewrite Hfind. exists k. done.
  - apply process_each_spec in H2 as (Ht & Hf & k & Hk & Hd & Hr); [|done..].
    split; [done|]. right. exists fs'. split; [done|]. split; [done|]. rewrite Hfind.
    exists k. split; [done|]. split; [done|]. intros _. split; [auto|done].
Qed.

(** C7: when the input is not itself a bag and has a subdirectory
    [ros2bag], that subdirectory is the bag root: [csv] is created
    beside it if absent, and [dump_bag] is called, in the order of
    [find_rosbags], for the bags found under the bag root, each with
    the output directory at the same relative path under [csv]; all of
    them when the run returns normally.  The files of each call are the
    topic files of its output directory. *)
Theorem structured_mode_mirrors (fs : node) (input_path : path) r w :
  is_rosbag_dir fs input_path = false ->
  is_dir fs (input_path ++ ["ros2bag"]) = true ->
  run_main fs input_path = (r, w) ->
  let ros2bag_dir := input_path ++ ["ros2bag"] in
  let csv_dir := input_path ++ ["csv"] in
  let rosbags := find_rosbags fs ros2bag_dir in
  (resolve fs csv_dir <> Some NFile ->
     is_dir (tree w) csv_dir = true /\
     (is_dir fs csv_dir = true -> tree w = fs) /\
     (resolve fs csv_dir = None -> resolve (tree w) csv_dir = Some (NDir []))) /\
  Forall (fun bag => bag = ros2bag_dir ++ drop (length ros2bag_dir) bag) rosbags /\
  (exists k, k <= length rosbags /\
     map call_args (dumps w) = take k (map (mirrored ros2bag_dir csv_dir) rosbags) /\
     (r = Ok tt -> k = length rosbags /\ rosbags <> [])) /\
  Forall call_faithful (dumps w).
Proof.
  intros Hnb Hdir H ros2bag_dir csv_dir rosbags.
  assert (Forall (fun bag => ros2bag_dir `prefix_of` bag) rosbags) as Hpre.
  { apply List.Forall_forall. intros bag. apply find_rosbags_prefix. }
  assert (exists es esr, resolve fs input_path = Some (NDir es) /\
            lookup_entry es "ros2bag" = Some (NDir esr)) as (es & esr & Hin & Hros).
  { unfold is_dir in Hdir. rewrite resolve_app in Hdir.
    destruct (resolve fs input_path) as [[|es]|]; simpl in Hdir; try done.
    destruct (lookup_entry es "ros2bag") as [[|esr]|] eqn:Hl; try done. eauto. }
  assert (resolve fs ros2bag_dir = Some (NDir esr)) as Hroot.
  { unfold ros2bag_dir. rewrite resolve_app, Hin. simpl. by rewrite Hros. }
  assert (resolve fs csv_dir = lookup_entry es "csv") as Hcsv.
  { unfold csv_dir. rewrite resolve_app, Hin. simpl. by destruct (lookup_entry es "csv"). }
  assert (process_structured_bags input_path (World fs [] [] []) = (r, w)) as Hrun.
  { unfold run_main, main in H.
    apply bind_inv in H as [(e & [=] & _)|(w0 & w0' & [= <- <-] & H)].
    unfold path_exists, is_dir in H. simpl in H. rewrite Hin in H. simpl in H.
    rewrite Hnb in H. fold ros2bag_dir in H. by rewrite Hroot in H. }
  apply process_structured_bags_spec in Hrun as [Hfaith Hrun];
    [|by unfold path_exists; simpl; fold ros2bag_dir; rewrite Hroot|by constructor].
  simpl in Hrun. fold ros2bag_dir csv_dir in Hrun.
  pose proof (mkdir_child fs input_path "csv" es Hin) as Hmk. fold csv_dir in Hmk.
  rewrite <- Hcsv in Hmk.
  split; [|split; [|split; [|exact Hfaith]]].
  - intros Hnf. unfold is_dir.
    destruct (resolve fs csv_dir) as [[|esc]|] eqn:Hc; [done| |].
    + rewrite Hmk in Hrun. destruct Hrun as [(e & [=] & _)|(fs' & [= <-] & -> & _)].
      rewrite Hc. done.
    + destruct Hmk as (fs1 & Hmk & Hnew & _). rewrite Hmk in Hrun.
      destruct Hrun as [(e & [=] & _)|(fs' & [= <-] & -> & _)]. by rewrite Hnew.
  - eapply Forall_impl; [exact Hpre|]. intros bag [k ->]. by rewrite drop_app_length.
  - destruct Hrun as [(e & _ & -> & ->)|(fs' & Hmk' & _ & Hrun)].
    { exists 0. simpl. split; [lia|]. done. }
    assert (find_rosbags fs' ros2bag_dir = rosbags) as Hsame.
    { apply find_rosbags_ext. intros q. unfold ros2bag_dir. rewrite <- !app_assoc. simpl.
      destruct (resolve fs csv_dir) as [[|esc]|] eqn:Hc.
      - congruence.
      - rewrite Hmk in Hmk'. by injection Hmk' as <-.
      - destruct Hmk as (fs1 & Hmk & _ & Hsame). rewrite Hmk in Hmk'. injection Hmk' as <-.
        by apply Hsame. }
    rewrite Hsame in Hrun. exact Hrun.
Qed.
End OrchestratorClaims.

(** * Further properties *)

(** ** Field flattener, further *)

(** Induction on decoded values, with the hypothesis for every element
    and every field. *)
Fixpoint value_ind' (P : value -> Prop) (HS : forall s, P (VScalar s))
  (HL : forall l, Forall P l -> P (VList l))
  (HM : forall fs, Forall (fun f => P (snd f)) fs -> P (VMsg fs)) (v : value) : P v :=
  match v with
  | VScalar s => HS s
  | VList l =>
      HL l ((fix go (l : list value) : Forall P l :=
               match l with
               | [] => @List.Forall_nil _ _
               | x :: l1 => @List.Forall_cons _ _ x l1 (value_ind' P HS HL HM x) (go l1)
               end) l)
  | VMsg fs =>
      HM fs ((fix go (fs : list (string * string * value)) : Forall (fun f => P (snd f)) fs :=
                match fs with
                | [] => @List.Forall_nil _ _
                | f :: fs1 => @List.Forall_cons _ _ f fs1 (value_ind' P HS HL HM (snd f)) (go fs1)
                end) fs)
  end.

Lemma flat_outcome_bind ok1 ok2 r1 r2 :
  flat_outcome ok1 r1 -> flat_outcome ok2 r2 ->
  flat_outcome (ok1 && ok2) (a ← r1; b ← r2; Ok (a ++ b)).
Proof.
  destruct r1 as [a|e], r2 as [b|e']; simpl; intros H1 H2.
  - by rewrite H1, H2.
  - destruct H2 as [-> ->]. split; [done|]. apply andb_false_r.
  - by destruct H1 as [-> ->].
  - by destruct H1 as [-> ->].
Qed.

Lemma gen_enumerate_outcome {A} (rec : A -> string -> result (list (string * scalar)))
    (ok : A -> bool) prefix l i :
  Forall (fun x => forall p, flat_outcome (ok x) (rec x p)) l ->
  flat_outcome (forallb ok l) (gen_enumerate rec prefix l i).
Proof.
  intros H. revert i. induction H as [|x l Hx _ IH]; intros i; [done|].
  simpl. apply flat_outcome_bind; [apply Hx|apply IH].
Qed.

Lemma gen_chars_ok prefix s : exists flat, gen_chars prefix s = Ok flat.
Proof.
  unfold gen_chars. generalize 0. induction (list_ascii_of_string s) as [|c l IH]; intros i.
  - by eexists.
  - simpl. destruct (IH (S i)) as [flat ->]. by eexists.
Qed.

Lemma flatten_outcome v : forall p, flat_outcome (sequences_iterable v) (_gen_msg_values v p).
Proof.
  induction v as [s|l IH|fs IH] using value_ind'; intros p.
  - done.
  - simpl. by apply gen_enumerate_outcome.
  - simpl. induction IH as [|[[field ty] val] fs Hval _ IHfs]; [done|].
    simpl in *.
    apply flat_outcome_bind; [|apply IHfs].
    unfold gen_field. destruct (startswith ty "sequence<").
    + destruct val as [[| | |s]|l|fs']; simpl; try done.
      * destruct (gen_chars_ok (full_field_name p field) s) as [flat ->]. done.
      * apply (Hval (full_field_name p field)).
    + simpl. apply Hval.
Qed.

Lemma append_assoc (a b c : string) : (a +:+ b) +:+ c = a +:+ (b +:+ c).
Proof. induction a as [|x a IH]; [done|]. exact (f_equal (String x) IH). Qed.

Lemma append_empty_r (a : string) : a +:+ "" = a.
Proof. induction a as [|x a IH]; [done|]. exact (f_equal (String x) IH). Qed.

Lemma string_prefix_append p s : String.prefix p (p +:+ s) = true.
Proof.
  induction p as [|c p IH]; simpl; [by destruct s|].
  destruct (ascii_dec c c); [done|congruence].
Qed.

Lemma string_prefix_empty s : String.prefix "" s = true.
Proof. by destruct s. Qed.

Lemma append_nonempty a b : a <> "" -> a +:+ b <> "".
Proof. by destruct a. Qed.

Lemma below_trans p q r : below p q -> below q r -> below p r.
Proof.
  intros [->|[s Hs]] H; [done|]. right.
  destruct H as [->|[s' Hs']]; [eauto|].
  destruct Hs as [->| ->]; destruct Hs' as [->| ->];
    rewrite !append_assoc; simpl; eauto.
Qed.

Lemma below_prefix p q : below p q -> startswith q p = true.
Proof.
  unfold startswith. intros [->|[s [->| ->]]]; [|apply string_prefix_append..].
  pose proof (string_prefix_append p "") as H. by rewrite append_empty_r in H.
Qed.

Lemma index_path_below p i : below p (index_path p i).
Proof. right. exists (pretty i +:+ "]"). by right. Qed.

Lemma index_path_nonempty p i : index_path p i <> "".
Proof. unfold index_path. destruct p; done. Qed.

Lemma full_field_name_nonempty p field : p <> "" -> full_field_name p field <> "".
Proof. by destruct p. Qed.

Lemma full_field_name_below p field : p <> "" -> below p (full_field_name p field).
Proof. destruct p; [done|]. intros _. right. exists field. by left. Qed.

Lemma result_bind_app_inv {A} (r1 r2 : result (list A)) l :
  (a ← r1; b ← r2; Ok (a ++ b)) = Ok l ->
  exists a b, r1 = Ok a /\ r2 = Ok b /\ l = a ++ b.
Proof. destruct r1 as [a|], r2 as [b|]; simpl; intros [=]; eauto. Qed.

(** The leaves of the elements of a sequence lie below indexed paths. *)
Lemma gen_enumerate_paths {A} (rec : A -> string -> result (list (string * scalar)))
    (Q : string -> string -> Prop) prefix l i flat :
  Forall (fun x => forall p flat, p <> "" -> rec x p = Ok flat ->
                     Forall (fun fv => Q p (fst fv)) flat) l ->
  gen_enumerate rec prefix l i = Ok flat ->
  Forall (fun fv => exists j, i <= j /\ Q (index_path prefix j) (fst fv)) flat.
Proof.
  intros H. revert i flat. induction H as [|x l Hx _ IH]; intros i flat Hg.
  - simpl in Hg. injection Hg as <-. constructor.
  - simpl in Hg. apply result_bind_app_inv in Hg as (a & b & Ha & Hb & ->).
    apply Forall_app. split.
    + eapply Forall_impl; [eapply Hx; [apply index_path_nonempty|done]|].
      simpl. eauto.
    + eapply Forall_impl; [by eapply IH|]. simpl. intros fv (j & Hj & HQ).
      exists j. split; [lia|done].
Qed.

Lemma gen_chars_paths prefix s flat :
  gen_chars prefix s = Ok flat ->
  Forall (fun fv => exists j, fst fv = index_path prefix j) flat.
Proof.
  unfold gen_chars. intros H.
  eapply (gen_enumerate_paths _ (fun p q => q = p)) in H.
  - eapply Forall_impl; [exact H|]. simpl. intros fv (j & _ & Hj). eauto.
  - apply Forall_forall. intros c _ p fl _ [= <-]. by repeat constructor.
Qed.

Lemma flatten_below v : forall p flat,
  p <> "" -> _gen_msg_values v p = Ok flat -> Forall (fun fv => below p (fst fv)) flat.
Proof.
  induction v as [s|l IH|fs IH] using value_ind'; intros p flat Hp H.
  - injection H as <-. repeat constructor.
  - simpl in H. eapply gen_enumerate_paths in H; [|exact IH].
    eapply Forall_impl; [exact H|]. simpl. intros fv (j & _ & Hj).
    eapply below_trans; [apply index_path_below|done].
  - simpl in H. revert flat H. induction IH as [|[[field ty] val] fs Hval _ IHfs]; intros flat H.
    { injection H as <-. constructor. }
    simpl in H. apply result_bind_app_inv in H as (a & b & Ha & Hb & ->).
    apply Forall_app. split; [|by apply IHfs].
    pose proof (full_field_name_below p field Hp) as Hfull.
    pose proof (full_field_name_nonempty p field Hp) as Hne.
    unfold gen_field in Ha. simpl in Hval. destruct (startswith ty "sequence<").
    + destruct val as [[| | |s]|l|fs']; try done.
      * apply gen_chars_paths in Ha. eapply Forall_impl; [exact Ha|].
        simpl. intros fv [j ->]. eapply below_trans; [done|apply index_path_below].
      * apply (Hval _ _ Hne) in Ha. eapply Forall_impl; [exact Ha|].
        simpl. intros fv Hfv. by eapply below_trans.
    + apply (Hval _ _ Hne) in Ha. eapply Forall_impl; [exact Ha|].
      simpl. intros fv Hfv. by eapply below_trans.
Qed.

(** X1: every path [_gen_msg_values] yields starts with the prefix it
    was given; under a prefix that is not empty a path is the prefix
    itself or continues it with [.] or with [[]. *)
Theorem flatten_paths_start_with_prefix (v : value) (p : string) flat :
  _gen_msg_values v p = Ok flat ->
  Forall (fun fv => startswith (fst fv) p = true) flat /\
  (p <> "" ->
   Forall (fun fv => fst fv = p \/
                     startswith (fst fv) (p +:+ ".") = true \/
                     startswith (fst fv) (p +:+ "[") = true) flat).
Proof.
  intros H. split.
  - destruct (decide (p = "")) as [->|Hp].
    + apply Forall_forall. intros fv _. apply string_prefix_empty.
    + eapply Forall_impl; [by eapply flatten_below|]. intros fv. apply below_prefix.
  - intros Hp. eapply Forall_impl; [by eapply flatten_below|]. simpl.
    intros fv [->|[s [->| ->]]]; [by left|right; left|right; right];
      unfold startswith; rewrite <- append_assoc; apply string_prefix_append.
Qed.

Lemma append_cons c (a t : string) : String c a +:+ t = String c (a +:+ t).
Proof. reflexivity. Qed.

Lemma below_index p j q :
  below (index_path p j) q -> exists s, q = p +:+ "[" +:+ s.
Proof.
  unfold index_path. intros [->|[s [->| ->]]]; [by eexists|..];
    rewrite append_assoc; eexists; reflexivity.
Qed.

Lemma below_field p field q :
  p <> "" -> below (full_field_name p field) q -> exists s, q = p +:+ "." +:+ s.
Proof.
  destruct p as [|c p]; [done|]. intros _. simpl.
  intros [->|[s [->| ->]]]; [by eexists|..];
    rewrite append_assoc; eexists; reflexivity.
Qed.

(** Where the leaves of a top-level field lie, by the kind of its value. *)
Lemma gen_field_paths name ty val flat :
  name <> "" ->
  gen_field _gen_msg_values "" name ty val = Ok flat ->
  Forall (fun fv =>
            match val with
            | VMsg _ => exists s, fst fv = name +:+ "." +:+ s
            | _ => fst fv = name \/ exists s, fst fv = name +:+ "[" +:+ s
            end) flat.
Proof.
  intros Hne H. unfold gen_field in H. simpl in H.
  assert (forall l i, gen_enumerate _gen_msg_values name l i = Ok flat ->
            Forall (fun fv => fst fv = name \/ exists s, fst fv = name +:+ "[" +:+ s) flat) as Hl.
  { intros l i Hg. eapply (gen_enumerate_paths _ below) in Hg.
    - eapply Forall_impl; [exact Hg|]. simpl. intros fv (j & _ & Hj). right. by eapply below_index.
    - apply Forall_forall. intros x _ p fl Hp Hx. by eapply flatten_below. }
  destruct (startswith ty "sequence<").
  - destruct val as [[| | |s]|l|fs']; try done; [|by eapply Hl].
    apply gen_chars_paths in H. eapply Forall_impl; [exact H|].
    simpl. intros fv [j ->]. right. by exists (pretty j +:+ "]").
  - destruct val as [s|l|fs'].
    + injection H as <-. constructor; [by left|constructor].
    + by eapply Hl.
    + assert (Forall (fun fv => below name (fst fv)) flat) as Hb by by eapply flatten_below.
      simpl in H. clear Hl Hb. revert flat H.
      induction fs' as [|[[field ty'] val] fs' IH]; intros flat H.
      { injection H as <-. constructor. }
      simpl in H. apply result_bind_app_inv in H as (a & b & Ha & Hb & ->).
      apply Forall_app. split; [|by apply IH].
      assert (Forall (fun fv => below (full_field_name name field) (fst fv)) a) as Hbelow.
      { pose proof (full_field_name_nonempty name field Hne) as Hne'.
        unfold gen_field in Ha. destruct (startswith ty' "sequence<").
        - destruct val as [[| | |s]|l|fs'']; try done.
          + apply gen_chars_paths in Ha. eapply Forall_impl; [exact Ha|].
            simpl. intros fv [j ->]. apply index_path_below.
          + by eapply (flatten_below (VList l)).
        - by eapply flatten_below. }
      eapply Forall_impl; [exact Hbelow|]. simpl. intros fv. by apply below_field.
Qed.

Lemma plain_name_nonempty name : plain_name name = true -> name <> "".
Proof. by destruct name. Qed.

Lemma string_prefix_cons a s1 b s2 :
  String.prefix (String a s1) (String b s2) = Ascii.eqb a b && String.prefix s1 s2.
Proof.
  change (String.prefix (String a s1) (String b s2))
    with (if ascii_dec a b then String.prefix s1 s2 else false).
  destruct (ascii_dec a b) as [->|Hn].
  - by rewrite Ascii.eqb_refl.
  - apply Ascii.eqb_neq in Hn. by rewrite Hn.
Qed.

(** A name without a dot, continued by nothing, a dot or a bracket,
    starts with [pre.] only when it is [pre], continued by a dot. *)
Lemma dotted_prefix (pre name t : string) :
  forallb (fun c => negb (Ascii.eqb c ".") && negb (Ascii.eqb c "["))
          (list_ascii_of_string pre) = true ->
  forallb (fun c => negb (Ascii.eqb c ".")) (list_ascii_of_string name) = true ->
  match t with
  | EmptyString => True
  | String c _ => c = "."%char \/ c = "["%char
  end ->
  String.prefix (pre +:+ ".") (name +:+ t) = true ->
  name = pre /\ exists s, t = "." +:+ s.
Proof.
  revert name. induction pre as [|x pre IH]; intros name Hpre Hname Ht H.
  - destruct name as [|c name].
    + destruct t as [|c t]; [discriminate H|].
      change (String.prefix (String "." "") (String c t) = true) in H.
      rewrite string_prefix_cons in H. apply andb_prop in H as [H _].
      apply Ascii.eqb_eq in H as <-. split; [done|by exists t].
    + change (String.prefix (String "." "") (String c (name +:+ t)) = true) in H.
      rewrite string_prefix_cons in H. apply andb_prop in H as [H _].
      apply Ascii.eqb_eq in H as <-. simpl in Hname. discriminate Hname.
  - simpl in Hpre. apply andb_prop in Hpre as [Hx Hpre].
    destruct name as [|c name].
    + destruct t as [|c t]; [discriminate H|].
      change (String.prefix (String x (pre +:+ ".")) (String c t) = true) in H.
      rewrite string_prefix_cons in H. apply andb_prop in H as [H _].
      apply Ascii.eqb_eq in H as <-. by destruct Ht as [->| ->].
    + change (String.prefix (String x (pre +:+ ".")) (String c (name +:+ t)) = true) in H.
      rewrite string_prefix_cons in H. apply andb_prop in H as [Hc H].
      apply Ascii.eqb_eq in Hc as <-. simpl in Hname. apply andb_prop in Hname as [_ Hname].
      destruct (IH name Hpre Hname Ht H) as [-> Hs]. done.
Qed.

Lemma header_prefix_plain name t :
  plain_name name = true ->
  match t with
  | EmptyString => True
  | String c _ => c = "."%char \/ c = "["%char
  end ->
  startswith (name +:+ t) "header." = true ->
  name = "header" /\ exists s, t = "." +:+ s.
Proof.
  unfold startswith, plain_name. intros Hplain Ht Hpre.
  apply andb_prop in Hplain as [_ Hplain].
  by apply (dotted_prefix "header").
Qed.

Lemma filter_all {A} (p : A -> bool) l : Forall (fun x => p x = true) l -> List.filter p l = l.
Proof. induction 1 as [|x l Hx _ IH]; simpl; [done|]. by rewrite Hx, IH. Qed.

Lemma filter_none {A} (p : A -> bool) l : Forall (fun x => p x = false) l -> List.filter p l = [].
Proof. induction 1 as [|x l Hx _ IH]; simpl; [done|]. by rewrite Hx. Qed.

Lemma gen_field_header_filter name ty val flat :
  plain_name name = true ->
  gen_field _gen_msg_values "" name ty val = Ok flat ->
  List.filter (fun fv => not_header (fst fv)) flat =
  if nested_header (name, ty, val) then [] else flat.
Proof.
  intros Hplain H. pose proof (plain_name_nonempty _ Hplain) as Hne.
  apply gen_field_paths in H; [|done]. unfold nested_header. simpl.
  assert (forall q, q = name \/ (exists s, q = name +:+ "[" +:+ s) -> not_header q = true) as Hkeep.
  { intros q Hq. unfold not_header. destruct (startswith q "header.") eqn:Hs; [|done].
    destruct Hq as [->|[s ->]].
    - rewrite <- (append_empty_r name) in Hs.
      by apply header_prefix_plain in Hs as [_ [s [=]]].
    - apply header_prefix_plain in Hs as [_ [s' [=]]]; [done|by right]. }
  destruct val as [s|l|fs'].
  - rewrite andb_false_r. apply filter_all. eapply Forall_impl; [exact H|]. simpl. auto.
  - rewrite andb_false_r. apply filter_all. eapply Forall_impl; [exact H|]. simpl. auto.
  - rewrite andb_true_r. destruct (String.eqb_spec name "header") as [->|Hn].
    + apply filter_none. eapply Forall_impl; [exact H|]. simpl. intros fv [s ->].
      exact (f_equal negb (string_prefix_append "header." s)).
    + apply filter_all. eapply Forall_impl; [exact H|]. simpl. intros fv [s ->].
      unfold not_header. destruct (startswith _ "header.") eqn:Hs; [|done].
      apply header_prefix_plain in Hs as [? _]; [done..|by left].
Qed.

(** X2: for a message whose field names are not empty and have no dot,
    the filter on [header.] of [dump_bag] drops exactly the leaves of a
    top-level field [header] that holds a message: what is kept is the
    flattening of the message without that field.  A field [header]
    that holds a leaf or a list is kept. *)
Theorem header_filter_drops_nested_header (fs : list (string * string * value)) flat :
  Forall (fun f => plain_name (fst (fst f)) = true) fs ->
  _gen_msg_values (VMsg fs) "" = Ok flat ->
  exists kept,
    _gen_msg_values (VMsg (List.filter (fun f => negb (nested_header f)) fs)) "" = Ok kept /\
    List.filter (fun fv => not_header (fst fv)) flat = kept /\
    header_fields flat = map fst kept.
Proof.
  intros Hplain H.
  enough (exists kept,
    _gen_msg_values (VMsg (List.filter (fun f => negb (nested_header f)) fs)) "" = Ok kept /\
    List.filter (fun fv => not_header (fst fv)) flat = kept) as (kept & H1 & H2).
  { exists kept. split; [done|]. split; [done|]. unfold header_fields. by rewrite H2. }
  simpl in *. revert flat H.
  induction Hplain as [|[[name ty] val] fs Hname _ IH]; intros flat H.
  { injection H as <-. by exists []. }
  simpl in H. apply result_bind_app_inv in H as (a & b & Ha & Hb & ->).
  destruct (IH b Hb) as (kept & Hk1 & Hk2).
  rewrite List.filter_app, Hk2, (gen_field_header_filter _ _ _ _ Hname Ha).
  simpl. destruct (nested_header (name, ty, val)); simpl.
  - by exists kept.
  - exists (a ++ kept). split; [|done]. by rewrite Ha, Hk1.
Qed.

(** X3: [_gen_msg_values] either succeeds or raises [TypeError]; it
    raises exactly when, at some depth, a field whose type starts with
    [sequence<] holds a value that is neither a list nor a [str]. *)
Theorem flatten_fails_only_on_non_iterable (v : value) (p : string) :
  (sequences_iterable v = true /\ exists flat, _gen_msg_values v p = Ok flat) \/
  (sequences_iterable v = false /\ _gen_msg_values v p = Raise TypeError).
Proof.
  pose proof (flatten_outcome v p) as H.
  destruct (_gen_msg_values v p) as [flat|e]; simpl in H.
  - left. eauto.
  - right. by destruct H as [-> ->].
Qed.

Lemma fmap_bind_app {A B} (f : A -> B) (r1 r2 : result (list A)) :
  map f <$> (a ← r1; b ← r2; Ok (a ++ b)) =
  (a ← map f <$> r1; b ← map f <$> r2; Ok (a ++ b)).
Proof. destruct r1, r2; simpl; try done. unfold fmap; simpl. by rewrite map_app. Qed.

Lemma gen_enumerate_values {A} (rec : A -> string -> result (list (string * scalar)))
    p q l i j :
  Forall (fun x => forall p q, map snd <$> rec x p = map snd <$> rec x q) l ->
  map snd <$> gen_enumerate rec p l i = map snd <$> gen_enumerate rec q l j.
Proof.
  intros H. revert i j. induction H as [|x l Hx _ IH]; intros i j; [done|].
  simpl. rewrite !fmap_bind_app. by rewrite (Hx (index_path p i) (index_path q j)), (IH (S i) (S j)).
Qed.

(** X4: the values [_gen_msg_values] yields, their order, and whether
    it fails, do not depend on the prefix. *)
Theorem flatten_values_prefix_independent (v : value) (p q : string) :
  map snd <$> _gen_msg_values v p = map snd <$> _gen_msg_values v q.
Proof.
  revert p q. induction v as [s|l IH|fs IH] using value_ind'; intros p q.
  - done.
  - simpl. by apply gen_enumerate_values.
  - simpl. induction IH as [|[[field ty] val] fs Hval _ IHfs]; [done|].
    simpl. rewrite !fmap_bind_app, IHfs. f_equal.
    unfold gen_field. simpl in Hval. destruct (startswith ty "sequence<"); [|apply Hval].
    destruct val as [[| | |s]|l|fs']; try done.
    + unfold gen_chars. apply gen_enumerate_values.
      apply Forall_forall. by intros c _ p' q'.
    + apply (Hval (full_field_name p field) (full_field_name q field)).
Qed.

Lemma split_at_sep sep a b r r' :
  sep_free sep a = true -> sep_free sep b = true ->
  sep_start sep r -> sep_start sep r' ->
  a +:+ r = b +:+ r' -> a = b.
Proof.
  unfold sep_free. revert b. induction a as [|c a IH]; intros [|c' b] Ha Hb Hr Hr' H; [done|..].
  - change (r = String c' (b +:+ r')) in H. subst r. simpl in Hr, Hb.
    rewrite Hr in Hb. discriminate Hb.
  - change (String c (a +:+ r) = r') in H. subst r'. simpl in Hr', Ha.
    rewrite Hr' in Ha. discriminate Ha.
  - injection H as <- H. simpl in Ha, Hb.
    apply andb_prop in Ha as [_ Ha]. apply andb_prop in Hb as [_ Hb].
    f_equal. by eapply IH.
Qed.

Lemma pretty_N_go_sep_free sep x s :
  (forall d, sep (pretty_N_char d) = false) ->
  sep_free sep s = true -> sep_free sep (pretty_N_go x s) = true.
Proof.
  intros Hd. revert s. induction (N.lt_wf_0 x) as [x _ IH]; intros s Hs.
  assert (x = 0 \/ 0 < x)%N as [->|?] by lia.
  - by rewrite pretty_N_go_0.
  - rewrite pretty_N_go_step by done. apply IH.
    { by apply N.div_lt. }
    unfold sep_free in *. simpl. by rewrite Hd.
Qed.

Lemma pretty_nat_sep_free sep (i : nat) :
  (forall d, sep (pretty_N_char d) = false) -> sep_free sep (pretty i) = true.
Proof.
  intros Hd. unfold pretty, pretty_nat, pretty, pretty_N.
  case_decide; [|by apply pretty_N_go_sep_free].
  specialize (Hd 0%N). unfold sep_free. simpl in *. by rewrite Hd.
Qed.

Lemma digit_not_bracket d : Ascii.eqb (pretty_N_char d) "]" = false.
Proof. unfold pretty_N_char. by repeat case_match. Qed.

(** The continuation of a path below [p]. *)
Lemma below_inv p q : below p q -> exists r, q = p +:+ r /\ sep_start path_sep r.
Proof.
  intros [->|[s [->| ->]]].
  - exists "". by rewrite append_empty_r.
  - by exists ("." +:+ s).
  - by exists ("[" +:+ s).
Qed.

Lemma below_index_inj p i j q :
  below (index_path p i) q -> below (index_path p j) q -> i = j.
Proof.
  intros (r & -> & Hr)%below_inv (r' & H & Hr')%below_inv.
  unfold index_path in H. rewrite !append_assoc in H.
  apply (inj (String.app p)) in H.
  assert (pretty i +:+ "]" +:+ r = pretty j +:+ "]" +:+ r') as H' by (by injection H).
  apply (split_at_sep (fun c => Ascii.eqb c "]")) in H'.
  - by apply (inj pretty) in H'.
  - apply pretty_nat_sep_free, digit_not_bracket.
  - apply pretty_nat_sep_free, digit_not_bracket.
  - done.
  - done.
Qed.

Lemma below_field_inj p f g q :
  identifier f = true -> identifier g = true ->
  below (full_field_name p f) q -> below (full_field_name p g) q -> f = g.
Proof.
  intros [_ Hf]%andb_prop [_ Hg]%andb_prop (r & -> & Hr)%below_inv (r' & H & Hr')%below_inv.
  destruct p as [|c p]; simpl in H.
  - by apply (split_at_sep path_sep f g r r').
  - rewrite !append_assoc in H. apply (inj (String.app (String c p))) in H.
    assert (f +:+ r = g +:+ r') as H' by (by injection H).
    by apply (split_at_sep path_sep f g r r').
Qed.

Lemma identifier_nonempty name p : identifier name = true -> full_field_name p name <> "".
Proof. destruct name; [done|]. intros _. by destruct p. Qed.

Lemma NoDup_app_below {A} (P : string -> Prop) (a b : list (string * A)) :
  NoDup (map fst a) -> NoDup (map fst b) ->
  Forall (fun fv => P (fst fv)) a -> Forall (fun fv => ~ P (fst fv)) b ->
  NoDup (map fst (a ++ b)).
Proof.
  intros Ha Hb HPa HPb. rewrite map_app. apply NoDup_app. split; [done|]. split; [|done].
  intros q (fv & <- & Hin)%list_elem_of_In%in_map_iff (fv' & Heq & Hin')%list_elem_of_In%in_map_iff.
  rewrite List.Forall_forall in HPa, HPb.
  apply (HPb fv'); [done|]. rewrite Heq. by apply HPa.
Qed.

Lemma gen_enumerate_NoDup {A} (rec : A -> string -> result (list (string * scalar)))
    prefix l i flat :
  Forall (fun x => forall p flat, p <> "" -> rec x p = Ok flat ->
                     Forall (fun fv => below p (fst fv)) flat /\ NoDup (map fst flat)) l ->
  gen_enumerate rec prefix l i = Ok flat -> NoDup (map fst flat).
Proof.
  intros H. revert i flat. induction H as [|x l Hx Hl IH]; intros i flat Hg.
  - simpl in Hg. injection Hg as <-. constructor.
  - simpl in Hg. apply result_bind_app_inv in Hg as (a & b & Ha & Hb & ->).
    destruct (Hx _ _ (index_path_nonempty prefix i) Ha) as [Hbelow Hnd].
    apply (NoDup_app_below (below (index_path prefix i))); [done|by eapply IH|done|].
    eapply (gen_enumerate_paths _ below) in Hb.
    + eapply Forall_impl; [exact Hb|]. simpl. intros fv (j & Hj & Hq) Hq'.
      pose proof (below_index_inj _ _ _ _ Hq Hq'). lia.
    + eapply Forall_impl; [exact Hl|]. simpl. intros y Hy p fl Hp Hr. by apply Hy.
Qed.

Lemma flatten_NoDup v : well_named v = true ->
  forall p flat, _gen_msg_values v p = Ok flat -> NoDup (map fst flat).
Proof.
  induction v as [s|l IH|fs IH] using value_ind'; intros Hwn p flat H.
  - injection H as <-. simpl. apply NoDup_singleton.
  - simpl in H, Hwn. eapply gen_enumerate_NoDup; [|exact H].
    rewrite forallb_forall in Hwn. rewrite Forall_forall in IH. apply Forall_forall.
    intros x Hx q fl Hq Hr. apply list_elem_of_In in Hx as Hx'. split.
    + by eapply flatten_below.
    + by eapply IH; [|apply Hwn|].
  - simpl in H, Hwn. apply andb_prop in Hwn as [Hnd Hwn]. apply bool_decide_eq_true in Hnd.
    revert flat H. induction IH as [|[[field ty] val] fs Hval Hfs IHfs]; intros flat H.
    { injection H as <-. constructor. }
    simpl in *. apply andb_prop in Hwn as [[Hid Hwv]%andb_prop Hwn].
    apply NoDup_cons in Hnd as [Hfield Hnd].
    apply result_bind_app_inv in H as (a & b & Ha & Hb & ->).
    pose proof (identifier_nonempty field p Hid) as Hne.
    assert (Forall (fun fv => below (full_field_name p field) (fst fv)) a /\
            NoDup (map fst a)) as [Hbelow Hnda].
    { unfold gen_field in Ha. destruct (startswith ty "sequence<").
      - destruct val as [[| | |s]|l|fs']; try done.
        + split.
          * apply gen_chars_paths in Ha. eapply Forall_impl; [exact Ha|].
            simpl. intros fv [j ->]. apply index_path_below.
          * unfold gen_chars in Ha. eapply gen_enumerate_NoDup; [|exact Ha].
            apply Forall_forall. intros c _ q fl _ [= <-]. split.
            -- repeat constructor.
            -- simpl. apply NoDup_singleton.
        + split; [by eapply (flatten_below (VList l))|by eapply Hval].
      - split; [by eapply flatten_below|by eapply Hval]. }
    apply (NoDup_app_below (below (full_field_name p field))); [done|by apply IHfs|done|].
    clear Ha Hnda Hbelow IHfs Hval. revert b Hb.
    induction Hfs as [|[[g ty'] val'] fs' _ _ IH']; intros b Hb.
    { injection Hb as <-. constructor. }
    simpl in *. apply andb_prop in Hwn as [[Hidg Hwg]%andb_prop Hwn].
    apply NoDup_cons in Hnd as [Hg Hnd].
    apply result_bind_app_inv in Hb as (a' & b' & Ha' & Hb' & ->).
    apply Forall_app. split.
    + pose proof (identifier_nonempty g p Hidg) as Hneg.
      assert (Forall (fun fv => below (full_field_name p g) (fst fv)) a') as Hbg.
      { unfold gen_field in Ha'. destruct (startswith ty' "sequence<").
        - destruct val' as [[| | |s]|l|fs'']; try done.
          + apply gen_chars_paths in Ha'. eapply Forall_impl; [exact Ha'|].
            simpl. intros fv [j ->]. apply index_path_below.
          + by eapply (flatten_below (VList l)).
        - by eapply flatten_below. }
      eapply Forall_impl; [exact Hbg|]. simpl. intros fv Hq Hq'.
      apply Hfield. rewrite (below_field_inj _ _ _ _ Hid Hidg Hq' Hq). constructor.
    + apply not_elem_of_cons in Hfield as [_ Hfield]. by apply IH'.
Qed.

(** X5: when, at every depth, the field names of a message are
    distinct, not empty and free of [.] and [[], the paths
    [_gen_msg_values] yields are pairwise distinct, and so are the
    column names [dump_bag] takes from them. *)
Theorem flatten_paths_distinct (v : value) (p : string) flat :
  well_named v = true ->
  _gen_msg_values v p = Ok flat ->
  NoDup (map fst flat) /\ NoDup (header_fields flat).
Proof.
  intros Hwn H. pose proof (flatten_NoDup v Hwn p flat H) as Hnd. split; [done|].
  unfold header_fields. clear H Hwn. induction flat as [|[q x] flat IH]; simpl; [constructor|].
  simpl in Hnd. apply NoDup_cons in Hnd as [Hq Hnd].
  destruct (not_header q); simpl; [|by apply IH].
  apply NoDup_cons. split; [|by apply IH].
  intros Hin. apply Hq. apply list_elem_of_In, in_map_iff in Hin as (fv & <- & Hin).
  apply list_elem_of_In, in_map_iff. exists fv. split; [done|].
  by apply filter_In in Hin as [Hin _].
Qed.



(** ** Topic dump engine, further *)

Lemma replace_slash_sep_free s : sep_free is_slash (replace_slash s) = true.
Proof.
  unfold sep_free, is_slash. induction s as [|c s IH]; [done|]. simpl.
  rewrite IH, andb_true_r. destruct (Ascii.eqb_spec c "/"); [done|].
  by apply negb_true_iff, Ascii.eqb_neq.
Qed.

Lemma replace_slash_fixed s : sep_free is_slash s = true -> replace_slash s = s.
Proof.
  unfold sep_free, is_slash. induction s as [|c s IH]; [done|]. simpl.
  intros [Hc Hs]%andb_prop. apply negb_true_iff in Hc. rewrite Hc. by rewrite IH.
Qed.

Lemma lstrip_slash_fixed s : sep_free is_slash s = true -> lstrip_slash s = s.
Proof.
  unfold sep_free, is_slash. destruct s as [|c s]; [done|]. simpl.
  intros [Hc _]%andb_prop. apply negb_true_iff in Hc. by rewrite Hc.
Qed.

(** X7: the file name of a topic is the output path, a slash, a stem
    without any slash, and [.csv]: the file lies directly in the
    output directory. *)
Theorem csv_filename_stays_in_output_dir (output_path topic : string) :
  csv_filename output_path topic = output_path +:+ "/" +:+ csv_stem topic +:+ ".csv" /\
  sep_free is_slash (csv_stem topic) = true.
Proof. split; [done|]. apply replace_slash_sep_free. Qed.

(** X8: [csv_filename] does not tell topics apart that differ in
    leading slashes or in a slash against an underscore: a topic, the
    topic with one more leading slash, and the topic spelt with
    underscores for its inner slashes get the same file name. *)
Theorem csv_filename_collisions (output_path topic : string) :
  csv_filename output_path ("/" +:+ topic) = csv_filename output_path topic /\
  csv_filename output_path ("/" +:+ csv_stem topic) = csv_filename output_path topic.
Proof.
  split; [done|]. unfold csv_filename. do 2 f_equal.
  change (replace_slash (lstrip_slash (csv_stem topic)) +:+ ".csv" = csv_stem topic +:+ ".csv").
  pose proof (replace_slash_sep_free (lstrip_slash topic)) as H. fold (csv_stem topic) in H.
  by rewrite lstrip_slash_fixed, replace_slash_fixed.
Qed.

Section TopicRows.
Context `{rt : Runtime}.
Variable type_map : gmap string string.
Variable output_path : string.

Lemma files_row_written h f rel flat st :
  files (row_written h f rel flat st) =
  <[h := File_ (fname f) (flines f ++ [row_line rel flat]) false]> (files st).
Proof. unfold row_written, reported. by case_decide. Qed.

Lemma file_map_row_written h f rel flat st :
  file_map (row_written h f rel flat st) = file_map st.
Proof. unfold row_written, reported. by case_decide. Qed.

Lemma files_started t st : files (started t st) = files st.
Proof. unfold started. by destruct (start_time st). Qed.

Lemma file_map_started t st : file_map (started t st) = file_map st.
Proof. unfold started. by destruct (start_time st). Qed.

(** What a completed iteration does to the files, topic by topic. *)
Lemma loop_body_files topic' data timestamp st0 s1 :
  wf_state st0 ->
  loop_body type_map output_path (topic', data, timestamp) st0 = (Ok tt, s1) ->
  ((topic' ∈ SKIP_TOPICS) /\ s1 = st0) \/
  ((topic' ∉ SKIP_TOPICS) /\
   exists msg t s rel flat h1 f1,
     decode_message type_map topic' data = Ok msg /\
     resolve_time msg timestamp = Ok t /\
     start_time s1 = Some s /\
     py_sub t s = Ok rel /\
     _gen_msg_values msg "" = Ok flat /\
     dict_get (file_map s1) topic' = Some h1 /\
     files s1 !! h1 = Some f1 /\
     match dict_get (file_map st0) topic' with
     | Some h0 => file_map s1 = file_map st0 /\
                  exists f0, files st0 !! h0 = Some f0 /\
                    flines f1 = flines f0 ++ [row_line rel flat]
     | None => file_map s1 = dict_set (file_map st0) topic' (length (files st0)) /\
               flines f1 = [header_line flat; row_line rel flat]
     end /\
     forall topic h0, topic <> topic' ->
       dict_get (file_map st0) topic = Some h0 -> files s1 !! h0 = files st0 !! h0).
Proof.
  intros Hwf H. apply loop_body_spec in H
    as [(Hs & _ & ->)|(Hs & [(e & _ & [=] & _)|(msg & Hd & [(e & _ & [=])|(st1 & He & Hw)])])];
    [by left|right]. split; [done|].
  apply write_row_spec in Hw
    as [(e & [=] & _)|(h & f & t & s & rel & flat & _ & Hg & Hf & _ & Ht & Hs' & Hrel & Hflat & ->)].
  exists msg, t, s, rel, flat, h, (File_ (fname f) (flines f ++ [row_line rel flat]) false).
  do 2 (split; [done|]).
  split. { by rewrite start_time_row_written. }
  do 2 (split; [done|]).
  rewrite file_map_row_written, file_map_started, files_row_written, files_started.
  split; [done|].
  split. { rewrite list_lookup_insert_eq by (by eapply lookup_lt_Some). done. }
  apply ensure_file_spec in He
    as [(h0 & Hg0 & _ & ->)|(Hnone & [(e & [=] & _)|[(e & [=] & _)|(flat0 & Hflat0 & _ & ->)]])].
  - rewrite Hg0. rewrite Hg in Hg0. injection Hg0 as <-.
    split; [eauto 10|].
    intros topic h0 Hne Hg0. rewrite list_lookup_insert_ne; [done|].
    intros <-. apply Hne. by eapply wf_inj.
  - rewrite Hnone. simpl in Hg, Hf. rewrite dict_get_set in Hg.
    case_decide; [|done]. injection Hg as <-.
    rewrite lookup_app_r in Hf by done. rewrite Nat.sub_diag in Hf. injection Hf as <-.
    rewrite Hflat in Hflat0. injection Hflat0 as <-. simpl.
    split; [done|].
    intros topic h0 Hne Hg0. pose proof (wf_handles _ Hwf _ _ Hg0) as Hlt.
    rewrite list_lookup_insert_ne by lia. by rewrite lookup_app_l.
Qed.

Lemma on_topic_cons topic m msgs :
  on_topic topic (m :: msgs) =
  if String.eqb (topic_of m) topic then m :: on_topic topic msgs else on_topic topic msgs.
Proof. done. Qed.

(** The rows a completed loop adds to the file of a topic are those of
    the messages on the topic, in the order read. *)
Lemma dump_loop_rows msgs : forall st0 st,
  wf_state st0 ->
  dump_loop type_map output_path msgs st0 = (Ok tt, st) ->
  forall topic h f,
    dict_get (file_map st) topic = Some h -> files st !! h = Some f ->
    exists rows,
      Forall2 (row_for type_map st topic) (on_topic topic msgs) rows /\
      match dict_get (file_map st0) topic with
      | Some h0 => exists f0, files st0 !! h0 = Some f0 /\ flines f = flines f0 ++ rows
      | None => exists header, flines f = header :: rows
      end.
Proof.
  induction msgs as [|[[topic' data] ts] msgs IH]; intros st0 st Hwf H topic h f Hg Hf.
  { injection H as <-. exists []. split; [constructor|]. rewrite Hg.
    exists f. by rewrite app_nil_r. }
  change (dump_loop type_map output_path ((topic', data, ts) :: msgs) st0)
    with ((loop_body type_map output_path (topic', data, ts);;
           dump_loop type_map output_path msgs) st0) in H.
  apply bind_inv in H as [(e & _ & [=])|([] & s1 & H1 & H)].
  pose proof (wf_loop_body _ _ _ _ _ _ Hwf H1) as Hwf1.
  pose proof (wf_dump_loop _ _ _ _ _ _ Hwf1 H) as Hwf'.
  destruct (IH s1 st Hwf1 H topic h f Hg Hf) as (rows & Hrows & Hlines).
  rewrite on_topic_cons. unfold topic_of at 1. simpl.
  apply loop_body_files in H1
    as [(Hs & ->)|(Hs & msg & t & s & rel & flat & h1 & f1 & Hd & Ht & Hst & Hrel & Hflat
                   & Hg1 & Hf1 & Hcase & Hother)]; [| |done].
  - destruct (String.eqb_spec topic' topic) as [->|Hne]; [|by exists rows].
    by rewrite (wf_noskip _ Hwf' topic Hs) in Hg.
  - destruct (String.eqb_spec topic' topic) as [->|Hne].
    + rewrite Hg1 in Hlines. destruct Hlines as (f1' & Hf1' & Hl).
      rewrite Hf1 in Hf1'. injection Hf1' as <-.
      exists (row_line rel flat :: rows). split.
      * constructor; [|done]. exists msg, t, s, rel, flat. simpl.
        do 2 (split; [done|]). split; [by eapply start_time_stable|done].
      * destruct (dict_get (file_map st0) topic) as [h0|].
        -- destruct Hcase as (_ & f0 & Hf0 & Hl0). exists f0. split; [done|].
           by rewrite Hl, Hl0, <- app_assoc.
        -- destruct Hcase as (_ & Hl0). exists (header_line flat). by rewrite Hl, Hl0.
    + exists rows. split; [done|].
      assert (dict_get (file_map s1) topic = dict_get (file_map st0) topic) as Hsame.
      { destruct (dict_get (file_map st0) topic') as [h0|].
        - destruct Hcase as (-> & _). done.
        - destruct Hcase as (-> & _). rewrite dict_get_set. by case_decide. }
      rewrite Hsame in Hlines.
      destruct (dict_get (file_map st0) topic) as [h0|] eqn:Hg0; [|done].
      destruct Hlines as (f0 & Hf0 & Hl). exists f0. split; [|done].
      rewrite <- Hf0. symmetry. by eapply Hother.
Qed.
End TopicRows.

Section DictKeys.
Context {V : Type}.
Implicit Types (d : list (string * V)).

Lemma dict_get_None_keys d k : dict_get d k = None <-> k ∉ map fst d.
Proof.
  induction d as [|[k' v] d IH]; simpl.
  - split; [intros _; apply not_elem_of_nil|done].
  - rewrite not_elem_of_cons. destruct (String.eqb_spec k' k) as [->|Hne].
    + split; [done|]. by intros [? _].
    + rewrite IH. split; [by intros ?; split|by intros [_ ?]].
Qed.

Lemma dict_get_Some_keys d k : is_Some (dict_get d k) <-> k ∈ map fst d.
Proof.
  destruct (dict_get d k) as [v|] eqn:H.
  - split; [intros _|by eauto]. destruct (decide (k ∈ map fst d)) as [|Hn]; [done|].
    apply dict_get_None_keys in Hn. congruence.
  - apply dict_get_None_keys in H. split; [by intros [? [=]]|done].
Qed.

Lemma dict_keys_set_new d k v :
  dict_get d k = None -> map fst (dict_set d k v) = map fst d ++ [k].
Proof.
  induction d as [|[k' v'] d IH]; simpl; [done|].
  destruct (String.eqb k' k); [done|]. intros H. simpl. by rewrite IH.
Qed.
End DictKeys.

Section TopicKeys.
Context `{rt : Runtime}.
Variable type_map : gmap string string.
Variable output_path : string.

(** What an iteration does to [file_map]: nothing, or it adds its topic
    with a new file object named after the topic. *)
Lemma loop_body_file_map topic data timestamp st r st' :
  loop_body type_map output_path (topic, data, timestamp) st = (r, st') ->
  (file_map st' = file_map st /\ (r = Ok tt -> length (files st') = length (files st))) \/
  ((topic ∉ SKIP_TOPICS) /\ dict_get (file_map st) topic = None /\
   file_map st' = dict_set (file_map st) topic (length (files st)) /\
   (r = Ok tt -> length (files st') = S (length (files st))) /\
   exists f, files st' !! length (files st) = Some f /\
             fname f = csv_filename output_path topic).
Proof.
  intros H. apply loop_body_spec in H
    as [(_ & _ & ->)|(Hs & [(e & _ & _ & ->)|(msg & _ & [(e & He & ->)|(st1 & He & Hw)])])];
    [by left..| |].
  - left. split; [|done]. apply ensure_file_spec in He
      as [(h & _ & [=] & _)|(_ & [(e' & _ & ->)|[(e' & _ & ->)|(flat & _ & [=] & _)]])]; done.
  - pose proof (file_map_write_row _ _ _ _ _ _ Hw) as Hfm.
    pose proof (extends_write_row _ _ _ _ _ _ Hw) as [_ Hext].
    assert (r = Ok tt -> length (files st') = length (files st1)) as Hlen.
    { intros ->. apply write_row_spec in Hw
        as [(e & [=] & _)|(h & f & t & s & rel & flat & _ & _ & _ & _ & _ & _ & _ & _ & ->)].
      by rewrite files_row_written, length_insert, files_started. }
    apply ensure_file_spec in He
      as [(h & _ & _ & ->)|(Hnone & [(e' & [=] & _)|[(e' & [=] & _)|(flat & _ & _ & ->)]])].
    + left. done.
    + right. split; [done|]. split; [done|]. split; [done|]. split.
      * intros Hr. rewrite (Hlen Hr). simpl. rewrite length_app. simpl. lia.
      * destruct (Hext (length (files st))
                    (File_ (csv_filename output_path topic) [header_line flat] false))
          as (f' & Hf' & Hn & _).
        { simpl. rewrite lookup_app_r by done. by rewrite Nat.sub_diag. }
        eauto.
Qed.

(** The keys of [file_map] are distinct. *)
Lemma keys_NoDup msgs st r st' :
  NoDup (map fst (file_map st)) ->
  dump_loop type_map output_path msgs st = (r, st') -> NoDup (map fst (file_map st')).
Proof.
  apply (dump_loop_inv (fun st => NoDup (map fst (file_map st)))).
  intros [[topic data] ts] s r' s' _ Hnd H.
  apply loop_body_file_map in H as [[-> _]|(_ & Hnone & -> & _)]; [done|].
  rewrite dict_keys_set_new by done. apply NoDup_app. split; [done|]. split.
  - intros k Hk ->%list_elem_of_singleton. by apply dict_get_None_keys in Hnone.
  - apply NoDup_singleton.
Qed.

(** Every key of [file_map] is the topic of a message that is not skipped. *)
Lemma keys_from_bag msgs r st' :
  dump_loop type_map output_path msgs init_state = (r, st') ->
  forall topic, is_Some (dict_get (file_map st') topic) -> topic ∈ map topic_of (processed msgs).
Proof.
  apply (dump_loop_inv
    (fun st => forall topic, is_Some (dict_get (file_map st) topic) ->
                             topic ∈ map topic_of (processed msgs))); [|by intros ? [? [=]]].
  intros [[topic data] ts] s r' s' Hin Hinv H topic' Hsome.
  apply loop_body_file_map in H as [[Hfm _]|(Hs & _ & Hfm & _)]; rewrite Hfm in Hsome; [auto|].
  rewrite dict_get_set in Hsome. case_decide; [subst topic'|auto].
  apply list_elem_of_In, in_map_iff. exists (topic, data, ts). split; [done|].
  apply filter_In. split; [done|]. simpl. by rewrite bool_decide_eq_false_2.
Qed.

(** After a completed loop every topic with a message is a key. *)
Lemma keys_complete msgs : forall st st',
  dump_loop type_map output_path msgs st = (Ok tt, st') ->
  forall topic, topic ∈ map topic_of (processed msgs) ->
                is_Some (dict_get (file_map st') topic).
Proof.
  induction msgs as [|[[topic data] ts] msgs IH]; intros st st' H topic' Hin.
  { by apply elem_of_nil in Hin. }
  change (dump_loop type_map output_path ((topic, data, ts) :: msgs) st)
    with ((loop_body type_map output_path (topic, data, ts);;
           dump_loop type_map output_path msgs) st) in H.
  apply bind_inv in H as [(e & _ & [=])|([] & s1 & H1 & H)].
  rewrite processed_cons in Hin. destruct (decide (topic ∈ SKIP_TOPICS)) as [Hs|Hs].
  { by eapply IH. }
  simpl in Hin. apply elem_of_cons in Hin as [->|Hin]; [|by eapply IH].
  apply loop_body_registers in H1 as [?|[h Hh]]; [done|].
  apply extends_dump_loop in H as [He _]. unfold topic_of. simpl. eauto.
Qed.

(** The file object of a key is named after the key. *)
Lemma keys_named msgs r st' :
  dump_loop type_map output_path msgs init_state = (r, st') ->
  forall topic h, dict_get (file_map st') topic = Some h ->
    exists f, files st' !! h = Some f /\ fname f = csv_filename output_path topic.
Proof.
  apply (dump_loop_inv
    (fun st => wf_state st /\ forall topic h, dict_get (file_map st) topic = Some h ->
       exists f, files st !! h = Some f /\ fname f = csv_filename output_path topic));
    [|split; [apply wf_init|done]].
  intros [[topic data] ts] s r' s' _ [Hwf Hinv] H.
  split; [by eapply wf_loop_body|]. intros topic' h Hg.
  pose proof (extends_loop_body _ _ _ _ _ _ H) as [He1 He2].
  destruct (dict_get (file_map s) topic') as [h0|] eqn:Hg0.
  - apply He1 in Hg0 as Hg0'. rewrite Hg in Hg0'. injection Hg0' as ->.
    destruct (Hinv _ _ Hg0) as (f & Hf & Hn). destruct (He2 _ _ Hf) as (f' & Hf' & Hn' & _).
    exists f'. split; [done|congruence].
  - apply loop_body_file_map in H as [[Hfm _]|(_ & _ & Hfm & _ & f & Hf & Hn)];
      rewrite Hfm in Hg; [congruence|].
    rewrite dict_get_set in Hg. case_decide; [|congruence]. subst topic'.
    injection Hg as <-. eauto.
Qed.

(** After a completed loop the handles, in the order of the keys, are
    [0, 1, ...]: one file object for each key. *)
Lemma handles_seq msgs st' :
  dump_loop type_map output_path msgs init_state = (Ok tt, st') ->
  map snd (file_map st') = seq 0 (length (files st')).
Proof.
  apply (dump_loop_inv_ok (fun st => map snd (file_map st) = seq 0 (length (files st))));
    [|done].
  intros [[topic data] ts] s s' _ Hinv H.
  apply loop_body_file_map in H as [[-> Hl]|(_ & Hnone & -> & Hl & _)].
  - by rewrite Hl.
  - rewrite Hl by done. change (map snd ?d) with (dict_values d).
    rewrite dict_values_set_new by done. rewrite seq_S. simpl. f_equal. exact Hinv.
Qed.
End TopicKeys.

Section PassFiles.
Context `{rt : Runtime}.

Lemma close_each_start_time hs st r st' :
  close_each hs st = (r, st') -> start_time st' = start_time st.
Proof.
  revert st. induction hs as [|h hs IH]; intros st H; simpl in H.
  - by injection H as <- <-.
  - apply bind_inv in H as [(e & H & _)|([] & s1 & H1 & H)].
    + apply close_file_spec in H. by subst st'.
    + apply close_file_spec in H1. apply IH in H. rewrite H. by subst s1.
Qed.

(** What a call of [dump_bag] that returns has done: the loop ran to
    completion on the messages of the bag, and the files were closed. *)
Lemma dump_bag_returns bag_path output_path n st :
  dump_bag bag_path output_path init_state = (Ok n, st) ->
  exists b st1,
    open_reader bag_path = Ok b /\
    dump_loop (make_type_map (topics_and_types b)) output_path (messages b) init_state
      = (Ok tt, st1) /\
    n = length (file_map st1) /\
    file_map st = file_map st1 /\
    start_time st = start_time st1 /\
    length (files st) = length (files st1) /\
    forall h f, files st !! h = Some f ->
      exists f1, files st1 !! h = Some f1 /\ fname f = fname f1 /\ flines f = flines f1.
Proof.
  intros H. apply dump_bag_spec in H
    as [(e & _ & [=] & _)|(b & Hb & [(_ & [=] & _)|(_ & r1 & st1 & Hl & H)])].
  destruct H as [(e & _ & [=] & _)|(-> & r2 & Hc & [(e & _ & [=])|(-> & [= ->])])].
  exists b, st1. split; [done|]. split; [done|].
  pose proof (close_each_preserves _ _ _ _ Hc) as [Hfm Hfiles].
  split; [by rewrite Hfm|]. split; [done|].
  split; [by eapply close_each_start_time|].
  split; [by apply close_each_closes in Hc as [? _]|done].
Qed.

(** X9: when [dump_bag] returns, the keys of [file_map] are the
    topics that have a message outside the skip set, each once; the
    value returned is their number, and as many file objects were
    opened, the i-th for the i-th key, each named after its topic. *)
Theorem one_file_per_topic (bag_path output_path : string) n st b :
  dump_bag bag_path output_path init_state = (Ok n, st) ->
  open_reader bag_path = Ok b ->
  Permutation (map fst (file_map st)) (topics_of (messages b)) /\
  n = length (topics_of (messages b)) /\
  length (files st) = n /\
  map snd (file_map st) = seq 0 n /\
  forall topic h, dict_get (file_map st) topic = Some h ->
    exists f, files st !! h = Some f /\ fname f = csv_filename output_path topic.
Proof.
  intros H Hb. apply dump_bag_returns in H
    as (b' & st1 & Hb' & Hl & -> & Hfm & _ & Hlen & Hfiles).
  rewrite Hb in Hb'. injection Hb' as <-.
  assert (Permutation (map fst (file_map st1)) (topics_of (messages b))) as Hperm.
  { apply NoDup_Permutation.
    - eapply keys_NoDup; [|exact Hl]. constructor.
    - apply NoDup_remove_dups.
    - intros topic. unfold topics_of. rewrite elem_of_remove_dups, <- dict_get_Some_keys.
      split; [by eapply keys_from_bag|by eapply keys_complete]. }
  pose proof (handles_seq _ _ _ _ Hl) as Hseq.
  assert (length (files st1) = length (file_map st1)) as Hcount.
  { rewrite <- (length_map snd (file_map st1)), Hseq. by rewrite length_seq. }
  rewrite Hfm. split; [done|]. split.
  { rewrite <- (Permutation_length Hperm). by rewrite length_map. }
  split; [congruence|]. split; [by rewrite Hseq, Hcount|].
  intros topic h Hg. destruct (keys_named _ _ _ _ _ Hl topic h Hg) as (f1 & Hf1 & Hn).
  destruct (lookup_lt_is_Some_2 (files st) h) as [f Hf].
  { rewrite Hlen. by eapply lookup_lt_Some. }
  destruct (Hfiles h f Hf) as (f1' & Hf1' & Hn' & _).
  exists f. split; [done|]. congruence.
Qed.

(** X10: when [dump_bag] returns, what was printed to the file object
    of a topic is one header line and then one row for each message of
    the bag on that topic, in the order the messages were read; the
    row of a message is made of its resolved time minus the start time
    and its values. *)
Theorem completed_pass_rows (bag_path output_path : string) n st b topic h f :
  dump_bag bag_path output_path init_state = (Ok n, st) ->
  open_reader bag_path = Ok b ->
  dict_get (file_map st) topic = Some h -> files st !! h = Some f ->
  exists header rows,
    flines f = header :: rows /\
    Forall2 (row_for (make_type_map (topics_and_types b)) st topic)
            (on_topic topic (messages b)) rows /\
    length (flines f) = S (length (on_topic topic (messages b))).
Proof.
  intros H Hb Hg Hf. apply dump_bag_returns in H
    as (b' & st1 & Hb' & Hl & _ & Hfm & Hst & _ & Hfiles).
  rewrite Hb in Hb'. injection Hb' as <-.
  destruct (Hfiles h f Hf) as (f1 & Hf1 & _ & Hlines). rewrite Hfm in Hg.
  destruct (dump_loop_rows _ _ _ _ _ wf_init Hl topic h f1 Hg Hf1) as (rows & Hrows & Hhd).
  simpl in Hhd. destruct Hhd as [header Hhd].
  exists header, rows. split; [congruence|]. split.
  - eapply Forall2_impl; [exact Hrows|]. intros m row.
    unfold row_for. by rewrite Hst.
  - rewrite Hlines, Hhd. simpl. f_equal. symmetry. by eapply Forall2_length.
Qed.
Lemma Forall2_In_l {A B} (P : A -> B -> Prop) l l' :
  Forall2 P l l' -> Forall2 (fun a b => In a l /\ P a b) l l'.
Proof.
  induction 1 as [|a b l l' Hab _ IH]; constructor.
  - split; [by left|done].
  - eapply Forall2_impl; [exact IH|]. simpl. intros x y [Hin Hxy]. split; [by right|done].
Qed.

(** X11: when [dump_bag] returns on a bag none of whose messages has a
    header, the start time is the bag timestamp of the first message
    outside the skip set, and the time of every row is the bag
    timestamp of its message minus that one, as an integer. *)
Theorem headerless_bag_times (bag_path output_path : string) n st b
    topic0 data0 timestamp0 rest :
  dump_bag bag_path output_path init_state = (Ok n, st) ->
  open_reader bag_path = Ok b ->
  (forall topic data timestamp msg,
     In (topic, data, timestamp) (processed (messages b)) ->
     decode_message (make_type_map (topics_and_types b)) topic data = Ok msg ->
     hasattr msg "header" = false) ->
  processed (messages b) = (topic0, data0, timestamp0) :: rest ->
  start_time st = Some (NInt timestamp0) /\
  forall topic h f,
    dict_get (file_map st) topic = Some h -> files st !! h = Some f ->
    exists header rows,
      flines f = header :: rows /\
      Forall2 (fun m row =>
                 exists msg flat,
                   decode_message (make_type_map (topics_and_types b)) topic (snd (fst m))
                     = Ok msg /\
                   _gen_msg_values msg "" = Ok flat /\
                   row = row_line (NInt (snd m - timestamp0)) flat)
              (on_topic topic (messages b)) rows.
Proof.
  intros H Hb Hplain Hfirst. apply dump_bag_returns in H
    as (b' & st1 & Hb' & Hl & _ & Hfm & Hst & _ & Hfiles).
  rewrite Hb in Hb'. injection Hb' as <-.
  pose proof (start_time_dump_loop (make_type_map (topics_and_types b)) output_path
                (messages b) init_state (Ok tt) st1 eq_refl Hl) as [Hs1 Hs2].
  assert (start_time st1 = Some (NInt timestamp0)) as Hstart.
  { destruct Hs2 as [s Hs]; [done|by rewrite Hfirst|]. rewrite Hs.
    destruct (Hs1 s Hs) as (topic & ts & msg & data & rest' & Hp & Hd & Ht).
    rewrite Hfirst in Hp. injection Hp as <- <- <- <-.
    unfold resolve_time in Ht. rewrite (Hplain topic0 data0 timestamp0 msg) in Ht.
    - by injection Ht as <-.
    - rewrite Hfirst. by left.
    - done. }
  split; [congruence|]. intros topic h f Hg Hf.
  destruct (Hfiles h f Hf) as (f1 & Hf1 & _ & Hlines). rewrite Hfm in Hg.
  pose proof (wf_dump_loop _ _ _ _ _ _ wf_init Hl) as Hwf.
  destruct (dump_loop_rows _ _ _ _ _ wf_init Hl topic h f1 Hg Hf1) as (rows & Hrows & Hhd).
  simpl in Hhd. destruct Hhd as [header Hhd].
  exists header, rows. split; [congruence|].
  apply Forall2_In_l in Hrows. eapply Forall2_impl; [exact Hrows|]. simpl.
  intros [[topic' data] ts] row [Hin (msg & t & s & rel & flat & Hd & Ht & Hs & Hrel & Hflat & ->)].
  apply filter_In in Hin as [Hin Heq]. apply String.eqb_eq in Heq. unfold topic_of in Heq.
  simpl in Heq. subst topic'.
  simpl in *. exists msg, flat. split; [done|]. split; [done|].
  assert (In (topic, data, ts) (processed (messages b))) as Hp.
  { apply filter_In. split; [done|]. simpl. rewrite bool_decide_eq_false_2; [done|].
    intros Hskip. by rewrite (wf_noskip _ Hwf topic Hskip) in Hg. }
  unfold resolve_time in Ht. rewrite (Hplain topic data ts msg Hp Hd) in Ht. injection Ht as <-.
  rewrite Hstart in Hs. injection Hs as <-. simpl in Hrel. by injection Hrel as <-.
Qed.
End PassFiles.

Section PassCounts.
Context `{rt : Runtime}.




End PassCounts.

Section PassEdges.
Context `{rt : Runtime}.

Lemma dump_loop_app type_map output_path pre post st :
  dump_loop type_map output_path (pre ++ post) st =
  (dump_loop type_map output_path pre;; dump_loop type_map output_path post) st.
Proof.
  revert st. induction pre as [|m pre IH]; intros st; [done|].
  change (dump_loop type_map output_path ((m :: pre) ++ post) st)
    with ((loop_body type_map output_path m;;
           dump_loop type_map output_path (pre ++ post)) st).
  change (dump_loop type_map output_path (m :: pre))
    with (loop_body type_map output_path m;; dump_loop type_map output_path pre).
  unfold mbind, stateM_bind.
  destruct (loop_body type_map output_path m st) as [[[]|e] s1]; [|done].
  apply IH.
Qed.

(** X13: a message outside the skip set that cannot be decoded ends
    the loop with the exception of the decoder, in the state the
    messages before it left; nothing after it is processed.  For a
    topic that is not in [type_map] the exception is [KeyError]. *)
Theorem undecodable_message_aborts type_map (output_path : string)
    pre topic data timestamp post e st0 st1 :
  topic ∉ SKIP_TOPICS ->
  decode_message type_map topic data = Raise e ->
  dump_loop type_map output_path pre st0 = (Ok tt, st1) ->
  dump_loop type_map output_path (pre ++ (topic, data, timestamp) :: post) st0
    = (Raise e, st1) /\
  (type_map !! topic = None -> e = KeyError).
Proof.
  intros Hs Hd Hpre. split.
  - rewrite dump_loop_app. unfold mbind at 1, stateM_bind at 1. rewrite Hpre.
    change (dump_loop type_map output_path ((topic, data, timestamp) :: post) st1)
      with ((loop_body type_map output_path (topic, data, timestamp);;
             dump_loop type_map output_path post) st1).
    unfold mbind at 1, stateM_bind at 1.
    unfold loop_body. rewrite decide_False by done.
    unfold mbind at 1, stateM_bind at 1, lift. by rewrite Hd.
  - intros Hnone. unfold decode_message in Hd. rewrite Hnone in Hd. by injection Hd as <-.
Qed.


Lemma dict_get_app {V} (d d' : list (string * V)) k :
  dict_get (d ++ d') k = match dict_get d k with Some v => Some v | None => dict_get d' k end.
Proof.
  induction d as [|[k' v] d IH]; simpl; [done|]. by destruct (String.eqb k' k).
Qed.

Lemma foldl_type_map (l : list (string * string)) (m : gmap string string) k :
  foldl (fun m nt => <[fst nt := snd nt]> m) m l !! k =
  match dict_get (rev l) k with Some v => Some v | None => m !! k end.
Proof.
  revert m. induction l as [|[k' v] l IH]; intros m; simpl; [done|].
  rewrite IH, dict_get_app. destruct (dict_get (rev l) k); [done|]. simpl.
  destruct (String.eqb_spec k' k) as [->|Hne].
  - by rewrite lookup_insert_eq.
  - by rewrite lookup_insert_ne.
Qed.

(** X15: [type_map] holds, for a topic, the type of the last metadata
    entry of that name, and no entry exactly for the topics that have
    none. *)
Theorem make_type_map_lookup (topic_types : list (string * string)) (topic : string) :
  make_type_map topic_types !! topic = dict_get (rev topic_types) topic /\
  (make_type_map topic_types !! topic = None <-> topic ∉ map fst topic_types) /\
  (forall ty, make_type_map (topic_types ++ [(topic, ty)]) !! topic = Some ty).
Proof.
  assert (forall l, make_type_map l !! topic = dict_get (rev l) topic) as H.
  { intros l. unfold make_type_map. rewrite foldl_type_map.
    by destruct (dict_get (rev l) topic). }
  split; [apply H|]. split.
  - rewrite H, dict_get_None_keys, map_rev.
    split; intros Hn Hin; apply Hn; apply list_elem_of_In; apply list_elem_of_In in Hin;
      by apply in_rev in Hin.
  - intros ty. rewrite H, rev_app_distr. simpl. by rewrite String.eqb_refl.
Qed.
End PassEdges.


(** ** Bag locator, further *)

Lemma os_walk_NDir clear es top :
  os_walk clear (NDir es) top =
  top :: (if clear top then [] else walk_entries clear top es).
Proof.
  simpl. f_equal. destruct (clear top); [done|]. unfold walk_entries.
  induction es as [|[name child] es IH]; [done|]. simpl. by rewrite IH.
Qed.

Lemma os_walk_complete clear q : forall n top es,
  resolve n q = Some (NDir es) ->
  (forall q', q' `prefix_of` q -> q' <> q -> clear (top ++ q') = false) ->
  In (top ++ q) (os_walk clear n top).
Proof.
  induction q as [|name q IH]; intros n top es Hr Hc.
  - simpl in Hr. injection Hr as ->. rewrite app_nil_r, os_walk_NDir. by left.
  - simpl in Hr. destruct n as [|es0]; [done|].
    destruct (lookup_entry es0 name) as [child|] eqn:Hl; [|done].
    rewrite os_walk_NDir. right.
    assert (clear top = false) as ->
      by (rewrite <- (app_nil_r top); apply Hc; [apply prefix_nil|done]).
    unfold walk_entries. apply in_flat_map. exists (name, child).
    split; [by apply lookup_entry_Some|]. simpl.
    assert (is_NDir child = true) as ->.
    { destruct child; [by destruct q|done]. }
    replace (top ++ name :: q) with ((top ++ [name]) ++ q) by by rewrite <- app_assoc.
    eapply IH; [done|]. intros q' Hq' Hne. rewrite <- app_assoc. simpl.
    apply Hc; [by apply prefix_cons|congruence].
Qed.

Lemma find_rosbags_outermost fs root_path p :
  In p (find_rosbags fs root_path) <->
  root_path `prefix_of` p /\ is_rosbag_dir fs p = true /\
  forall q, root_path `prefix_of` q -> q `prefix_of` p -> q <> p ->
            is_rosbag_dir fs q = false.
Proof.
  rewrite find_rosbags_In. split.
  - intros (Hb & n & Hr & Hin). apply os_walk_visited in Hin as [Hpre Hq]. done.
  - intros ([q ->] & Hb & Hq). split; [done|].
    apply is_rosbag_dir_spec in Hb as Hes. destruct Hes as (es & Hr & _).
    rewrite resolve_app in Hr. destruct (resolve fs root_path) as [n|] eqn:Hroot; [|done].
    exists n. split; [done|]. eapply os_walk_complete; [done|].
    intros q' Hq' Hne. apply Hq.
    + by apply prefix_app_r.
    + by apply prefix_app.
    + intros Heq. apply app_inv_head in Heq. done.
Qed.

(** X16: [find_rosbags] returns exactly the bag directories at or
    below the root that have no bag directory strictly above them at
    or below the root. *)
Theorem find_rosbags_outermost_bags (fs : node) (root_path p : path) :
  In p (find_rosbags fs root_path) <->
  root_path `prefix_of` p /\ is_rosbag_dir fs p = true /\
  forall q, root_path `prefix_of` q -> q `prefix_of` p -> q <> p ->
            is_rosbag_dir fs q = false.
Proof. apply find_rosbags_outermost. Qed.

(** X17: [find_rosbags] on a root that is not a directory returns the
    empty list, without raising; on a root that is itself a bag it
    returns the root alone. *)
Theorem find_rosbags_at_root (fs : node) (root_path : path) :
  (is_dir fs root_path = false -> find_rosbags fs root_path = []) /\
  (is_rosbag_dir fs root_path = true -> find_rosbags fs root_path = [root_path]).
Proof.
  unfold find_rosbags. split.
  - unfold is_dir. destruct (resolve fs root_path) as [[|es]|]; done.
  - intros Hb. apply is_rosbag_dir_spec in Hb as Hes. destruct Hes as (es & -> & _).
    rewrite os_walk_NDir, Hb. simpl. by rewrite Hb.
Qed.

Lemma resolve_unique_names fs p n :
  unique_names fs = true -> resolve fs p = Some n -> unique_names n = true.
Proof.
  revert fs. induction p as [|name p IH]; intros fs Hu Hr; simpl in Hr.
  - by injection Hr as <-.
  - destruct fs as [|es]; [done|]. destruct (lookup_entry es name) as [child|] eqn:Hl; [|done].
    eapply IH; [|done]. simpl in Hu. apply andb_prop in Hu as [_ Hu].
    rewrite forallb_forall in Hu. by apply (Hu (name, child)), lookup_entry_Some.
Qed.

Lemma os_walk_prefix clear n top p : In p (os_walk clear n top) -> top `prefix_of` p.
Proof. intros H. by apply os_walk_visited in H as [? _]. Qed.

Lemma os_walk_NoDup clear n : forall top,
  unique_names n = true -> NoDup (os_walk clear n top).
Proof.
  induction n as [|es IH] using node_rect'; intros top Hu; [constructor|].
  rewrite os_walk_NDir. simpl in Hu. apply andb_prop in Hu as [Hnd Hu].
  apply bool_decide_eq_true in Hnd.
  assert (forall p, In p (walk_entries clear top es) ->
            exists name k, In name (map fst es) /\ p = (top ++ [name]) ++ k) as Hshape.
  { intros p Hin. apply in_flat_map in Hin as ([name child] & Hin & Hp). simpl in Hp.
    destruct (is_NDir child); [|done]. apply os_walk_prefix in Hp as [k ->].
    exists name, k. split; [|done]. apply in_map_iff. by exists (name, child). }
  constructor.
  - destruct (clear top); [apply not_elem_of_nil|].
    intros Hin%list_elem_of_In. apply Hshape in Hin as (name & k & _ & Heq).
    rewrite <- app_assoc in Heq. rewrite <- (app_nil_r top) in Heq at 1.
    apply app_inv_head in Heq. done.
  - destruct (clear top); [constructor|]. clear Hshape. unfold walk_entries.
    induction es as [|[name child] es IHes]; [constructor|].
    apply Forall_cons in IH as [IHc IH]. simpl in *.
    apply andb_prop in Hu as [Huc Hu]. apply NoDup_cons in Hnd as [Hname Hnd].
    apply NoDup_app. split; [|split; [|by apply IHes]].
    + destruct (is_NDir child); [by apply IHc|constructor].
    + intros p Hp%list_elem_of_In Hp'%list_elem_of_In.
      destruct (is_NDir child); [|done]. apply os_walk_prefix in Hp as [k ->].
      apply in_flat_map in Hp' as ([name' child'] & Hin' & Hp'). simpl in Hp'.
      destruct (is_NDir child'); [|done]. apply os_walk_prefix in Hp' as [k' Heq].
      rewrite <- !app_assoc in Heq. apply app_inv_head in Heq. injection Heq as <- _.
      apply Hname, list_elem_of_In, in_map_iff. by exists (name, child').
Qed.

Lemma NoDup_list_filter {A} (p : A -> bool) l : NoDup l -> NoDup (List.filter p l).
Proof.
  induction 1 as [|x l Hx Hl IH]; simpl; [constructor|].
  destruct (p x); [|done]. constructor; [|done].
  intros Hin%list_elem_of_In%filter_In. apply Hx, list_elem_of_In. tauto.
Qed.

Lemma find_rosbags_distinct fs root_path :
  unique_names fs = true -> NoDup (find_rosbags fs root_path).
Proof.
  intros Hu. unfold find_rosbags. rewrite <- sorted_perm. apply NoDup_list_filter.
  destruct (resolve fs root_path) as [n|] eqn:Hr; [|constructor].
  apply os_walk_NoDup. by eapply resolve_unique_names.
Qed.

(** X18: in a tree whose directories have no two entries of the same
    name, [find_rosbags] returns no path twice. *)
Theorem find_rosbags_NoDup (fs : node) (root_path : path) :
  unique_names fs = true -> NoDup (find_rosbags fs root_path).
Proof. apply find_rosbags_distinct. Qed.

Lemma sub_tree_resolve p : forall n n' x,
  sub_tree n n' = true -> resolve n p = Some x ->
  exists x', resolve n' p = Some x' /\ sub_tree x x' = true.
Proof.
  induction p as [|name p IH]; intros n n' x Hs Hr; simpl in Hr.
  - injection Hr as <-. by exists n'.
  - destruct n as [|es]; [done|]. destruct (lookup_entry es name) as [c|] eqn:Hl; [|done].
    destruct n' as [|es']; [done|]. simpl in Hs. rewrite forallb_forall in Hs.
    specialize (Hs (name, c) (lookup_entry_Some _ _ _ Hl)). simpl in Hs.
    destruct (lookup_entry es' name) as [c'|] eqn:Hl'; [|done].
    destruct (IH c c' x Hs Hr) as (x' & Hr' & Hx). exists x'. simpl. by rewrite Hl'.
Qed.

Lemma sub_tree_kind x x' : sub_tree x x' = true -> is_NDir x = is_NDir x'.
Proof. by destruct x, x'. Qed.

Lemma same_listing_paths fs fs' p :
  sub_tree fs fs' = true -> sub_tree fs' fs = true ->
  is_dir fs p = is_dir fs' p /\ path_exists fs p = path_exists fs' p.
Proof.
  intros H1 H2. unfold is_dir, path_exists.
  destruct (resolve fs p) as [x|] eqn:Hr, (resolve fs' p) as [x'|] eqn:Hr'.
  - destruct (sub_tree_resolve p _ _ _ H1 Hr) as (y & Hy & Hk). rewrite Hr' in Hy.
    injection Hy as <-. apply sub_tree_kind in Hk. by destruct x, x'.
  - destruct (sub_tree_resolve p _ _ _ H1 Hr) as (y & Hy & _). congruence.
  - destruct (sub_tree_resolve p _ _ _ H2 Hr') as (y & Hy & _). congruence.
  - done.
Qed.

(** [is_rosbag_dir] in terms of which paths exist. *)
Lemma is_rosbag_dir_paths fs p :
  is_rosbag_dir fs p = true <->
  is_dir fs p = true /\ path_exists fs (p ++ ["metadata.yaml"]) = true /\
  exists name, endswith name ".db3" = true /\ path_exists fs (p ++ [name]) = true.
Proof.
  rewrite is_rosbag_dir_spec. unfold is_dir, path_exists. setoid_rewrite resolve_app. split.
  - intros (es & -> & [n Hm] & name & n' & Hin & He). simpl. split; [done|].
    apply lookup_entry_In in Hm as [m ->]. split; [done|]. exists name. split; [done|].
    by apply lookup_entry_In in Hin as [m' ->].
  - intros (Hd & Hm & name & He & Hn). destruct (resolve fs p) as [[|es]|]; try done.
    exists es. split; [done|]. simpl in *. split.
    + destruct (lookup_entry es "metadata.yaml") as [m|] eqn:Hl; [|done].
      exists m. by apply lookup_entry_Some.
    + destruct (lookup_entry es name) as [m|] eqn:Hl; [|done].
      exists name, m. split; [by apply lookup_entry_Some|done].
Qed.

Lemma is_rosbag_dir_same_listing fs fs' p :
  sub_tree fs fs' = true -> sub_tree fs' fs = true ->
  is_rosbag_dir fs p = is_rosbag_dir fs' p.
Proof.
  intros H1 H2.
  assert (forall a b, sub_tree a b = true -> sub_tree b a = true ->
            is_rosbag_dir a p = true -> is_rosbag_dir b p = true) as Hone.
  { intros a b Hab Hba. rewrite !is_rosbag_dir_paths.
    intros (Hd & Hm & name & He & Hn).
    destruct (same_listing_paths a b p Hab Hba) as [<- _].
    destruct (same_listing_paths a b (p ++ ["metadata.yaml"]) Hab Hba) as [_ <-].
    split; [done|]. split; [done|]. exists name. split; [done|].
    by destruct (same_listing_paths a b (p ++ [name]) Hab Hba) as [_ <-]. }
  destruct (is_rosbag_dir fs p) eqn:Hb, (is_rosbag_dir fs' p) eqn:Hb'; try done.
  - by rewrite (Hone fs fs' H1 H2 Hb) in Hb'.
  - by rewrite (Hone fs' fs H2 H1 Hb') in Hb.
Qed.

(** X19: the result of [find_rosbags] does not depend on the order in
    which the directories list their entries: two trees without
    repeated names that have the same entries, in any order, give the
    same list. *)
Theorem find_rosbags_listing_order (fs fs' : node) (root_path : path) :
  unique_names fs = true -> unique_names fs' = true ->
  sub_tree fs fs' = true -> sub_tree fs' fs = true ->
  find_rosbags fs root_path = find_rosbags fs' root_path.
Proof.
  intros Hu Hu' H1 H2. apply sorted_unique.
  - apply NoDup_Permutation; [by apply find_rosbags_distinct..|].
    intros p. rewrite !list_elem_of_In, !find_rosbags_outermost.
    rewrite (is_rosbag_dir_same_listing fs fs' p H1 H2).
    split; intros (Hp & Hb & Hq); (split; [done|]); (split; [done|]);
      intros q Hq1 Hq2 Hne; specialize (Hq q Hq1 Hq2 Hne);
      by rewrite (is_rosbag_dir_same_listing fs fs' q H1 H2) in *.
  - apply sorted_sorted.
  - apply sorted_sorted.
Qed.

(** ** Directory orchestrator, further *)

Lemma relative_to_Ok p root rel : relative_to p root = Ok rel <-> p = root ++ rel.
Proof.
  revert p. induction root as [|r root IH]; intros p.
  - destruct p; simpl; (split; [by intros [= ->]|by intros ->]).
  - destruct p as [|c p]; simpl; [split; [done|by intros [=]]|].
    destruct (String.eqb_spec r c) as [->|Hne].
    + rewrite IH. split; [by intros ->|by intros [= ->]].
    + split; [done|]. intros [= -> _]. done.
Qed.

Lemma relative_to_Raise p root e : relative_to p root = Raise e -> e = ValueError.
Proof.
  revert p. induction root as [|r root IH]; intros p; [by destruct p|].
  destruct p as [|c p]; simpl; [by intros [= <-]|].
  destruct (String.eqb r c); [apply IH|by intros [= <-]].
Qed.

(** X20: [get_relative_structure] returns [rel] exactly for the path
    [root_path / rel], and raises [ValueError] exactly for a path that
    is not at or below the root. *)
Theorem get_relative_structure_inverts_join (bag_path root_path : path) :
  (forall rel, get_relative_structure bag_path root_path = Ok rel <->
               bag_path = root_path ++ rel) /\
  (forall rel, get_relative_structure (root_path ++ rel) root_path = Ok rel) /\
  (get_relative_structure bag_path root_path = Raise ValueError <->
   ~ root_path `prefix_of` bag_path).
Proof.
  unfold get_relative_structure. split; [|split].
  - intros rel. apply relative_to_Ok.
  - intros rel. by apply relative_to_Ok.
  - split.
    + intros H [rel ->]. by rewrite (proj2 (relative_to_Ok _ _ rel)) in H.
    + intros Hn. destruct (relative_to bag_path root_path) as [rel|e] eqn:H.
      * apply relative_to_Ok in H as ->. destruct Hn. by exists rel.
      * by apply relative_to_Raise in H as ->.
Qed.

(** X21: the output directories [csv_dir / rel] of the bags
    [find_rosbags] returns are not nested in one another; in
    particular no two bags are dumped into the same directory. *)
Theorem output_dirs_not_nested (fs : node) (root_path csv_dir bag1 bag2 rel1 rel2 : path) :
  In bag1 (find_rosbags fs root_path) -> In bag2 (find_rosbags fs root_path) ->
  get_relative_structure bag1 root_path = Ok rel1 ->
  get_relative_structure bag2 root_path = Ok rel2 ->
  (csv_dir ++ rel1) `prefix_of` (csv_dir ++ rel2) ->
  bag1 = bag2.
Proof.
  intros H1 H2 Hr1 Hr2 Hpre. unfold get_relative_structure in *.
  apply relative_to_Ok in Hr1 as ->. apply relative_to_Ok in Hr2 as ->.
  apply prefix_app_inv in Hpre.
  apply find_rosbags_outermost in H1 as (_ & Hb1 & _).
  apply find_rosbags_outermost in H2 as (_ & _ & Hq).
  destruct (decide (root_path ++ rel1 = root_path ++ rel2)) as [|Hne]; [done|].
  rewrite Hq in Hb1; [done| |by apply prefix_app|done]. by apply prefix_app_r.
Qed.

Section MainBranches.
Context `{rt : Runtime}.

(** The branches of [main]. *)
Lemma main_cases fs input_path r w :
  run_main fs input_path = (r, w) ->
  (path_exists fs input_path = false /\
   r = Raise (SystemExit 1) /\ w = World fs [] [] [ErrNotExist input_path]) \/
  (path_exists fs input_path = true /\ is_dir fs input_path = false /\
   r = Raise (SystemExit 1) /\ w = World fs [] [] [ErrNotDir input_path]) \/
  (is_dir fs input_path = true /\ is_rosbag_dir fs input_path = true /\
   process_single_bag input_path input_path (World fs [] [] []) = (r, w)) \/
  (is_dir fs input_path = true /\ is_rosbag_dir fs input_path = false /\
   path_exists fs (input_path ++ ["ros2bag"]) = true /\
   process_structured_bags input_path (World fs [] [] []) = (r, w)) \/
  (is_dir fs input_path = true /\ is_rosbag_dir fs input_path = false /\
   path_exists fs (input_path ++ ["ros2bag"]) = false /\
   find_rosbags fs input_path = [] /\
   r = Raise (SystemExit 1) /\
   w = World fs [] [] [ErrNoBagsIn input_path; ErrExpected]) \/
  (is_dir fs input_path = true /\ is_rosbag_dir fs input_path = false /\
   path_exists fs (input_path ++ ["ros2bag"]) = false /\
   find_rosbags fs input_path <> [] /\
   (mkdir (input_path ++ ["csv"]);;
    process_each input_path (input_path ++ ["csv"]) (find_rosbags fs input_path);;
    print_out MsgAllProcessed)
     (World fs [] [MsgFoundIn (length (find_rosbags fs input_path)) input_path;
                   MsgNoteCsvHere] []) = (r, w)).
Proof.
  unfold run_main, main. intros H.
  apply bind_inv in H as [(e & [=] & _)|(w0 & w0' & [= <- <-] & H)]. simpl in H.
  destruct (path_exists fs input_path) eqn:Hex; simpl in H.
  2: { left. by injection H as <- <-. }
  destruct (is_dir fs input_path) eqn:Hdir; simpl in H.
  2: { right. left. by injection H as <- <-. }
  destruct (is_rosbag_dir fs input_path) eqn:Hbag.
  { right. right. left. done. }
  destruct (path_exists fs (input_path ++ ["ros2bag"])) eqn:Hros.
  { right. right. right. left. done. }
  destruct (find_rosbags fs input_path) as [|bag bags] eqn:Hfind.
  { right. right. right. right. left. by injection H as <- <-. }
  right. right. right. right. right. done.
Qed.
End MainBranches.

Section MainRuns.
Context `{rt : Runtime}.

(** One bag: the call is recorded; the second line is printed when it
    returns. *)
Lemma process_single_bag_run bag_path output_path w r w' :
  process_single_bag bag_path output_path w = (r, w') ->
  exists r0 st,
    dump_bag (path_str bag_path) (path_str output_path) init_state = (r0, st) /\
    tree w' = tree w /\ stderr w' = stderr w /\
    dumps w' = dumps w ++ [DumpCall (path_str bag_path) (path_str output_path) r0 st] /\
    match r0 with
    | Ok n => r = Ok tt /\
              stdout w' = stdout w ++ [MsgProcessing bag_path; MsgCreated n output_path]
    | Raise e => r = Raise e /\ stdout w' = stdout w ++ [MsgProcessing bag_path]
    end.
Proof.
  unfold process_single_bag, call_dump_bag, print_out, modify, mbind, stateM_bind. simpl.
  destruct (dump_bag (path_str bag_path) (path_str output_path) init_state) as [[n|e] st].
  - intros [= <- <-]. exists (Ok n), st. simpl. rewrite <- app_assoc. done.
  - intros [= <- <-]. exists (Raise e), st. done.
Qed.

(** The loop over the bags: nothing is printed to [stderr], the tree is
    not touched, one call is recorded for each bag up to the first call
    that raises. *)
Lemma process_each_run root_path csv_dir rosbags : forall w r w',
  Forall (fun bag => root_path `prefix_of` bag) rosbags ->
  process_each root_path csv_dir rosbags w = (r, w') ->
  tree w' = tree w /\ stderr w' = stderr w /\
  (exists out, stdout w' = stdout w ++ out) /\
  exists calls,
    dumps w' = dumps w ++ calls /\
    length calls <= length rosbags /\
    (rosbags <> [] -> calls <> []) /\
    (r = Ok tt -> Forall call_ok calls /\ length calls = length rosbags) /\
    (forall e, r = Raise e -> exists c, last calls = Some c /\ call_result c = Raise e).
Proof.
  induction rosbags as [|bag rosbags IH]; intros w r w' Hpre H.
  { injection H as <- <-. do 2 (split; [done|]). split; [exists []; by rewrite app_nil_r|].
    exists []. rewrite app_nil_r. repeat split; try done; try constructor. }
  apply Forall_cons in Hpre as [Hbag Hpre]. simpl in H.
  rewrite relative_to_prefix in H by done.
  apply bind_inv in H as [(e & [=] & _)|(rel & w0 & [= <- <-] & H)].
  apply bind_inv in H as [(e & H & ->)|([] & w1 & H1 & H)].
  - apply process_single_bag_run in H as (r0 & st & _ & Ht & Hse & Hd & Hr).
    destruct r0 as [n|e0]; destruct Hr as [[=] Hso]. subst e0.
    do 2 (split; [done|]). split; [eauto|].
    eexists. split; [exact Hd|]. simpl. split; [lia|]. split; [done|]. split; [done|].
    intros e' [= <-]. eexists. split; [done|]. done.
  - apply process_single_bag_run in H1 as (r0 & st & _ & Ht & Hse & Hd & Hr).
    destruct r0 as [n|e0]; destruct Hr as [[=] Hso].
    apply IH in H as (Ht' & Hse' & [out Hso'] & calls & Hd' & Hlen & _ & Hok & Hraise); [|done].
    split; [congruence|]. split; [congruence|]. split.
    { rewrite Hso', Hso, <- app_assoc. eauto. }
    exists (DumpCall (path_str bag) (path_str (csv_dir ++ drop (length root_path) bag)) (Ok n) st
            :: calls).
    split. { rewrite Hd', Hd, <- app_assoc. done. }
    split; [simpl; lia|]. split; [done|]. split.
    + intros Hr. destruct (Hok Hr) as [Hall Hl]. split; [|simpl; lia].
      constructor; [|done]. by exists n.
    + intros e Hr. destruct (Hraise e Hr) as (c & Hlast & Hc). exists c. split; [|done].
      destruct calls; [done|]. done.
Qed.

(** The branches of [process_structured_bags] when [ros2bag] exists. *)
Lemma process_structured_bags_cases input_root w0 r w :
  path_exists (tree w0) (input_root ++ ["ros2bag"]) = true ->
  process_structured_bags input_root w0 = (r, w) ->
  (exists e, mkdir_exist_ok (tree w0) (input_root ++ ["csv"]) = Raise e /\
     r = Raise e /\ w = w0) \/
  (exists fs', mkdir_exist_ok (tree w0) (input_root ++ ["csv"]) = Ok fs' /\
     let rosbags := find_rosbags fs' (input_root ++ ["ros2bag"]) in
     (rosbags = [] /\ r = Raise (SystemExit 1) /\
      w = World fs' (dumps w0) (stdout w0)
                (stderr w0 ++ [ErrNoBagsUnder (input_root ++ ["ros2bag"])])) \/
     (rosbags <> [] /\
      (process_each (input_root ++ ["ros2bag"]) (input_root ++ ["csv"]) rosbags;;
       print_out MsgAllProcessed)
        (World fs' (dumps w0) (stdout w0 ++ [MsgFound (length rosbags)]) (stderr w0))
      = (r, w))).
Proof.
  intros Hex H. unfold process_structured_bags in H.
  apply bind_inv in H as [(e & [=] & _)|(w1 & w1' & [= <- <-] & H)].
  rewrite Hex in H. simpl in H.
  apply bind_inv in H as [(e & [=] & _)|([] & w1 & [= <-] & H)].
  apply bind_inv in H as [(e & H & ->)|([] & w1 & H1 & H)].
  { unfold mkdir in H.
    apply bind_inv in H as [(e' & [=] & _)|(w2 & w2' & [= <- <-] & H)].
    apply bind_inv in H as [(e' & [= H <-] & [= ->])|(t & w2 & _ & [=])].
    left. eauto. }
  unfold mkdir in H1.
  apply bind_inv in H1 as [(e' & [=] & _)|(w2 & w2' & [= <- <-] & H1)].
  apply bind_inv in H1 as [(e' & _ & [=])|(fs' & w2 & [= Hmk <-] & [= <-])].
  apply bind_inv in H as [(e & [=] & _)|(w2 & w2' & [= <- <-] & H)].
  simpl in H. right. exists fs'. split; [done|]. simpl.
  destruct (find_rosbags fs' (input_root ++ ["ros2bag"])) as [|bag bags] eqn:Hfind.
  - left. split; [done|].
    apply bind_inv in H as [(e & H & ->)|([] & w2 & H2 & _)].
    + by injection H as <- <-.
    + by injection H2.
  - right. split; [done|].
    apply bind_inv in H as [(e & [=] & _)|([] & w2 & [= <-] & H)].
    apply bind_inv in H as [(e & [=] & _)|([] & w2 & [= <-] & H)].
    exact H.
Qed.
End MainRuns.

Lemma is_dir_exists fs p : is_dir fs p = true -> path_exists fs p = true.
Proof. unfold is_dir, path_exists. by destruct (resolve fs p) as [[|]|]. Qed.

Lemma is_rosbag_dir_is_dir fs p : is_rosbag_dir fs p = true -> is_dir fs p = true.
Proof. unfold is_rosbag_dir. by destruct (is_dir fs p). Qed.

Lemma child_exists_is_dir fs p name :
  path_exists fs (p ++ [name]) = true -> is_dir fs p = true.
Proof.
  unfold path_exists, is_dir. rewrite resolve_app.
  by destruct (resolve fs p) as [[|es]|].
Qed.

(** [mkdir(exist_ok=True)] on the entry [name] of a directory. *)
Lemma mkdir_entry fs p name :
  is_dir fs p = true ->
  match resolve fs (p ++ [name]) with
  | Some (NDir _) => mkdir_exist_ok fs (p ++ [name]) = Ok fs
  | Some NFile => mkdir_exist_ok fs (p ++ [name]) = Raise FileExistsError
  | None =>
      exists fs', mkdir_exist_ok fs (p ++ [name]) = Ok fs' /\
        resolve fs' (p ++ [name]) = Some (NDir []) /\
        forall name' q, name' <> name ->
          resolve fs' (p ++ name' :: q) = resolve fs (p ++ name' :: q)
  end.
Proof.
  unfold is_dir. destruct (resolve fs p) as [[|es]|] eqn:Hp; try done. intros _.
  pose proof (mkdir_child fs p name es Hp) as H.
  rewrite resolve_app, Hp. simpl.
  destruct (lookup_entry es name) as [[|es']|]; done.
Qed.

Section MainModes.
Context `{rt : Runtime}.

(** X22: [main] on an input that does not exist, or that exists and
    is not a directory, prints the one error message for it and exits
    with status 1, having touched nothing. *)
Theorem main_rejects_bad_input (fs : node) (input_path : path) :
  (path_exists fs input_path = false ->
   run_main fs input_path =
   (Raise (SystemExit 1), World fs [] [] [ErrNotExist input_path])) /\
  (path_exists fs input_path = true -> is_dir fs input_path = false ->
   run_main fs input_path =
   (Raise (SystemExit 1), World fs [] [] [ErrNotDir input_path])).
Proof.
  destruct (run_main fs input_path) as [r w] eqn:H.
  apply main_cases in H
    as [(Hex & -> & ->)|[(Hex & Hd & -> & ->)|[(Hd & _)|[(Hd & _)|[(Hd & _)|(Hd & _)]]]]];
    (split; [intros Hex'|intros Hex' Hd']);
    try apply is_dir_exists in Hd as Hex''; congruence.
Qed.

(** X23: [main] on an input that is itself a bag calls [dump_bag]
    once, with the input as bag and as output directory, whatever else
    the input contains; the second line is printed when the call
    returns, and an exception of the call propagates. *)
Theorem main_single_bag (fs : node) (input_path : path) r w :
  is_rosbag_dir fs input_path = true ->
  run_main fs input_path = (r, w) ->
  exists r0 st,
    dump_bag (path_str input_path) (path_str input_path) init_state = (r0, st) /\
    tree w = fs /\ stderr w = [] /\
    dumps w = [DumpCall (path_str input_path) (path_str input_path) r0 st] /\
    match r0 with
    | Ok n => r = Ok tt /\
              stdout w = [MsgProcessing input_path; MsgCreated n input_path]
    | Raise e => r = Raise e /\ stdout w = [MsgProcessing input_path]
    end.
Proof.
  intros Hbag H. apply is_rosbag_dir_is_dir in Hbag as Hdir.
  apply is_dir_exists in Hdir as Hex.
  apply main_cases in H
    as [(? & _)|[(_ & ? & _)|[(_ & _ & H)|[(_ & ? & _)|[(_ & ? & _)|(_ & ? & _)]]]]];
    try congruence.
  by apply process_single_bag_run in H.
Qed.

(** X24: [main] on a directory that is no bag, has no [ros2bag] and
    holds bags: [csv] is made in the input directory and [dump_bag] is
    called, in the order of [find_rosbags], for the bags found before
    [csv] was made, each with the output directory at the same
    relative path under [csv]; all of them when the run returns. *)
Theorem scan_mode_mirrors (fs : node) (input_path : path) r w :
  is_dir fs input_path = true ->
  is_rosbag_dir fs input_path = false ->
  path_exists fs (input_path ++ ["ros2bag"]) = false ->
  find_rosbags fs input_path <> [] ->
  resolve fs (input_path ++ ["csv"]) <> Some NFile ->
  run_main fs input_path = (r, w) ->
  let csv_dir := input_path ++ ["csv"] in
  let rosbags := find_rosbags fs input_path in
  is_dir (tree w) csv_dir = true /\
  (exists k, k <= length rosbags /\
     map call_args (dumps w) = take k (map (mirrored input_path csv_dir) rosbags) /\
     (r = Ok tt -> k = length rosbags)) /\
  Forall call_faithful (dumps w) /\
  stderr w = [].
Proof.
  intros Hdir Hbag Hros Hfind Hcsv H csv_dir rosbags. fold csv_dir in Hcsv.
  apply is_dir_exists in Hdir as Hex.
  apply main_cases in H
    as [(? & _)|[(_ & ? & _)|[(_ & ? & _)|[(_ & _ & ? & _)|[(_ & _ & _ & ? & _)|(_ & _ & _ & _ & H)]]]]];
    try congruence.
  fold csv_dir rosbags in H.
  assert (Forall (fun bag => input_path `prefix_of` bag) rosbags) as Hpre.
  { apply List.Forall_forall. intros bag. apply find_rosbags_prefix. }
  apply bind_inv in H as [(e & H & ->)|([] & w1 & H1 & H)].
  { unfold mkdir in H.
    apply bind_inv in H as [(e' & [=] & _)|(w2 & w2' & [= <- <-] & H)].
    apply bind_inv in H as [(e' & [= H <-] & [= ->])|(t & w2 & _ & [=])].
    simpl in H. pose proof (mkdir_entry fs input_path "csv" Hdir) as Hmk. fold csv_dir in Hmk.
    destruct (resolve fs csv_dir) as [[|esc]|]; [done|congruence|].
    destruct Hmk as (fs' & Hmk & _). congruence. }
  unfold mkdir in H1.
  apply bind_inv in H1 as [(e' & [=] & _)|(w2 & w2' & [= <- <-] & H1)].
  apply bind_inv in H1 as [(e' & _ & [=])|(fs' & w2 & [= Hmk <-] & [= <-])].
  simpl in Hmk.
  assert (is_dir fs' csv_dir = true) as Hcsv'.
  { pose proof (mkdir_entry fs input_path "csv" Hdir) as Hmk'. fold csv_dir in Hmk'.
    unfold is_dir. destruct (resolve fs csv_dir) as [[|esc]|] eqn:Hc; [done| |].
    - rewrite Hmk in Hmk'. injection Hmk' as ->. by rewrite Hc.
    - destruct Hmk' as (fs1 & Hmk1 & Hnew & _). rewrite Hmk in Hmk1. injection Hmk1 as ->.
      by rewrite Hnew. }
  assert (forall r1 w2, process_each input_path csv_dir rosbags
            (World fs' [] [MsgFoundIn (length rosbags) input_path; MsgNoteCsvHere] [])
            = (r1, w2) ->
          is_dir (tree w2) csv_dir = true /\
          (exists k, k <= length rosbags /\
             map call_args (dumps w2) = take k (map (mirrored input_path csv_dir) rosbags) /\
             (r1 = Ok tt -> k = length rosbags)) /\
          Forall call_faithful (dumps w2) /\ stderr w2 = []) as Heach.
  { intros r1 w2 He.
    pose proof (process_each_run _ _ _ _ _ _ Hpre He) as (_ & Hse & _).
    apply process_each_spec in He as (Ht & Hf & k & Hk & Hd & Hr); [|done|by constructor].
    simpl in *. rewrite Ht. split; [done|]. split; [eauto|]. done. }
  apply bind_inv in H as [(e & H & ->)|([] & w2 & H2 & [= <- <-])].
  - apply Heach in H as (? & (k & ? & ? & _) & ? & ?). split; [done|]. split; [|done].
    exists k. done.
  - apply Heach in H2 as (? & ? & ? & ?). simpl. done.
Qed.
End MainModes.

Section MainEdges.
Context `{rt : Runtime}.


(** X26: when [csv] in the input directory is a regular file, a run
    that would convert bags ends with [FileExistsError], with no bag
    dumped, the tree untouched and nothing on [stderr]. *)
Theorem main_csv_is_a_file (fs : node) (input_path : path) r w :
  is_rosbag_dir fs input_path = false ->
  resolve fs (input_path ++ ["csv"]) = Some NFile ->
  path_exists fs (input_path ++ ["ros2bag"]) = true \/ find_rosbags fs input_path <> [] ->
  run_main fs input_path = (r, w) ->
  r = Raise FileExistsError /\ tree w = fs /\ dumps w = [] /\ stderr w = [].
Proof.
  intros Hbag Hcsv Hmode H.
  assert (is_dir fs input_path = true) as Hdir.
  { apply (child_exists_is_dir fs input_path "csv"). unfold path_exists. by rewrite Hcsv. }
  apply is_dir_exists in Hdir as Hex.
  pose proof (mkdir_entry fs input_path "csv" Hdir) as Hmk. rewrite Hcsv in Hmk.
  apply main_cases in H
    as [(? & _)|[(_ & ? & _)|[(_ & ? & _)|[(_ & _ & Hros & H)|[(_ & _ & ? & ? & _)|(_ & _ & _ & _ & H)]]]]];
    try congruence.
  - apply process_structured_bags_cases in H as [(e & He & -> & ->)|(fs1 & Hmk1 & _)]; [| |done];
      simpl in *; [|congruence].
    rewrite Hmk in He. by injection He as <-.
  - destruct Hmode as [?|?]; congruence.
  - apply bind_inv in H as [(e & H & ->)|([] & w1 & H1 & _)].
    + unfold mkdir in H.
      apply bind_inv in H as [(e' & [=] & _)|(w2 & w2' & [= <- <-] & H)].
      apply bind_inv in H as [(e' & [= H <-] & [= ->])|(t & w2 & _ & [=])].
      simpl in H. rewrite Hmk in H. by injection H as <-.
    + unfold mkdir in H1.
      apply bind_inv in H1 as [(e' & [=] & _)|(w2 & w2' & [= <- <-] & H1)].
      apply bind_inv in H1 as [(e' & _ & [=])|(fs' & w2 & [= Hmk' <-] & _)].
      simpl in Hmk'. congruence.
Qed.

(** X27: what a run of [main] leaves behind.  An error message means
    exit status 1 with nothing else printed and no bag dumped; a
    normal return means at least one bag was dumped and every call of
    [dump_bag] returned; a failure after the first call is the
    exception of the last call.  The message of
    [process_structured_bags] for a missing [ros2bag] directory is
    never printed. *)
Theorem main_outcomes (fs : node) (input_path : path) r w :
  run_main fs input_path = (r, w) ->
  (stderr w <> [] -> r = Raise (SystemExit 1) /\ dumps w = [] /\ stdout w = []) /\
  (r = Ok tt -> stderr w = [] /\ dumps w <> [] /\ Forall call_ok (dumps w)) /\
  (forall e, r = Raise e -> dumps w <> [] ->
     exists c, last (dumps w) = Some c /\ call_result c = Raise e) /\
  (forall p, ~ In (ErrNoRos2bagDir p) (stderr w)).
Proof.
  intros H.
  assert (forall root csv_dir rosbags w0 r1 w1,
            Forall (fun bag => root `prefix_of` bag) rosbags -> rosbags <> [] ->
            dumps w0 = [] -> stderr w0 = [] ->
            (process_each root csv_dir rosbags;; print_out MsgAllProcessed) w0 = (r1, w1) ->
            stderr w1 = [] /\ dumps w1 <> [] /\
            (r1 = Ok tt -> Forall call_ok (dumps w1)) /\
            (forall e, r1 = Raise e ->
               exists c, last (dumps w1) = Some c /\ call_result c = Raise e)) as Hloop.
  { intros root csv_dir rosbags w0 r1 w1 Hpre Hne Hd0 Hs0 He.
    apply bind_inv in He as [(e & He & ->)|([] & w2 & He & [= <- <-])].
    - apply process_each_run in He as (_ & Hse & _ & calls & Hd & _ & Hc & _ & Hr); [|done].
      rewrite Hd0 in Hd. simpl in Hd. rewrite Hse, Hd. split; [done|]. split; [auto|].
      split; [done|]. intros e' [= <-]. by apply Hr.
    - apply process_each_run in He as (_ & Hse & _ & calls & Hd & _ & Hc & Hok & _); [|done].
      rewrite Hd0 in Hd. simpl in *. rewrite Hse, Hd. split; [done|]. split; [auto|].
      split; [|done]. intros _. by apply Hok. }
  apply main_cases in H
    as [(_ & -> & ->)|[(_ & _ & -> & ->)|[(_ & _ & H)|[(_ & _ & Hros & H)|[(_ & _ & _ & _ & -> & ->)|(_ & _ & _ & Hne & H)]]]]];
    simpl.
  - repeat split; try done. intros p [[=]|[]].
  - repeat split; try done. intros p [[=]|[]].
  - apply process_single_bag_run in H as (r0 & st & _ & _ & Hse & Hd & Hr).
    simpl in *. rewrite Hse, Hd. split; [done|]. split; [|split; [|by intros p []]].
    + intros ->. split; [done|]. split; [by intros [=]|]. constructor; [|constructor].
      destruct r0 as [n|e]; [by exists n|by destruct Hr].
    + intros e -> _. eexists. split; [done|]. simpl.
      destruct r0 as [n|e0]; destruct Hr as [[= ->] _]. done.
  - apply process_structured_bags_cases in H as [(e & He & -> & ->)|(fs1 & Hmk1 & H)]; [| |done];
      simpl in *.
    { repeat split; try done. by intros p []. }
    destruct H as [(_ & -> & ->)|(Hne & H)]; simpl.
    { repeat split; try done. intros p [[=]|[]]. }
    apply Hloop in H as (Hse & Hd & Hok & Hr); try done.
    + rewrite Hse. repeat split; try done; auto. 
    + apply List.Forall_forall. intros bag. apply find_rosbags_prefix.
  - repeat split; try done. intros p [[=]|[[=]|[]]].
  - apply bind_inv in H as [(e & H & ->)|([] & w1 & H1 & H)].
    + unfold mkdir in H.
      apply bind_inv in H as [(e' & [=] & _)|(w2 & w2' & [= <- <-] & H)].
      apply bind_inv in H as [(e' & [= H <-] & [= ->])|(t & w2 & _ & [=])].
      simpl. repeat split; try done. by intros p [].
    + unfold mkdir in H1.
      apply bind_inv in H1 as [(e' & [=] & _)|(w2 & w2' & [= <- <-] & H1)].
      apply bind_inv in H1 as [(e' & _ & [=])|(fs' & w2 & [= Hmk <-] & [= <-])].
      apply Hloop in H as (Hse & Hd & Hok & Hr); try done.
      * rewrite Hse. repeat split; try done; auto.
      * apply List.Forall_forall. intros bag. apply find_rosbags_prefix.
Qed.
End MainEdges.

(** ** The sample passes *)

Lemma dump_bag_closes_files_on_completion_witness :
  let st := snd (dump_bag (rt := demo_runtime) "plain" "out" init_state) in
  dump_bag (rt := demo_runtime) "plain" "out" init_state = (Ok 2, st) /\
  forall f, In f (files st) -> fclosed f = true.
Proof.
  intros st.
  assert (dump_bag (rt := demo_runtime) "plain" "out" init_state = (Ok 2, st)) as H
    by (vm_compute; reflexivity).
  split; [exact H|].
  exact (proj1 (dump_bag_closes_files_on_completion (rt := demo_runtime) "plain" "out") 2 st H).
Defined.

(** C1 fails as stated: the second message of the sample bag cannot be
    decoded, the pass is aborted, and the file opened for the first
    message is still open when [dump_bag] is left. *)
Lemma dump_bag_abort_leaves_file_open :
  exists st f,
    dump_bag (rt := demo_runtime) "broken" "out" init_state = (Raise DeserializeError, st) /\
    In f (files st) /\ fname f = "out/a.csv" /\ fclosed f = false /\
    ~ (forall f', In f' (files st) -> fclosed f' = true).
Proof.
  eexists _, _. split; [vm_compute; reflexivity|]. split; [left; reflexivity|].
  split; [reflexivity|]. split; [reflexivity|].
  intros H. specialize (H _ (or_introl eq_refl)). discriminate H.
Defined.

Lemma skip_topics_produce_nothing_witness :
  let st := snd (dump_bag (rt := demo_runtime) "plain" "out" init_state) in
  dump_bag (rt := demo_runtime) "plain" "out" init_state = (Ok 2, st) /\
  ("/rosout" ∈ SKIP_TOPICS) /\
  dict_get (file_map st) "/rosout" = None.
Proof.
  intros st.
  assert (dump_bag (rt := demo_runtime) "plain" "out" init_state = (Ok 2, st)) as H
    by (vm_compute; reflexivity).
  assert ("/rosout" ∈ SKIP_TOPICS) as Hs
    by (apply (bool_decide_unpack _); vm_compute; exact I).
  split; [exact H|]. split; [exact Hs|].
  exact (proj1 (skip_topics_produce_nothing (rt := demo_runtime) "plain" "out" _ st H)
               "/rosout" Hs).
Defined.






Lemma structured_mode_mirrors_witness :
  let w := snd (run_main (rt := demo_runtime) demo_tree ["proj"]) in
  is_rosbag_dir demo_tree ["proj"] = false /\
  is_dir demo_tree (["proj"] ++ ["ros2bag"]) = true /\
  run_main (rt := demo_runtime) demo_tree ["proj"] = (Ok tt, w) /\
  exists k, k <= 3 /\
    map call_args (dumps w) =
    take k [("proj/ros2bag/cfg1/t1", "proj/csv/cfg1/t1");
            ("proj/ros2bag/cfg1/t2", "proj/csv/cfg1/t2");
            ("proj/ros2bag/cfg2/t1", "proj/csv/cfg2/t1")].
Proof.
  intros w.
  assert (is_rosbag_dir demo_tree ["proj"] = false) as H1 by reflexivity.
  assert (is_dir demo_tree (["proj"] ++ ["ros2bag"]) = true) as H2 by reflexivity.
  assert (run_main (rt := demo_runtime) demo_tree ["proj"] = (Ok tt, w)) as H3
    by (vm_compute; reflexivity).
  split; [exact H1|]. split; [exact H2|]. split; [exact H3|].
  destruct (structured_mode_mirrors (rt := demo_runtime) demo_tree ["proj"] (Ok tt) w H1 H2 H3)
    as (_ & _ & (k & Hk & Hcalls & _) & _).
  exists k. split; [exact Hk|]. exact Hcalls.
Defined.

Lemma flatten_paths_start_with_prefix_witness :
  let flat := [("stamp.sec", SInt 5); ("stamp.nanosec", SInt 7)] in
  _gen_msg_values (stamp_msg "int32" (SInt 5) (SInt 7)) "stamp" = Ok flat /\
  Forall (fun fv => startswith (fst fv) "stamp" = true) flat.
Proof.
  intros flat.
  assert (_gen_msg_values (stamp_msg "int32" (SInt 5) (SInt 7)) "stamp" = Ok flat) as H
    by reflexivity.
  split; [exact H|].
  exact (proj1 (flatten_paths_start_with_prefix _ _ _ H)).
Defined.

Lemma header_filter_drops_nested_header_witness :
  let flat := [("header.stamp.sec", SInt 5); ("header.stamp.nanosec", SInt 500000000);
               ("header.frame_id", SStr "map"); ("x", SInt 7)] in
  Forall (fun f => plain_name (fst (fst f)) = true) reading_fields /\
  _gen_msg_values (VMsg reading_fields) "" = Ok flat /\
  exists kept,
    _gen_msg_values (VMsg (List.filter (fun f => negb (nested_header f)) reading_fields)) ""
      = Ok kept /\
    List.filter (fun fv => not_header (fst fv)) flat = kept /\
    header_fields flat = map fst kept.
Proof.
  intros flat.
  assert (Forall (fun f => plain_name (fst (fst f)) = true) reading_fields) as H1
    by (repeat constructor).
  assert (_gen_msg_values (VMsg reading_fields) "" = Ok flat) as H2 by reflexivity.
  split; [exact H1|]. split; [exact H2|].
  exact (header_filter_drops_nested_header reading_fields flat H1 H2).
Defined.

Lemma flatten_paths_distinct_witness :
  let flat := [("header.stamp.sec", SInt 5); ("header.stamp.nanosec", SInt 500000000);
               ("header.frame_id", SStr "map"); ("x", SInt 7)] in
  well_named (VMsg reading_fields) = true /\
  _gen_msg_values (VMsg reading_fields) "" = Ok flat /\
  NoDup (map fst flat) /\ NoDup (header_fields flat).
Proof.
  intros flat.
  assert (well_named (VMsg reading_fields) = true) as H1 by (vm_compute; reflexivity).
  assert (_gen_msg_values (VMsg reading_fields) "" = Ok flat) as H2 by reflexivity.
  split; [exact H1|]. split; [exact H2|].
  exact (flatten_paths_distinct (VMsg reading_fields) "" flat H1 H2).
Defined.

Lemma one_file_per_topic_witness :
  let st := snd (dump_bag (rt := demo_runtime) "plain" "out" init_state) in
  dump_bag (rt := demo_runtime) "plain" "out" init_state = (Ok 2, st) /\
  open_reader (Runtime := demo_runtime) "plain" = Ok plain_bag /\
  Permutation (map fst (file_map st)) (topics_of (messages plain_bag)) /\
  length (files st) = 2.
Proof.
  intros st.
  assert (dump_bag (rt := demo_runtime) "plain" "out" init_state = (Ok 2, st)) as H
    by (vm_compute; reflexivity).
  assert (open_reader (Runtime := demo_runtime) "plain" = Ok plain_bag) as Hb by reflexivity.
  split; [exact H|]. split; [exact Hb|].
  destruct (one_file_per_topic (rt := demo_runtime) "plain" "out" 2 st plain_bag H Hb)
    as (H1 & _ & H2 & _).
  split; [exact H1|exact H2].
Defined.

Lemma completed_pass_rows_witness :
  let st := snd (dump_bag (rt := demo_runtime) "plain" "out" init_state) in
  let f := File_ "out/a.csv" ["time,data"; "0,42"; "200,42"] true in
  dump_bag (rt := demo_runtime) "plain" "out" init_state = (Ok 2, st) /\
  open_reader (Runtime := demo_runtime) "plain" = Ok plain_bag /\
  dict_get (file_map st) "/a" = Some 0 /\ files st !! 0 = Some f /\
  length (flines f) = S (length (on_topic "/a" (messages plain_bag))).
Proof.
  intros st f.
  assert (dump_bag (rt := demo_runtime) "plain" "out" init_state = (Ok 2, st)) as H
    by (vm_compute; reflexivity).
  assert (open_reader (Runtime := demo_runtime) "plain" = Ok plain_bag) as Hb by reflexivity.
  assert (dict_get (file_map st) "/a" = Some 0) as Hg by (vm_compute; reflexivity).
  assert (files st !! 0 = Some f) as Hf by (vm_compute; reflexivity).
  split; [exact H|]. split; [exact Hb|]. split; [exact Hg|]. split; [exact Hf|].
  destruct (completed_pass_rows (rt := demo_runtime) "plain" "out" 2 st plain_bag "/a" 0 f
              H Hb Hg Hf) as (header & rows & _ & _ & Hlen).
  exact Hlen.
Defined.


Lemma undecodable_message_aborts_witness :
  let type_map := make_type_map (topics_and_types broken_bag) in
  let st1 := snd (dump_loop (rt := demo_runtime) type_map "out" [("/a", [x04], 100%Z)] init_state) in
  ("/a" ∉ SKIP_TOPICS) /\
  decode_message (rt := demo_runtime) type_map "/a" [xff] = Raise DeserializeError /\
  dump_loop (rt := demo_runtime) type_map "out" [("/a", [x04], 100%Z)] init_state = (Ok tt, st1) /\
  dump_loop (rt := demo_runtime) type_map "out"
    ([("/a", [x04], 100%Z)] ++ ("/a", [xff], 200%Z) :: []) init_state
  = (Raise DeserializeError, st1).
Proof.
  intros type_map st1.
  assert ("/a" ∉ SKIP_TOPICS) as Hs
    by (apply (proj1 (bool_decide_eq_false _)); vm_compute; reflexivity).
  assert (decode_message (rt := demo_runtime) type_map "/a" [xff] = Raise DeserializeError) as Hd
    by (vm_compute; reflexivity).
  assert (dump_loop (rt := demo_runtime) type_map "out" [("/a", [x04], 100%Z)] init_state
          = (Ok tt, st1)) as Hpre by (vm_compute; reflexivity).
  split; [exact Hs|]. split; [exact Hd|]. split; [exact Hpre|].
  exact (proj1 (undecodable_message_aborts (rt := demo_runtime) type_map "out"
                  [("/a", [x04], 100%Z)] "/a" [xff] 200 [] DeserializeError init_state st1
                  Hs Hd Hpre)).
Defined.



Lemma find_rosbags_at_root_witness :
  is_rosbag_dir demo_tree ["proj"; "ros2bag"; "cfg1"; "t1"] = true /\
  find_rosbags demo_tree ["proj"; "ros2bag"; "cfg1"; "t1"] = [["proj"; "ros2bag"; "cfg1"; "t1"]].
Proof.
  assert (is_rosbag_dir demo_tree ["proj"; "ros2bag"; "cfg1"; "t1"] = true) as H by reflexivity.
  split; [exact H|].
  exact (proj2 (find_rosbags_at_root demo_tree ["proj"; "ros2bag"; "cfg1"; "t1"]) H).
Defined.

Lemma find_rosbags_NoDup_witness :
  unique_names demo_tree = true /\ NoDup (find_rosbags demo_tree ["proj"; "ros2bag"]).
Proof.
  assert (unique_names demo_tree = true) as H by (vm_compute; reflexivity).
  split; [exact H|]. exact (find_rosbags_NoDup demo_tree ["proj"; "ros2bag"] H).
Defined.

Lemma main_rejects_bad_input_witness :
  path_exists demo_tree ["nowhere"] = false /\
  run_main (rt := demo_runtime) demo_tree ["nowhere"] =
  (Raise (SystemExit 1), World demo_tree [] [] [ErrNotExist ["nowhere"]]).
Proof.
  assert (path_exists demo_tree ["nowhere"] = false) as H by reflexivity.
  split; [exact H|].
  exact (proj1 (main_rejects_bad_input (rt := demo_runtime) demo_tree ["nowhere"]) H).
Defined.

Lemma main_single_bag_witness :
  let input_path := ["proj"; "ros2bag"; "cfg1"; "t2"] in
  let w := snd (run_main (rt := demo_runtime) demo_tree input_path) in
  is_rosbag_dir demo_tree input_path = true /\
  run_main (rt := demo_runtime) demo_tree input_path = (Ok tt, w) /\
  exists r0 st,
    dump_bag (rt := demo_runtime) (path_str input_path) (path_str input_path) init_state
      = (r0, st) /\
    dumps w = [DumpCall (path_str input_path) (path_str input_path) r0 st].
Proof.
  intros input_path w.
  assert (is_rosbag_dir demo_tree input_path = true) as H1 by reflexivity.
  assert (run_main (rt := demo_runtime) demo_tree input_path = (Ok tt, w)) as H2
    by (vm_compute; reflexivity).
  split; [exact H1|]. split; [exact H2|].
  destruct (main_single_bag (rt := demo_runtime) demo_tree input_path (Ok tt) w H1 H2)
    as (r0 & st & Hd & _ & _ & Hc & _).
  exists r0, st. split; [exact Hd|exact Hc].
Defined.

Lemma scan_mode_mirrors_witness :
  let input_path := ["proj"; "ros2bag"; "cfg1"] in
  let w := snd (run_main (rt := demo_runtime) demo_tree input_path) in
  is_dir demo_tree input_path = true /\
  is_rosbag_dir demo_tree input_path = false /\
  path_exists demo_tree (input_path ++ ["ros2bag"]) = false /\
  find_rosbags demo_tree input_path <> [] /\
  resolve demo_tree (input_path ++ ["csv"]) <> Some NFile /\
  run_main (rt := demo_runtime) demo_tree input_path = (Ok tt, w) /\
  is_dir (tree w) (input_path ++ ["csv"]) = true /\
  stderr w = [].
Proof.
  intros input_path w.
  assert (is_dir demo_tree input_path = true) as H1 by reflexivity.
  assert (is_rosbag_dir demo_tree input_path = false) as H2 by reflexivity.
  assert (path_exists demo_tree (input_path ++ ["ros2bag"]) = false) as H3 by reflexivity.
  assert (find_rosbags demo_tree input_path <> []) as H4 by (vm_compute; discriminate).
  assert (resolve demo_tree (input_path ++ ["csv"]) <> Some NFile) as H5
    by (vm_compute; discriminate).
  assert (run_main (rt := demo_runtime) demo_tree input_path = (Ok tt, w)) as H6
    by (vm_compute; reflexivity).
  do 6 (split; [assumption|]).
  destruct (scan_mode_mirrors (rt := demo_runtime) demo_tree input_path (Ok tt) w
              H1 H2 H3 H4 H5 H6) as (Hd & _ & _ & He).
  split; [exact Hd|exact He].
Defined.


Lemma main_csv_is_a_file_witness :
  let w := snd (run_main (rt := demo_runtime) blocked_tree ["proj"]) in
  is_rosbag_dir blocked_tree ["proj"] = false /\
  resolve blocked_tree (["proj"] ++ ["csv"]) = Some NFile /\
  path_exists blocked_tree (["proj"] ++ ["ros2bag"]) = true /\
  run_main (rt := demo_runtime) blocked_tree ["proj"] = (Raise FileExistsError, w) /\
  dumps w = [].
Proof.
  intros w.
  assert (is_rosbag_dir blocked_tree ["proj"] = false) as H1 by reflexivity.
  assert (resolve blocked_tree (["proj"] ++ ["csv"]) = Some NFile) as H2 by reflexivity.
  assert (path_exists blocked_tree (["proj"] ++ ["ros2bag"]) = true) as H3 by reflexivity.
  assert (run_main (rt := demo_runtime) blocked_tree ["proj"] = (Raise FileExistsError, w)) as H4
    by (vm_compute; reflexivity).
  do 4 (split; [assumption|]).
  destruct (main_csv_is_a_file (rt := demo_runtime) blocked_tree ["proj"] _ w H1 H2
              (or_introl H3) H4) as (_ & _ & Hd & _).
  exact Hd.
Defined.

Lemma main_outcomes_witness :
  let w := snd (run_main (rt := demo_runtime) demo_tree ["proj"]) in
  run_main (rt := demo_runtime) demo_tree ["proj"] = (Ok tt, w) /\
  stderr w = [] /\ dumps w <> [] /\ Forall call_ok (dumps w).
Proof.
  intros w.
  assert (run_main (rt := demo_runtime) demo_tree ["proj"] = (Ok tt, w)) as H
    by (vm_compute; reflexivity).
  split; [exact H|].
  exact (proj1 (proj2 (main_outcomes (rt := demo_runtime) demo_tree ["proj"] (Ok tt) w H))
               eq_refl).
Defined.

Lemma headerless_bag_times_witness :
  let st := snd (dump_bag (rt := demo_runtime) "plain" "out" init_state) in
  dump_bag (rt := demo_runtime) "plain" "out" init_state = (Ok 2, st) /\
  open_reader (Runtime := demo_runtime) "plain" = Ok plain_bag /\
  (forall topic data timestamp msg,
     In (topic, data, timestamp) (processed (messages plain_bag)) ->
     decode_message (rt := demo_runtime) (make_type_map (topics_and_types plain_bag)) topic data
       = Ok msg ->
     hasattr msg "header" = false) /\
  processed (messages plain_bag) =
    ("/a", [x04], 100%Z) :: [("/b/c", [x04], 250%Z); ("/a", [x04], 300%Z)] /\
  start_time st = Some (NInt 100).
Proof.
  intros st.
  assert (dump_bag (rt := demo_runtime) "plain" "out" init_state = (Ok 2, st)) as H
    by (vm_compute; reflexivity).
  assert (open_reader (Runtime := demo_runtime) "plain" = Ok plain_bag) as Hb by reflexivity.
  assert (processed (messages plain_bag) =
            ("/a", [x04], 100%Z) :: [("/b/c", [x04], 250%Z); ("/a", [x04], 300%Z)]) as Hp
    by (vm_compute; reflexivity).
  assert (forall topic data timestamp msg,
            In (topic, data, timestamp) (processed (messages plain_bag)) ->
            decode_message (rt := demo_runtime) (make_type_map (topics_and_types plain_bag))
              topic data = Ok msg ->
            hasattr msg "header" = false) as Hplain.
  { intros topic data timestamp msg Hin Hd. rewrite Hp in Hin. simpl in Hin.
    repeat (destruct Hin as [Hin|Hin];
            [injection Hin as <- <- <-; vm_compute in Hd; injection Hd as <-; reflexivity|]).
    destruct Hin. }
  split; [exact H|]. split; [exact Hb|]. split; [exact Hplain|]. split; [exact Hp|].
  exact (proj1 (headerless_bag_times (rt := demo_runtime) "plain" "out" 2 st plain_bag
                  "/a" [x04] 100 _ H Hb Hplain Hp)).
Defined.

Lemma find_rosbags_listing_order_witness :
  unique_names demo_tree = true /\ unique_names demo_tree_relisted = true /\
  sub_tree demo_tree demo_tree_relisted = true /\
  sub_tree demo_tree_relisted demo_tree = true /\
  demo_tree <> demo_tree_relisted /\
  find_rosbags demo_tree ["proj"; "ros2bag"] =
  find_rosbags demo_tree_relisted ["proj"; "ros2bag"].
Proof.
  assert (unique_names demo_tree = true) as H1 by (vm_compute; reflexivity).
  assert (unique_names demo_tree_relisted = true) as H2 by (vm_compute; reflexivity).
  assert (sub_tree demo_tree demo_tree_relisted = true) as H3 by (vm_compute; reflexivity).
  assert (sub_tree demo_tree_relisted demo_tree = true) as H4 by (vm_compute; reflexivity).
  do 4 (split; [assumption|]). split; [discriminate|].
  exact (find_rosbags_listing_order demo_tree demo_tree_relisted ["proj"; "ros2bag"]
           H1 H2 H3 H4).
Defined.


Lemma output_dirs_not_nested_witness :
  let root := ["proj"; "ros2bag"] in
  let bag := ["proj"; "ros2bag"; "cfg1"; "t2"] in
  In bag (find_rosbags demo_tree root) /\
  get_relative_structure bag root = Ok ["cfg1"; "t2"] /\
  (["proj"; "csv"] ++ ["cfg1"; "t2"]) `prefix_of` (["proj"; "csv"] ++ ["cfg1"; "t2"]) /\
  bag = bag.
Proof.
  intros root bag.
  assert (In bag (find_rosbags demo_tree root)) as H1 by (vm_compute; tauto).
  assert (get_relative_structure bag root = Ok ["cfg1"; "t2"]) as H2 by reflexivity.
  assert ((["proj"; "csv"] ++ ["cfg1"; "t2"]) `prefix_of` (["proj"; "csv"] ++ ["cfg1"; "t2"]))
    as H3 by reflexivity.
  split; [exact H1|]. split; [exact H2|]. split; [exact H3|].
  exact (output_dirs_not_nested demo_tree root ["proj"; "csv"] bag bag _ _ H1 H1 H2 H2 H3).
Defined.
